(** * gcsetup: a shallow embedding of package [cmd]

    The Go sources [cmd/init.go], [cmd/setup.go] (setup and project
    create), the load-balancer command and the root command are embedded
    as Rocq functions in a small effect monad.  A computation reads the
    static environment of a run (flags, configuration, the behaviour of
    the operating system and of the external binaries), sees the history
    of the events emitted so far, and returns a value, the events it
    emitted itself and the new state of the world (standard input and the
    file system).

    Strings are Go strings seen as byte sequences ([string] of stdpp /
    the Standard Library); Go maps are [gmap]s. *)

From Stdlib Require Import ZArith Lia List Permutation Ascii.
From stdpp Require Import base strings gmap list pretty.

(** ** Strings *)

(** The line feed and the double quote character of Go string literals. *)
Definition nl : string := String "010"%char EmptyString.
Definition dq : string := String "034"%char EmptyString.

(** [len(s)] as a Go [int]. *)
Definition len (s : string) : Z := Z.of_nat (String.length s).

(** [strings.Join(elems, sep)]. *)
Definition Join (elems : list string) (sep : string) : string :=
  String.concat sep elems.

(** ** [contains] and [containsSubstring] (cmd/init.go) *)

(** The body of the loop of [containsSubstring], for [n] more iterations
    starting at index [i]: [s[i:i+len(substr)] == substr]. *)
Fixpoint containsSubstring_loop (n i : nat) (s substr : string) : bool :=
  match n with
  | O => false
  | S n' =>
      if String.eqb (String.substring i (String.length substr) s) substr
      then true
      else containsSubstring_loop n' (S i) s substr
  end.

(** [for i := 0; i <= len(s)-len(substr); i++]: the bound is a signed
    [int], so the loop runs [len(s)-len(substr)+1] times when that is
    positive and not at all otherwise. *)
Definition containsSubstring (s substr : string) : bool :=
  containsSubstring_loop (Z.to_nat (len s - len substr + 1)) 0 s substr.

Definition contains (s substr : string) : bool :=
  (len s >=? len substr)%Z &&
  (String.eqb s substr || ((len s >? 0)%Z && containsSubstring s substr)).

(** [substr] occurs in [s] as a contiguous block of bytes. *)
Definition occurs_in (substr s : string) : Prop :=
  exists pre post : string, s = pre +:+ substr +:+ post.

(** ** Errors *)

(** Go [error] values as the program builds them. *)
Inductive error : Type :=
| RunError (msg : string)
    (** an error returned by the [os] or [os/exec] packages *)
| Errorf (msg : string)
    (** [fmt.Errorf(msg)] without [%w] *)
| Errorf_w (msg : string) (err : error).
    (** [fmt.Errorf] with a final [%w] verb: wraps [err] *)

(** [err.Error()]. *)
Fixpoint Error (e : error) : string :=
  match e with
  | RunError msg => msg
  | Errorf msg => msg
  | Errorf_w msg err => msg +:+ Error err
  end.

(** [errors.Unwrap(err)]. *)
Definition Unwrap (e : error) : option error :=
  match e with
  | Errorf_w _ err => Some err
  | _ => None
  end.

(** ** Events, world and environment of a run *)

Inductive event : Type :=
| Stdout (s : string)
    (** bytes written to standard output by the program itself *)
| Stderr (s : string)
| Run (name : string) (args : list string) (res : option string)
    (** [exec.Command(name, args...).Run()] together with its outcome:
        [None] for a nil error, [Some msg] for an error with that text *)
| Exit (code : Z)
    (** [os.Exit(code)] *)
| Panic (msg : string).
    (** a run-time panic that nothing recovers, as the Go runtime reports
        it on standard error *)

Definition is_Run (e : event) : bool :=
  match e with Run _ _ _ => true | _ => false end.

Definition is_Panic (e : event) : bool :=
  match e with Panic _ => true | _ => false end.

(** A run-time panic was raised. *)
Definition panicked (tr : list event) : bool := existsb is_Panic tr.

(** The external commands a run invoked, in order. *)
Definition invocations (tr : list event) : list (string * list string) :=
  omap (fun e => match e with Run n a _ => Some (n, a) | _ => None end) tr.

(** A regular file with the access the process has to it. *)
Record file : Type := File {
  data : string;
  readable : bool;
  writable : bool
}.

Record World : Type := mkWorld {
  stdin : string;
    (** the bytes standard input has still to deliver, up to its end *)
  files : gmap string file
    (** the regular files that exist, by path *)
}.

Record Env : Type := mkEnv {
  (** configuration: [viper.GetString] *)
  viper : string -> string;
  (** command-line flags (package-level variables of [cmd]) *)
  dryRun : bool;
  projectDryRun : bool;
  projectNonInteractive : bool;
  lbDryRun : bool;
  lbNonInteractive : bool;
  (** [exec.LookPath(name)] succeeds *)
  lookPath : string -> bool;
  (** the outcome of running an external command, which may depend on
      everything that happened before *)
  runCmd : list event -> string -> list string -> option string;
  (** the order in which a [range] statement visits the entries of a
      map; the Go language leaves it unspecified *)
  rangeOrder : gmap string string -> list (string * string);
  (** [rand.Intn(100000)] *)
  randIntn : Z;
  (** Go standard library string functions *)
  TrimSpace : string -> string;
  ToLower : string -> string;
  Sscanf_d : string -> option Z;
  (** [os.Getwd()] and [os.MkdirAll(path, 0755)] *)
  getwd : string + string;
  mkdirAll : string -> option string;
  (** [os.WriteFile(path, _, 0644)] succeeds at a path where no file
      exists: the file is created, written in full and closed without
      an error *)
  creatable : string -> bool;
  (** a write of [data] to [path] that fails once the file is open:
      the number of bytes that reach the file all the same, and the
      text of the error ([None]: no such failure) *)
  writeFault : string -> string -> option (nat * string);
  (** how many bytes beyond the line it returns a [bufio.Reader] on
      standard input has taken into its buffer, given what the program
      has printed so far and the input that follows the line: none on a
      terminal in line mode, whatever is at hand on a pipe or a file *)
  readAhead : list event -> string -> nat;
  (** [viper.ReadInConfig()] found a configuration file:
      [viper.ConfigFileUsed()] *)
  configFileUsed : option string;
  (** [UsageString()] of the sub-command that is run *)
  usageString : string;
  (** the embedded templates of package [embedded] *)
  DeployWorkflow : string;
  EnvTemplate : string
}.

(** A [range] over a map visits every entry exactly once. *)
Definition valid_rangeOrder (env : Env) : Prop :=
  forall m : gmap string string, rangeOrder env m ≡ₚ map_to_list m.

(** ** The effect monad *)

Record Res (A : Type) : Type := mkRes {
  val : A;
  out : list event;
  world : World
}.
Arguments mkRes {A} _ _ _.
Arguments val {A} _.
Arguments out {A} _.
Arguments world {A} _.

Definition M (A : Type) : Type := Env -> list event -> World -> Res A.

Definition ret {A} (a : A) : M A := fun _ _ w => mkRes a [] w.

Definition bind {A B} (m : M A) (f : A -> M B) : M B := fun env h w =>
  match m env h w with
  | mkRes a d1 w1 =>
      match f a env (h ++ d1) w1 with
      | mkRes b d2 w2 => mkRes b (d1 ++ d2) w2
      end
  end.

Notation "x <- c1 ;; c2" := (bind c1 (fun x => c2))
  (at level 100, c1 at next level, right associativity).
Notation "c1 ;; c2" := (bind c1 (fun _ => c2))
  (at level 100, right associativity).

(** [if err := c; err != nil { return err }] followed by [k]. *)
Definition or_return (c k : M (option error)) : M (option error) :=
  err <- c ;;
  match err with
  | Some e => ret (Some e)
  | None => k
  end.

(** [if err := c; err != nil { return fmt.Errorf(msg, err) }], where the
    format ends in [%w]. *)
Definition or_return_w (msg : string) (c k : M (option error)) : M (option error) :=
  err <- c ;;
  match err with
  | Some e => ret (Some (Errorf_w msg e))
  | None => k
  end.

(** [for _, x := range xs { body }] over a slice, where the body either
    falls through to the next iteration ([None]) or returns from the
    enclosing function with an error. *)
Fixpoint for_range {A} (xs : list A) (body : A -> M (option error)) : M (option error) :=
  match xs with
  | [] => ret None
  | x :: xs' => or_return (body x) (for_range xs' body)
  end.

Definition ask : M Env := fun env _ w => mkRes env [] w.

Definition emit (e : event) : M unit := fun _ _ w => mkRes tt [e] w.

(** [fmt.Print], [fmt.Println] and [fmt.Fprintln(os.Stderr, _)] of an
    already formatted string. *)
Definition Print (s : string) : M unit := emit (Stdout s).
Definition Println (s : string) : M unit := emit (Stdout (s +:+ nl)).
Definition Fprintln_Stderr (s : string) : M unit := emit (Stderr (s +:+ nl)).

(** [exec.Command(name, args...).Run()]. What the child itself writes is
    not part of the model, so wiring [cmd.Stdout] and [cmd.Stderr] leaves
    no trace here. *)
Definition Command_Run (name : string) (args : list string) : M (option error) :=
  fun env h w =>
    let r := runCmd env h name args in
    mkRes (RunError <$> r) [Run name args r] w.

Definition LookPath (name : string) : M bool :=
  env <- ask ;; ret (lookPath env name).

Definition GetString (key : string) : M string :=
  env <- ask ;; ret (viper env key).

Definition flag (f : Env -> bool) : M bool :=
  env <- ask ;; ret (f env).

(** [for name, value := range m { body }] over a map: the entries are
    visited in the order the runtime picks for this run. *)
Definition range_map (m : gmap string string)
    (body : string -> string -> M (option error)) : M (option error) :=
  env <- ask ;;
  for_range (rangeOrder env m) (fun kv => body kv.1 kv.2).

(** ** The root command *)

(** [RequiredVars] lists all environment variables required for setup. *)
Definition RequiredVars : list string :=
  [ "GCP_PROJECT_ID"; "GCP_PROJECT_NUMBER"; "GITHUB_ORGANIZATION";
    "GITHUB_REPOSITORY"; "SERVICE_ACCOUNT_NAME"; "ARTIFACT_REGISTRY_NAME";
    "ARTIFACT_REGISTRY_LOCATION"; "CLOUD_RUN_SERVICE"; "CLOUD_RUN_REGION" ].

Definition ValidateConfig : M (option error) :=
  env <- ask ;;
  let missing :=
    filter (fun v => String.eqb (viper env v) EmptyString = true) RequiredVars in
  if (0 <? length missing)%nat
  then ret (Some (Errorf ("missing required variables:" +:+ nl +:+ "  - "
                          +:+ Join missing (nl +:+ "  - "))))
  else ret None.

(** [initConfig] initializes viper configuration from file and
    environment variables. What it sets up is the function [viper] of
    the environment; what it prints is the name of the file it read. *)
Definition initConfig : M unit :=
  env <- ask ;;
  match configFileUsed env with
  | Some file => Println ("Using config file: " +:+ file)
  | None => ret tt
  end.

(** [m], then [k] on its result, unless [m] panicked: nothing in the
    program recovers a panic, so it unwinds through every caller and the
    Go runtime, having reported it, ends the process with status 2. The
    value a panicking computation returns in this embedding is never
    looked at. *)
Definition unless_panicked {A} (m : M A) (k : A -> M unit) : M unit :=
  fun env h w =>
    match m env h w with
    | mkRes a d1 w1 =>
        if panicked d1 then mkRes tt (d1 ++ [Exit 2]) w1
        else match k a env (h ++ d1) w1 with
             | mkRes b d2 w2 => mkRes b (d1 ++ d2) w2
             end
    end.

(** [Execute] runs the root command and exits on error, for a command
    line that selects the sub-command whose [RunE] function is [runE].
    [rootCmd.Execute()] is cobra's: it runs the initializer registered
    with [cobra.OnInitialize], then [runE]; as neither [SilenceErrors]
    nor [SilenceUsage] is set on any command, it prints an error that
    [runE] returns, behind the prefix [Error:], and the usage text of the
    command on standard error before it hands the error back. *)
Definition Execute (runE : M (option error)) : M unit :=
  initConfig ;;
  unless_panicked runE (fun err =>
    match err with
    | Some e =>
        (* rootCmd.Execute() *)
        env <- ask ;;
        Fprintln_Stderr ("Error: " +:+ Error e) ;;
        Fprintln_Stderr (usageString env) ;;
        (* Execute *)
        Fprintln_Stderr (Error e) ;;
        emit (Exit 1)
    | None => ret tt
    end).

(** The step loop shared, as three textual copies, by [runSetup],
    [runProjectCreate] and [runLoadBalancer]:
    [for i, step := range steps { ... }]. *)
Definition step_banner (i total : nat) (name : string) : list event :=
  [ Stdout ("Step " +:+ pretty (S i) +:+ "/" +:+ pretty total +:+ ": "
            +:+ name +:+ "..." +:+ nl);
    Stdout ("----------------------------------------------" +:+ nl) ].

(** One turn of the loop: the banner, the step, and either the wrapped
    error or the blank line. *)
Definition loop_body {C : Type} (total : nat) (cfg : C)
    (s : nat * (string * (C -> M (option error)))) : M (option error) :=
  Print ("Step " +:+ pretty (S s.1) +:+ "/" +:+ pretty total +:+ ": "
         +:+ s.2.1 +:+ "..." +:+ nl) ;;
  Println "----------------------------------------------" ;;
  or_return_w (s.2.1 +:+ " failed: ") (s.2.2 cfg)
    (Println EmptyString ;; ret None).

Definition run_steps {C : Type} (steps : list (string * (C -> M (option error))))
    (cfg : C) : M (option error) :=
  for_range (imap (fun i s => (i, s)) steps) (loop_body (length steps) cfg).

(** ** The setup command (cmd/setup.go) *)

Record Config : Type := mkConfig {
  ProjectID : string;
  ProjectNumber : string;
  GitHubOrg : string;
  GitHubRepo : string;
  ServiceAccountName : string;
  ServiceAccountEmail : string;
  ArtifactRegistryName : string;
  ArtifactRegistryLocation : string;
  CloudRunService : string;
  CloudRunRegion : string;
  WorkloadIdentityProvider : string;
  ArtifactRegistryURL : string
}.

Definition loadConfig : M Config :=
  projectID <- GetString "GCP_PROJECT_ID" ;;
  projectNumber <- GetString "GCP_PROJECT_NUMBER" ;;
  saName <- GetString "SERVICE_ACCOUNT_NAME" ;;
  arLocation <- GetString "ARTIFACT_REGISTRY_LOCATION" ;;
  arName <- GetString "ARTIFACT_REGISTRY_NAME" ;;
  gitHubOrg <- GetString "GITHUB_ORGANIZATION" ;;
  gitHubRepo <- GetString "GITHUB_REPOSITORY" ;;
  cloudRunService <- GetString "CLOUD_RUN_SERVICE" ;;
  cloudRunRegion <- GetString "CLOUD_RUN_REGION" ;;
  ret {| ProjectID := projectID;
         ProjectNumber := projectNumber;
         GitHubOrg := gitHubOrg;
         GitHubRepo := gitHubRepo;
         ServiceAccountName := saName;
         ServiceAccountEmail := saName +:+ "@" +:+ projectID +:+ ".iam.gserviceaccount.com";
         ArtifactRegistryName := arName;
         ArtifactRegistryLocation := arLocation;
         CloudRunService := cloudRunService;
         CloudRunRegion := cloudRunRegion;
         WorkloadIdentityProvider :=
           "projects/" +:+ projectNumber
           +:+ "/locations/global/workloadIdentityPools/github-pool/providers/github-provider";
         ArtifactRegistryURL :=
           arLocation +:+ "-docker.pkg.dev/" +:+ projectID +:+ "/" +:+ arName |}.

Definition checkGcloud : M (option error) :=
  found <- LookPath "gcloud" ;;
  if found then ret None
  else ret (Some (Errorf
         "gcloud CLI not found. Install it: https://cloud.google.com/sdk/docs/install")).

Definition checkGH : M (option error) :=
  found <- LookPath "gh" ;;
  if found then
    (* Check authentication *)
    err <- Command_Run "gh" ["auth"; "status"] ;;
    match err with
    | Some _ => ret (Some (Errorf "GitHub CLI not authenticated. Run: gh auth login"))
    | None => ret None
    end
  else ret (Some (Errorf
         "GitHub CLI (gh) not found. Install it: https://cli.github.com/")).

Definition runCommand (name : string) (args : list string) : M (option error) :=
  dry <- flag dryRun ;;
  if dry then
    Print ("  [dry-run] " +:+ name +:+ " " +:+ Join args " " +:+ nl) ;;
    ret None
  else Command_Run name args.

Definition runCommandSilent (name : string) (args : list string) : M (option error) :=
  dry <- flag dryRun ;;
  if dry then
    Print ("  [dry-run] " +:+ name +:+ " " +:+ Join args " " +:+ nl) ;;
    ret None
  else Command_Run name args.

Definition apis : list string :=
  [ "cloudresourcemanager.googleapis.com"; "iam.googleapis.com";
    "iamcredentials.googleapis.com"; "artifactregistry.googleapis.com";
    "run.googleapis.com"; "secretmanager.googleapis.com";
    "cloudbuild.googleapis.com" ].

Definition enableAPIs (cfg : Config) : M (option error) :=
  or_return
    (for_range apis (fun api =>
       Print ("  Enabling " +:+ api +:+ nl) ;;
       runCommandSilent "gcloud"
         ["services"; "enable"; api; "--project=" +:+ ProjectID cfg]))
    (ret None).

Definition roles : list string :=
  [ "roles/run.developer"; "roles/artifactregistry.writer";
    "roles/secretmanager.secretAccessor"; "roles/iam.serviceAccountUser";
    "roles/cloudbuild.builds.builder"; "roles/logging.logWriter" ].

Definition createServiceAccount (cfg : Config) : M (option error) :=
  (* Create service account *)
  Print ("  Creating service account: " +:+ ServiceAccountName cfg +:+ nl) ;;
  err <- runCommandSilent "gcloud"
           [ "iam"; "service-accounts"; "create"; ServiceAccountName cfg;
             "--project=" +:+ ProjectID cfg;
             "--display-name=" +:+ ServiceAccountName cfg +:+ " Service Account";
             "--description=Service account for GitHub Actions CI/CD" ] ;;
  match err with
  | Some _ =>
      (* Might already exist, continue *)
      Println "  (service account may already exist, continuing...)"
  | None => ret tt
  end ;;
  (* Grant roles *)
  or_return
    (for_range roles (fun role =>
       Print ("  Granting " +:+ role +:+ nl) ;;
       runCommandSilent "gcloud"
         [ "projects"; "add-iam-policy-binding"; ProjectID cfg;
           "--member=serviceAccount:" +:+ ServiceAccountEmail cfg;
           "--role=" +:+ role;
           "--condition=None" ]))
    (ret None).

Definition setupWorkloadIdentity (cfg : Config) : M (option error) :=
  (* Create Workload Identity Pool *)
  Println "  Creating Workload Identity Pool..." ;;
  err <- runCommandSilent "gcloud"
           [ "iam"; "workload-identity-pools"; "create"; "github-pool";
             "--project=" +:+ ProjectID cfg;
             "--location=global";
             "--display-name=GitHub Actions Pool" ] ;;
  match err with
  | Some _ => Println "  (pool may already exist, continuing...)"
  | None => ret tt
  end ;;
  (* Create Provider *)
  Println "  Creating OIDC Provider..." ;;
  err <- runCommandSilent "gcloud"
           [ "iam"; "workload-identity-pools"; "providers"; "create-oidc";
             "github-provider";
             "--project=" +:+ ProjectID cfg;
             "--location=global";
             "--workload-identity-pool=github-pool";
             "--display-name=GitHub Provider";
             "--attribute-mapping=google.subject=assertion.sub,attribute.actor=assertion.actor,attribute.repository=assertion.repository";
             "--issuer-uri=https://token.actions.githubusercontent.com" ] ;;
  match err with
  | Some _ => Println "  (provider may already exist, continuing...)"
  | None => ret tt
  end ;;
  (* Allow repo to impersonate service account *)
  Println "  Configuring repository access..." ;;
  let member :=
    "principalSet://iam.googleapis.com/projects/" +:+ ProjectNumber cfg
    +:+ "/locations/global/workloadIdentityPools/github-pool/attribute.repository/"
    +:+ GitHubOrg cfg +:+ "/" +:+ GitHubRepo cfg in
  runCommandSilent "gcloud"
    [ "iam"; "service-accounts"; "add-iam-policy-binding"; ServiceAccountEmail cfg;
      "--project=" +:+ ProjectID cfg;
      "--role=roles/iam.workloadIdentityUser";
      "--member=" +:+ member ].

Definition createArtifactRegistry (cfg : Config) : M (option error) :=
  Print ("  Creating repository: " +:+ ArtifactRegistryName cfg +:+ nl) ;;
  err <- runCommandSilent "gcloud"
           [ "artifacts"; "repositories"; "create"; ArtifactRegistryName cfg;
             "--project=" +:+ ProjectID cfg;
             "--location=" +:+ ArtifactRegistryLocation cfg;
             "--repository-format=docker";
             "--description=Container registry for CI/CD" ] ;;
  match err with
  | Some _ => Println "  (repository may already exist, continuing...)"
  | None => ret tt
  end ;;
  ret None.

(** The two map literals of [configureGitHub]. *)
Definition secrets (cfg : Config) : gmap string string :=
  list_to_map
    [ ("GCP_SERVICE_ACCOUNT", ServiceAccountEmail cfg);
      ("GCP_WORKLOAD_IDENTITY_PROVIDER", WorkloadIdentityProvider cfg) ].

Definition variables (cfg : Config) : gmap string string :=
  list_to_map
    [ ("CLOUD_RUN_SERVICE", CloudRunService cfg);
      ("CLOUD_RUN_REGION", CloudRunRegion cfg);
      ("ARTIFACT_REGISTRY_URL", ArtifactRegistryURL cfg) ].

(** The bodies of the two [range] loops of [configureGitHub]; [kind] is
    [secret] or [variable]. *)
Definition gh_set (kind repo name value : string) : M (option error) :=
  Print ("    " +:+ name +:+ nl) ;;
  dry <- flag dryRun ;;
  if dry then
    Print ("    [dry-run] gh " +:+ kind +:+ " set " +:+ name +:+ " --repo " +:+ repo +:+ nl) ;;
    ret None
  else
    or_return_w ("failed to set " +:+ kind +:+ " " +:+ name +:+ ": ")
      (Command_Run "gh" [kind; "set"; name; "--repo"; repo; "--body"; value])
      (ret None).

Definition configureGitHub (cfg : Config) : M (option error) :=
  let repo := GitHubOrg cfg +:+ "/" +:+ GitHubRepo cfg in
  (* Set secrets *)
  Println "  Setting secrets..." ;;
  or_return (range_map (secrets cfg) (gh_set "secret" repo)) (
  (* Set variables *)
  Println "  Setting variables..." ;;
  or_return (range_map (variables cfg) (gh_set "variable" repo)) (
  ret None)).

Definition setupSteps : list (string * (Config -> M (option error))) :=
  [ ("Enabling APIs", enableAPIs);
    ("Creating Service Account", createServiceAccount);
    ("Setting up Workload Identity Federation", setupWorkloadIdentity);
    ("Creating Artifact Registry", createArtifactRegistry);
    ("Configuring GitHub Repository", configureGitHub) ].

Definition setup_header (cfg : Config) : list event :=
  [ Stdout ("==============================================" +:+ nl);
    Stdout ("GCloud Project Setup" +:+ nl);
    Stdout ("==============================================" +:+ nl);
    Stdout ("Project ID:     " +:+ ProjectID cfg +:+ nl);
    Stdout ("Project Number: " +:+ ProjectNumber cfg +:+ nl);
    Stdout ("GitHub:         " +:+ GitHubOrg cfg +:+ "/" +:+ GitHubRepo cfg +:+ nl);
    Stdout ("==============================================" +:+ nl);
    Stdout nl ].

Definition setup_footer : list event :=
  [ Stdout ("==============================================" +:+ nl);
    Stdout ("Setup Complete!" +:+ nl);
    Stdout ("==============================================" +:+ nl);
    Stdout nl;
    Stdout ("Your repository is fully configured." +:+ nl);
    Stdout ("Push to main or create a PR to trigger a deployment." +:+ nl) ].

(** Print a block of already formatted lines, one write each. *)
Definition emit_all (evs : list event) : M unit :=
  fun _ _ w => mkRes tt evs w.

Definition runSetup : M (option error) :=
  (* Validate all required variables are set *)
  or_return ValidateConfig (
  (* Check gcloud is installed and authenticated *)
  or_return checkGcloud (
  (* Check gh is installed and authenticated *)
  or_return checkGH (
  cfg <- loadConfig ;;
  emit_all (setup_header cfg) ;;
  or_return (run_steps setupSteps cfg) (
  emit_all setup_footer ;;
  ret None)))).

(** ** The init command (cmd/init.go) *)

(** *** File system primitives

    A path may fail to resolve or to open (a missing file, a file the
    process may not read or write, a directory in which it may not
    create files), and a write may fail after the file was opened, with
    part of the data written. *)

(** The first [n] bytes of [s]. *)
Definition first_bytes (n : nat) (s : string) : string := String.substring 0 n s.

Definition set_file (w : World) (path : string) (f : file) : World :=
  mkWorld (stdin w) (<[path := f]> (files w)).

(** [os.Stat(path)]: the error is nil exactly when the path exists. *)
Definition Stat (path : string) : M (option error) := fun _ _ w =>
  match files w !! path with
  | Some _ => mkRes None [] w
  | None =>
      mkRes (Some (RunError ("stat " +:+ path +:+ ": no such file or directory"))) [] w
  end.

(** [os.ReadFile(path)]: the contents, or [None] for a non-nil error. *)
Definition ReadFile (path : string) : M (option string) := fun _ _ w =>
  match files w !! path with
  | Some f => mkRes (if readable f then Some (data f) else None) [] w
  | None => mkRes None [] w
  end.

(** [os.WriteFile(path, content, 0644)]: opens the file with
    [O_WRONLY|O_CREATE|O_TRUNC], which empties an existing file it may
    write and creates a missing one with owner read and write access,
    then writes and closes it. An error of the write or of the close is
    returned with the file left as far as it was written. At a path
    where no file exists [creatable] says that the whole call succeeds;
    when it does not, [writeFault] tells a failure after the file was
    created from a failure to create it. *)
Definition WriteFile (path content : string) : M (option error) := fun env _ w =>
  match files w !! path with
  | Some f =>
      if writable f then
        match writeFault env path content with
        | None =>
            mkRes None [] (set_file w path (File content (readable f) (writable f)))
        | Some (n, msg) =>
            mkRes (Some (RunError msg)) []
              (set_file w path (File (first_bytes n content) (readable f) (writable f)))
        end
      else mkRes (Some (RunError ("open " +:+ path +:+ ": permission denied"))) [] w
  | None =>
      if creatable env path
      then mkRes None [] (set_file w path (File content true true))
      else
        match writeFault env path content with
        | Some (n, msg) =>
            mkRes (Some (RunError msg)) []
              (set_file w path (File (first_bytes n content) true true))
        | None =>
            mkRes (Some (RunError ("open " +:+ path +:+ ": permission denied"))) [] w
        end
  end.

(** [os.OpenFile(path, os.O_APPEND|os.O_WRONLY, 0644)]: no [O_CREATE],
    so the file has to exist and be writable. *)
Definition OpenFile_append (path : string) : M (option error) := fun _ _ w =>
  match files w !! path with
  | Some f =>
      if writable f then mkRes None [] w
      else mkRes (Some (RunError ("open " +:+ path +:+ ": permission denied"))) [] w
  | None =>
      mkRes (Some (RunError ("open " +:+ path +:+ ": no such file or directory"))) [] w
  end.

(** [f.WriteString(s)] on a file opened with [O_APPEND]: the bytes go
    behind what the file holds; a failing write returns its error with
    the bytes written before it in the file. *)
Definition WriteString (path s : string) : M (option error) := fun env _ w =>
  match files w !! path with
  | Some f =>
      match writeFault env path s with
      | None =>
          mkRes None [] (set_file w path (File (data f +:+ s) (readable f) (writable f)))
      | Some (n, msg) =>
          mkRes (Some (RunError msg)) []
            (set_file w path
               (File (data f +:+ first_bytes n s) (readable f) (writable f)))
      end
  | None => mkRes None [] w
  end.

Definition MkdirAll (path : string) : M (option error) :=
  env <- ask ;; ret (RunError <$> mkdirAll env path).

(** [filepath.Join(dir, elem)] for a clean rooted [dir], as [os.Getwd]
    returns it, and a clean relative [elem]. *)
Definition filepath_Join (dir elem : string) : string :=
  if String.eqb dir "/" then dir +:+ elem else dir +:+ "/" +:+ elem.

(** *** The command *)

(** [writeFileIfNotExists] creates a file with the given content only if
    it does not already exist. *)
Definition writeFileIfNotExists (path content : string) : M (option error) :=
  err <- Stat path ;;
  match err with
  | None => ret (Some (Errorf ("file already exists: " +:+ path)))
  | Some _ => WriteFile path content
  end.

Definition entry : string :=
  nl +:+ "# GCloud setup" +:+ nl +:+ ".env.gcloud" +:+ nl.

(** [appendToGitignore] adds the .env.gcloud entry to .gitignore if not
    already present. *)
Definition appendToGitignore (path : string) : M (option error) :=
  (* Check if file exists and already contains entry *)
  r <- ReadFile path ;;
  match r with
  | Some data =>
      if contains data ".env.gcloud" then ret None
      else
        (* Append to existing file *)
        or_return (OpenFile_append path) (WriteString path entry)
  | None => WriteFile path entry
  end.

Definition check_mark : string := "✓".
Definition warning_sign : string := "⚠".

Definition workflowPath_of (cwd : string) : string :=
  filepath_Join (filepath_Join (filepath_Join cwd ".github") "workflows")
    "gcloud-deploy.yml".
Definition envPath_of (cwd : string) : string := filepath_Join cwd ".env.gcloud".
Definition gitignorePath_of (cwd : string) : string := filepath_Join cwd ".gitignore".

(** [runInit] creates the workflow file and environment template in the
    current directory. *)
Definition runInit : M (option error) :=
  env <- ask ;;
  match getwd env with
  | inr msg => ret (Some (Errorf_w "failed to get current directory: " (RunError msg)))
  | inl cwd =>
      (* Create .github/workflows directory *)
      let workflowDir := filepath_Join (filepath_Join cwd ".github") "workflows" in
      or_return_w "failed to create .github/workflows directory: "
        (MkdirAll workflowDir) (
      (* Write gcloud-deploy.yml *)
      let workflowPath := filepath_Join workflowDir "gcloud-deploy.yml" in
      or_return (writeFileIfNotExists workflowPath (DeployWorkflow env)) (
      Println (check_mark +:+ " Created " +:+ workflowPath) ;;
      (* Write .env.gcloud *)
      let envPath := filepath_Join cwd ".env.gcloud" in
      or_return (writeFileIfNotExists envPath (EnvTemplate env)) (
      Println (check_mark +:+ " Created " +:+ envPath) ;;
      (* Add .env.gcloud to .gitignore if exists *)
      let gitignorePath := filepath_Join cwd ".gitignore" in
      err <- appendToGitignore gitignorePath ;;
      match err with
      | Some e =>
          Println (warning_sign +:+ " Could not update .gitignore: " +:+ Error e)
      | None => Println (check_mark +:+ " Updated .gitignore")
      end ;;
      Println EmptyString ;;
      Println "Next steps:" ;;
      Println "  1. Edit .env.gcloud with your project values" ;;
      Println "  2. Run: gc setup" ;;
      ret None)))
  end.

(** ** Interactive prompts *)

(** The bytes of [s] up to and including the first line feed, and the
    bytes behind it; all of [s] when it holds no line feed. *)
Fixpoint cut_line (s : string) : string * string :=
  match s with
  | EmptyString => (EmptyString, EmptyString)
  | String c s' =>
      if Ascii.eqb c "010"%char then (String c EmptyString, s')
      else (String c (cut_line s').1, (cut_line s').2)
  end.

Fixpoint holds_line (s : string) : bool :=
  match s with
  | EmptyString => false
  | String c s' => Ascii.eqb c "010"%char || holds_line s'
  end.

(** [s] without its first [n] bytes. *)
Fixpoint drop_bytes (n : nat) (s : string) : string :=
  match n, s with
  | S n', String _ s' => drop_bytes n' s'
  | _, _ => s
  end.

(** The size of the buffer of [bufio.NewReader]. *)
Definition defaultBufSize : nat := 4096.

(** [bufio.NewReader(os.Stdin)]: a reader that has read nothing yet. *)
Definition NewReader : string := EmptyString.

(** [reader.ReadString('\n')] with the error dropped, on a
    [bufio.Reader] over standard input that holds the bytes [buf] it
    read earlier and has not returned yet. The result is the line up to
    and including the line feed, or what is left at end of input, and
    the bytes the reader holds afterwards. A line that is in the buffer
    is returned from there. Otherwise the reader reads standard input
    until a line feed has come, by the buffer-full: it takes in the line
    and with it the bytes that were at hand behind it, fewer than a
    buffer holds. *)
Definition Reader_ReadString (buf : string) : M (string * string) := fun env h w =>
  if holds_line buf then mkRes (cut_line buf) [] w
  else
    let line := (cut_line (stdin w)).1 in
    let rest := (cut_line (stdin w)).2 in
    let ahead := Nat.min (defaultBufSize - 1) (readAhead env h rest) in
    mkRes (buf +:+ line, first_bytes ahead rest) []
          (mkWorld (drop_bytes ahead rest) (files w)).

(** [bufio.NewReader(os.Stdin).ReadString('\n')]: a reader made for one
    call. What it has read ahead is lost with it. *)
Definition ReadString : M string :=
  r <- Reader_ReadString NewReader ;;
  ret r.1.

Definition trimSpace (s : string) : M string :=
  env <- ask ;; ret (TrimSpace env s).

Definition promptProject (label defaultVal : string) : M string :=
  nonInteractive <- flag projectNonInteractive ;;
  if nonInteractive then ret defaultVal
  else
    Print (label +:+ " (default: " +:+ defaultVal +:+ "): ") ;;
    input <- ReadString ;;
    input <- trimSpace input ;;
    if String.eqb input EmptyString then ret defaultVal
    else ret input.

Definition promptLB (label defaultVal : string) : M string :=
  nonInteractive <- flag lbNonInteractive ;;
  if nonInteractive then ret defaultVal
  else
    Print (label +:+ " (default: " +:+ defaultVal +:+ "): ") ;;
    input <- ReadString ;;
    input <- trimSpace input ;;
    if String.eqb input EmptyString then ret defaultVal
    else ret input.

(** ** The project create command (cmd/setup.go, second file) *)

Module ProjectConfig.
Record t : Type := mk {
  ProjectID : string;
  ProjectNumber : string;
  ProjectName : string;
  ServiceAccountName : string;
  ServiceAccountEmail : string;
  ArtifactRegistryName : string;
  ArtifactRegistryLocation : string;
  WorkloadIdentityProvider : string;
  ArtifactRegistryURL : string
}.
(** [ProjectConfig{}] *)
Definition zero : t :=
  mk EmptyString EmptyString EmptyString EmptyString EmptyString
     EmptyString EmptyString EmptyString EmptyString.
End ProjectConfig.

Definition randomSuffix : M string :=
  env <- ask ;; ret (pretty (randIntn env)).

(** The five assignments made to [cfg] by either branch of
    [runProjectCreate]. *)
Definition set_project_answers (cfg : ProjectConfig.t)
    (name id sa ar loc : string) : ProjectConfig.t :=
  {| ProjectConfig.ProjectID := id;
     ProjectConfig.ProjectNumber := ProjectConfig.ProjectNumber cfg;
     ProjectConfig.ProjectName := name;
     ProjectConfig.ServiceAccountName := sa;
     ProjectConfig.ServiceAccountEmail := ProjectConfig.ServiceAccountEmail cfg;
     ProjectConfig.ArtifactRegistryName := ar;
     ProjectConfig.ArtifactRegistryLocation := loc;
     ProjectConfig.WorkloadIdentityProvider := ProjectConfig.WorkloadIdentityProvider cfg;
     ProjectConfig.ArtifactRegistryURL := ProjectConfig.ArtifactRegistryURL cfg |}.

(** [interactiveProjectConfig(cfg *ProjectConfig)]: the updated struct is
    returned next to the (always nil) error. *)
Definition interactiveProjectConfig (cfg : ProjectConfig.t)
    : M (ProjectConfig.t * option error) :=
  name <- promptProject "Project Name" "my-project" ;;
  suffix <- randomSuffix ;;
  id <- promptProject "Project ID (must be globally unique)" ("my-project-" +:+ suffix) ;;
  Println EmptyString ;;
  sa <- promptProject "Service Account Name" "github-actions" ;;
  ar <- promptProject "Artifact Registry Name" "docker" ;;
  loc <- promptProject "Artifact Registry Location (e.g., us-central1)" "us-central1" ;;
  ret (set_project_answers cfg name id sa ar loc, None).

Definition createGCPProject (cfg : ProjectConfig.t) : M (option error) :=
  dry <- flag projectDryRun ;;
  if dry then
    Print ("  [dry-run] gcloud projects create " +:+ ProjectConfig.ProjectID cfg
           +:+ " --name=" +:+ dq +:+ ProjectConfig.ProjectName cfg +:+ dq +:+ nl) ;;
    ret None
  else
    Print ("  Creating project '" +:+ ProjectConfig.ProjectID cfg +:+ "'..." +:+ nl) ;;
    or_return_w "failed to create project: "
      (Command_Run "gcloud"
         [ "projects"; "create"; ProjectConfig.ProjectID cfg;
           "--name=" +:+ ProjectConfig.ProjectName cfg ]) (
    Print ("  " +:+ check_mark +:+ " Project '" +:+ ProjectConfig.ProjectID cfg
           +:+ "' created" +:+ nl) ;;
    ret None).

Definition project_apis : list string :=
  [ "cloudresourcemanager.googleapis.com"; "serviceusage.googleapis.com";
    "iam.googleapis.com"; "artifactregistry.googleapis.com";
    "iamcredentials.googleapis.com"; "cloudkms.googleapis.com" ].

Definition enableProjectAPIs (cfg : ProjectConfig.t) : M (option error) :=
  dry <- flag projectDryRun ;;
  if dry then
    or_return
      (for_range project_apis (fun api =>
         Print ("  [dry-run] gcloud services enable " +:+ api +:+ " --project="
                +:+ ProjectConfig.ProjectID cfg +:+ nl) ;;
         ret None))
      (ret None)
  else
    Print ("  Enabling APIs for project '" +:+ ProjectConfig.ProjectID cfg
           +:+ "'..." +:+ nl) ;;
    or_return
      (for_range project_apis (fun api =>
         Print ("    Enabling " +:+ api +:+ nl) ;;
         let args := ["services"; "enable"; api;
                      "--project=" +:+ ProjectConfig.ProjectID cfg] in
         or_return_w ("failed to enable API " +:+ api +:+ ": ")
           (Command_Run "gcloud" args) (ret None))) (
    Print ("  " +:+ check_mark +:+ " APIs enabled" +:+ nl) ;;
    ret None).

Definition createProjectServiceAccount (cfg : ProjectConfig.t) : M (option error) :=
  let ServiceAccountEmail :=
    ProjectConfig.ServiceAccountName cfg +:+ "@" +:+ ProjectConfig.ProjectID cfg
    +:+ ".iam.gserviceaccount.com" in
  dry <- flag projectDryRun ;;
  if dry then
    Print ("  [dry-run] gcloud iam service-accounts create "
           +:+ ProjectConfig.ServiceAccountName cfg
           +:+ " --project=" +:+ ProjectConfig.ProjectID cfg +:+ nl) ;;
    ret None
  else
    Print ("  Creating service account '" +:+ ProjectConfig.ServiceAccountName cfg
           +:+ "'..." +:+ nl) ;;
    or_return_w "failed to create service account: "
      (Command_Run "gcloud"
         [ "iam"; "service-accounts"; "create";
           ProjectConfig.ServiceAccountName cfg;
           "--project=" +:+ ProjectConfig.ProjectID cfg ]) (
    Print ("  " +:+ check_mark +:+ " Service account created: "
           +:+ ServiceAccountEmail +:+ nl) ;;
    ret None).

Definition setupProjectWorkloadIdentity (cfg : ProjectConfig.t) : M (option error) :=
  dry <- flag projectDryRun ;;
  if dry then
    Println "  [dry-run] Setting up Workload Identity Federation" ;;
    Print ("  [dry-run] gcloud iam workload-identity-pools create "
           +:+ "github-pool --project=" +:+ ProjectConfig.ProjectID cfg
           +:+ " --location=global" +:+ nl) ;;
    Println "  [dry-run] gcloud iam workload-identity-pools providers create-oidc github-provider ..." ;;
    ret None
  else
    Println "  Setting up Workload Identity Federation..." ;;
    Println "    Creating workload identity pool 'github-pool'" ;;
    or_return_w "failed to create workload identity pool: "
      (Command_Run "gcloud"
         [ "iam"; "workload-identity-pools"; "create"; "github-pool";
           "--project=" +:+ ProjectConfig.ProjectID cfg; "--location=global";
           "--display-name=GitHub" ]) (
    Println "    Creating OIDC provider 'github-provider'" ;;
    or_return_w "failed to create OIDC provider: "
      (Command_Run "gcloud"
         [ "iam"; "workload-identity-pools"; "providers"; "create-oidc";
           "github-provider";
           "--project=" +:+ ProjectConfig.ProjectID cfg;
           "--location=global";
           "--workload-identity-pool=github-pool";
           "--display-name=GitHub";
           "--attribute-mapping=google.subject=assertion.sub,assertion.aud=assertion.aud";
           "--issuer-uri=https://token.actions.githubusercontent.com" ]) (
    Println ("  " +:+ check_mark +:+ " Workload Identity Federation configured") ;;
    ret None)).

Definition createProjectArtifactRegistry (cfg : ProjectConfig.t) : M (option error) :=
  let ArtifactRegistryURL :=
    ProjectConfig.ArtifactRegistryLocation cfg +:+ "-docker.pkg.dev/"
    +:+ ProjectConfig.ProjectID cfg +:+ "/" +:+ ProjectConfig.ArtifactRegistryName cfg in
  dry <- flag projectDryRun ;;
  if dry then
    Print ("  [dry-run] gcloud artifacts repositories create "
           +:+ ProjectConfig.ArtifactRegistryName cfg
           +:+ " --repository-format=docker --location="
           +:+ ProjectConfig.ArtifactRegistryLocation cfg
           +:+ " --project=" +:+ ProjectConfig.ProjectID cfg +:+ nl) ;;
    ret None
  else
    Print ("  Creating artifact registry '" +:+ ProjectConfig.ArtifactRegistryName cfg
           +:+ "'..." +:+ nl) ;;
    or_return_w "failed to create artifact registry: "
      (Command_Run "gcloud"
         [ "artifacts"; "repositories"; "create";
           ProjectConfig.ArtifactRegistryName cfg;
           "--repository-format=docker";
           "--location=" +:+ ProjectConfig.ArtifactRegistryLocation cfg;
           "--project=" +:+ ProjectConfig.ProjectID cfg ]) (
    Print ("  " +:+ check_mark +:+ " Artifact registry created: "
           +:+ ArtifactRegistryURL +:+ nl) ;;
    ret None).

Definition projectSteps : list (string * (ProjectConfig.t -> M (option error))) :=
  [ ("Creating GCP Project", createGCPProject);
    ("Enabling APIs", enableProjectAPIs);
    ("Creating Service Account", createProjectServiceAccount);
    ("Setting up Workload Identity Federation", setupProjectWorkloadIdentity);
    ("Creating Artifact Registry", createProjectArtifactRegistry) ].

Definition rule : string := "==============================================".

(** [promptConfirm] is defined in a file of the package that is not part
    of the sources at hand; the commands take it as a parameter. *)
Definition runProjectCreate (promptConfirm : string -> M bool) : M (option error) :=
  or_return checkGcloud (
  Println EmptyString ;;
  Println rule ;;
  Println "  GCP Project Creation" ;;
  Println rule ;;
  Println EmptyString ;;
  let cfg := ProjectConfig.zero in
  nonInteractive <- flag projectNonInteractive ;;
  r <- (if negb nonInteractive then interactiveProjectConfig cfg
        else
          name <- promptProject "Project Name" "my-project" ;;
          id <- promptProject "Project ID" "my-project" ;;
          sa <- promptProject "Service Account Name" "github-actions" ;;
          ar <- promptProject "Artifact Registry Name" "docker" ;;
          loc <- promptProject "Artifact Registry Location" "us-central1" ;;
          ret (set_project_answers cfg name id sa ar loc, None)) ;;
  match r.2 with
  | Some e => ret (Some e)
  | None =>
      let cfg := r.1 in
      Println EmptyString ;;
      Println rule ;;
      Println "  Project Configuration Summary" ;;
      Println rule ;;
      Print ("  Project Name:         " +:+ ProjectConfig.ProjectName cfg +:+ nl) ;;
      Print ("  Project ID:           " +:+ ProjectConfig.ProjectID cfg +:+ nl) ;;
      Print ("  Service Account:      " +:+ ProjectConfig.ServiceAccountName cfg +:+ nl) ;;
      Print ("  Artifact Registry:    " +:+ ProjectConfig.ArtifactRegistryName cfg
             +:+ " (" +:+ ProjectConfig.ArtifactRegistryLocation cfg +:+ ")" +:+ nl) ;;
      Println rule ;;
      Println EmptyString ;;
      proceed <- (if negb nonInteractive then
                    ok <- promptConfirm "Proceed with project creation?" ;;
                    if negb ok then
                      Println "Project creation cancelled." ;; ret false
                    else Println EmptyString ;; ret true
                  else ret true) ;;
      if negb proceed then ret None
      else
        or_return (run_steps projectSteps cfg) (
        Println rule ;;
        Println "  Project Creation Complete!" ;;
        Println rule ;;
        Println EmptyString ;;
        Print ("Project ID: " +:+ ProjectConfig.ProjectID cfg +:+ nl) ;;
        Println "Next steps:" ;;
        Println "  1. Save the project ID for later use" ;;
        Println "  2. Run: gcsetup service setup" ;;
        Println "     (with your GitHub org/repo and cloud run service details)" ;;
        ret None)
  end).

(** ** The load-balancer setup command *)

Module LoadBalancerService.
Record t : Type := mk {
  Name : string;
  Protocol : string;
  Port : Z;
  Path : string;
  HealthCheck : string
}.
End LoadBalancerService.

Module LoadBalancerConfig.
Record t : Type := mk {
  ProjectID : string;
  ProjectNumber : string;
  LBName : string;
  Region : string;
  Network : string;
  Subnet : string;
  Services : list LoadBalancerService.t;
  HealthCheckPort : Z;
  UseSSL : bool;
  SSLCertificate : string
}.
End LoadBalancerConfig.

(** [fmt.Sscanf(input, "%d", &x)] with the fallback of the callers:
    [x] keeps the parsed number, or becomes [dflt] when parsing fails. *)
Definition scan_int_or (dflt : Z) (input : string) : M Z :=
  env <- ask ;;
  ret (match Sscanf_d env input with Some n => n | None => dflt end).

(** The body of the service loop of [interactiveLBConfig], for the
    indices [idxs]; [services] is [cfg.Services] so far and [reader] what
    the reader of [interactiveLBConfig] holds. *)
Fixpoint read_services (idxs : list nat) (services : list LoadBalancerService.t)
    (reader : string) : M (list LoadBalancerService.t) :=
  match idxs with
  | [] => ret services
  | i :: idxs' =>
      Print ("Service " +:+ pretty (S i) +:+ ":" +:+ nl) ;;
      name <- promptLB "  Service name" ("service-" +:+ pretty (S i)) ;;
      protocol <- promptLB "  Protocol (HTTP/HTTPS)" "HTTP" ;;
      Print "  Port (default 8080): " ;;
      read <- Reader_ReadString reader ;;
      input <- trimSpace read.1 ;;
      port <- (if negb (String.eqb input EmptyString)
               then scan_int_or 8080 input else ret 8080%Z) ;;
      path <- promptLB "  URL Path (e.g., /api/*)" ("/" +:+ name +:+ "/*") ;;
      let service :=
        {| LoadBalancerService.Name := name;
           LoadBalancerService.Protocol := protocol;
           LoadBalancerService.Port := port;
           LoadBalancerService.Path := path;
           LoadBalancerService.HealthCheck := name +:+ "-hc" |} in
      Println EmptyString ;;
      read_services idxs' (services ++ [service]) read.2
  end.

(** [interactiveLBConfig(cfg *LoadBalancerConfig)]: the updated struct is
    returned next to the (always nil) error. The function makes one
    [bufio.Reader], [reader], for the lines it reads itself; nothing is
    read before the first use. That reader keeps what it has read ahead
    from one of its reads to the next, while every call of [promptLB] in
    between reads with a reader of its own. *)
Definition interactiveLBConfig (cfg : LoadBalancerConfig.t)
    : M (LoadBalancerConfig.t * option error) :=
  lbName <- promptLB "Load Balancer Name" "gcloud-lb" ;;
  network <- promptLB "Network" "default" ;;
  subnet <- promptLB "Subnet (leave empty for auto)" EmptyString ;;
  Println EmptyString ;;
  Print "Health Check Port (default 8080): " ;;
  read1 <- Reader_ReadString NewReader ;;
  input <- trimSpace read1.1 ;;
  healthCheckPort <- (if String.eqb input EmptyString then ret 8080%Z
                      else scan_int_or 8080 input) ;;
  Println EmptyString ;;
  Print "Use SSL/TLS? (y/n, default: n): " ;;
  read2 <- Reader_ReadString read1.2 ;;
  env <- ask ;;
  let useSSL := String.eqb (ToLower env (TrimSpace env read2.1)) "y" in
  ssl <- (if useSSL then
            cert <- promptLB "SSL Certificate Name" EmptyString ;;
            if String.eqb cert EmptyString then
              Println (warning_sign +:+ " SSL certificate name is required for HTTPS. Using HTTP instead.") ;;
              ret (false, cert)
            else ret (true, cert)
          else ret (false, LoadBalancerConfig.SSLCertificate cfg)) ;;
  Println EmptyString ;;
  Println "Configure backend services:" ;;
  Print "How many services? (default: 1): " ;;
  read3 <- Reader_ReadString read2.2 ;;
  input <- trimSpace read3.1 ;;
  numServices <- (if negb (String.eqb input EmptyString)
                  then scan_int_or 1 input else ret 1%Z) ;;
  Println EmptyString ;;
  services <- read_services (seq 0 (Z.to_nat numServices))
                (LoadBalancerConfig.Services cfg) read3.2 ;;
  ret ({| LoadBalancerConfig.ProjectID := LoadBalancerConfig.ProjectID cfg;
          LoadBalancerConfig.ProjectNumber := LoadBalancerConfig.ProjectNumber cfg;
          LoadBalancerConfig.LBName := lbName;
          LoadBalancerConfig.Region := LoadBalancerConfig.Region cfg;
          LoadBalancerConfig.Network := network;
          LoadBalancerConfig.Subnet := subnet;
          LoadBalancerConfig.Services := services;
          LoadBalancerConfig.HealthCheckPort := healthCheckPort;
          LoadBalancerConfig.UseSSL := ssl.1;
          LoadBalancerConfig.SSLCertificate := ssl.2 |}, None).

Definition createHealthChecks (cfg : LoadBalancerConfig.t) : M (option error) :=
  or_return
    (for_range (LoadBalancerConfig.Services cfg) (fun service =>
       dry <- flag lbDryRun ;;
       if dry then
         let cmd :=
           "gcloud compute health-checks create http " +:+ dq
           +:+ LoadBalancerService.HealthCheck service +:+ dq +:+ " \" +:+ nl
           +:+ "  --global \" +:+ nl
           +:+ "  --port=" +:+ pretty (LoadBalancerConfig.HealthCheckPort cfg)
           +:+ " \" +:+ nl
           +:+ "  --request-path=" +:+ dq +:+ "/healthz" +:+ dq +:+ " \" +:+ nl
           +:+ "  --project=" +:+ dq +:+ LoadBalancerConfig.ProjectID cfg +:+ dq in
         Println cmd ;;
         ret None
       else
         err <- Command_Run "gcloud"
                  [ "compute"; "health-checks"; "describe";
                    LoadBalancerService.HealthCheck service; "--global";
                    "--project"; LoadBalancerConfig.ProjectID cfg ] ;;
         match err with
         | None =>
             Print ("  " +:+ check_mark +:+ " Health check '"
                    +:+ LoadBalancerService.HealthCheck service
                    +:+ "' already exists" +:+ nl) ;;
             ret None
         | Some _ =>
             Print ("  Creating health check '"
                    +:+ LoadBalancerService.HealthCheck service +:+ "'..." +:+ nl) ;;
             let parts :=
               [ "compute"; "health-checks"; "create"; "http";
                 LoadBalancerService.HealthCheck service;
                 "--global";
                 "--port=" +:+ pretty (LoadBalancerConfig.HealthCheckPort cfg);
                 "--request-path=/healthz";
                 "--project=" +:+ LoadBalancerConfig.ProjectID cfg ] in
             or_return_w "failed to create health check: "
               (Command_Run "gcloud" parts) (
             Print ("  " +:+ check_mark +:+ " Health check '"
                    +:+ LoadBalancerService.HealthCheck service
                    +:+ "' created" +:+ nl) ;;
             ret None)
         end))
    (ret None).

(** The assignments [cfg.Services[i].HealthCheck = backendName] write to
    the backing array of the slice; nothing reads that field afterwards
    (the loop variable [service] is a copy taken before the write, and the
    later steps use [Name] and [Path] only), so they leave no trace in the
    model. *)
Definition createBackendServices (cfg : LoadBalancerConfig.t) : M (option error) :=
  or_return
    (for_range (LoadBalancerConfig.Services cfg) (fun service =>
       let backendName := LoadBalancerService.Name service +:+ "-backend" in
       let protocol :=
         if String.eqb (LoadBalancerService.Protocol service) "HTTPS"
         then "HTTPS" else "HTTP" in
       dry <- flag lbDryRun ;;
       if dry then
         Print ("  [dry-run] Creating backend service '" +:+ backendName +:+ "'" +:+ nl) ;;
         ret None
       else
         err <- Command_Run "gcloud"
                  [ "compute"; "backend-services"; "describe"; backendName;
                    "--global"; "--project"; LoadBalancerConfig.ProjectID cfg ] ;;
         match err with
         | None =>
             Print ("  " +:+ check_mark +:+ " Backend service '" +:+ backendName
                    +:+ "' already exists" +:+ nl) ;;
             ret None
         | Some _ =>
             Print ("  Creating backend service '" +:+ backendName +:+ "'..." +:+ nl) ;;
             let parts :=
               [ "compute"; "backend-services"; "create"; backendName;
                 "--global";
                 "--protocol=" +:+ protocol;
                 "--port-name=http";
                 "--health-checks=" +:+ LoadBalancerService.HealthCheck service;
                 "--load-balancing-scheme=EXTERNAL";
                 "--enable-cdn";
                 "--project=" +:+ LoadBalancerConfig.ProjectID cfg ] in
             or_return_w "failed to create backend service: "
               (Command_Run "gcloud" parts) (
             Print ("  " +:+ check_mark +:+ " Backend service '" +:+ backendName
                    +:+ "' created" +:+ nl) ;;
             ret None)
         end))
    (ret None).

(** [cfg.Services[0]] panics on an empty slice. A panic ends the
    program: the embedding records the event [Panic] and leaves through
    the error path, so that nothing else is run after it; [Execute] ends
    such a run with status 2 and looks at no returned value. *)
Definition createURLMap (cfg : LoadBalancerConfig.t) : M (option error) :=
  let urlMapName := LoadBalancerConfig.LBName cfg +:+ "-url-map" in
  dry <- flag lbDryRun ;;
  if dry then
    Print ("  [dry-run] Creating URL map '" +:+ urlMapName +:+ "'" +:+ nl) ;;
    ret None
  else
    err <- Command_Run "gcloud"
             [ "compute"; "url-maps"; "describe"; urlMapName;
               "--project"; LoadBalancerConfig.ProjectID cfg ] ;;
    match err with
    | None =>
        Print ("  " +:+ check_mark +:+ " URL map '" +:+ urlMapName
               +:+ "' already exists" +:+ nl) ;;
        ret None
    | Some _ =>
        match LoadBalancerConfig.Services cfg with
        | [] =>
            emit (Panic "runtime error: index out of range [0] with length 0") ;;
            ret (Some (RunError "panic"))
        | service0 :: _ =>
            let defaultBackend := LoadBalancerService.Name service0 +:+ "-backend" in
            Print ("  Creating URL map '" +:+ urlMapName +:+ "'..." +:+ nl) ;;
            let parts :=
              [ "compute"; "url-maps"; "create"; urlMapName;
                "--default-service=" +:+ defaultBackend;
                "--project=" +:+ LoadBalancerConfig.ProjectID cfg ] in
            or_return_w "failed to create URL map: " (Command_Run "gcloud" parts) (
            (* Add path rules for each service *)
            or_return
              (for_range (LoadBalancerConfig.Services cfg) (fun service =>
                 let backendName := LoadBalancerService.Name service +:+ "-backend" in
                 let parts :=
                   [ "compute"; "url-maps"; "add-path-rule"; urlMapName;
                     "--service=" +:+ backendName;
                     "--path-pattern=" +:+ LoadBalancerService.Path service;
                     "--project=" +:+ LoadBalancerConfig.ProjectID cfg ] in
                 Print ("  Adding path rule '" +:+ LoadBalancerService.Path service
                        +:+ "' -> " +:+ backendName +:+ nl) ;;
                 err <- Command_Run "gcloud" parts ;;
                 match err with
                 | Some e =>
                     Print ("  " +:+ warning_sign
                            +:+ " Could not add path rule (may already exist): "
                            +:+ Error e +:+ nl) ;;
                     ret None
                 | None => ret None
                 end)) (
            Print ("  " +:+ check_mark +:+ " URL map '" +:+ urlMapName
                   +:+ "' created" +:+ nl) ;;
            ret None))
        end
    end.

Definition createHTTPSProxy (cfg : LoadBalancerConfig.t) : M (option error) :=
  let proxyName := LoadBalancerConfig.LBName cfg +:+ "-proxy" in
  let urlMapName := LoadBalancerConfig.LBName cfg +:+ "-url-map" in
  dry <- flag lbDryRun ;;
  if dry then
    Print ("  [dry-run] Creating HTTP(S) proxy '" +:+ proxyName +:+ "'" +:+ nl) ;;
    ret None
  else
    let protocol := if LoadBalancerConfig.UseSSL cfg then "HTTPS" else "HTTP" in
    env <- ask ;;
    err <- Command_Run "gcloud"
             [ "compute"; ToLower env protocol +:+ "-proxies"; "describe";
               proxyName; "--global"; "--project"; LoadBalancerConfig.ProjectID cfg ] ;;
    match err with
    | None =>
        Print ("  " +:+ check_mark +:+ " " +:+ protocol +:+ " proxy '" +:+ proxyName
               +:+ "' already exists" +:+ nl) ;;
        ret None
    | Some _ =>
        Print ("  Creating " +:+ protocol +:+ " proxy '" +:+ proxyName +:+ "'..." +:+ nl) ;;
        or_return
          (if String.eqb protocol "HTTP" then
             let parts :=
               [ "compute"; "http-proxies"; "create"; proxyName;
                 "--url-map=" +:+ urlMapName;
                 "--project=" +:+ LoadBalancerConfig.ProjectID cfg ] in
             or_return_w "failed to create HTTP proxy: "
               (Command_Run "gcloud" parts) (ret None)
           else
             let parts :=
               [ "compute"; "https-proxies"; "create"; proxyName;
                 "--url-map=" +:+ urlMapName;
                 "--ssl-certificates=" +:+ LoadBalancerConfig.SSLCertificate cfg;
                 "--project=" +:+ LoadBalancerConfig.ProjectID cfg ] in
             or_return_w "failed to create HTTPS proxy: "
               (Command_Run "gcloud" parts) (ret None)) (
        Print ("  " +:+ check_mark +:+ " " +:+ protocol +:+ " proxy '" +:+ proxyName
               +:+ "' created" +:+ nl) ;;
        ret None)
    end.

Definition createForwardingRule (cfg : LoadBalancerConfig.t) : M (option error) :=
  let ruleName := LoadBalancerConfig.LBName cfg +:+ "-forwarding-rule" in
  let proxyName := LoadBalancerConfig.LBName cfg +:+ "-proxy" in
  let protocol := if LoadBalancerConfig.UseSSL cfg then "HTTPS" else "HTTP" in
  let port := if LoadBalancerConfig.UseSSL cfg then 443%Z else 80%Z in
  dry <- flag lbDryRun ;;
  if dry then
    Print ("  [dry-run] Creating forwarding rule '" +:+ ruleName +:+ "'" +:+ nl) ;;
    ret None
  else
    err <- Command_Run "gcloud"
             [ "compute"; "forwarding-rules"; "describe"; ruleName; "--global";
               "--project"; LoadBalancerConfig.ProjectID cfg ] ;;
    match err with
    | None =>
        Print ("  " +:+ check_mark +:+ " Forwarding rule '" +:+ ruleName
               +:+ "' already exists" +:+ nl) ;;
        ret None
    | Some _ =>
        Print ("  Creating forwarding rule '" +:+ ruleName +:+ "'..." +:+ nl) ;;
        env <- ask ;;
        let parts :=
          [ "compute"; "forwarding-rules"; "create"; ruleName;
            "--global";
            "--target-" +:+ ToLower env protocol +:+ "-proxy=" +:+ proxyName;
            "--address=" +:+ LoadBalancerConfig.LBName cfg +:+ "-ip";
            "--ports=" +:+ pretty port;
            "--project=" +:+ LoadBalancerConfig.ProjectID cfg ] in
        or_return_w "failed to create forwarding rule: "
          (Command_Run "gcloud" parts) (
        Print ("  " +:+ check_mark +:+ " Forwarding rule '" +:+ ruleName
               +:+ "' created" +:+ nl) ;;
        ret None)
    end.

Definition lbSteps : list (string * (LoadBalancerConfig.t -> M (option error))) :=
  [ ("Creating Health Checks", createHealthChecks);
    ("Creating Backend Services", createBackendServices);
    ("Creating URL Map", createURLMap);
    ("Creating HTTP(S) Proxy", createHTTPSProxy);
    ("Creating Forwarding Rule", createForwardingRule) ].

(** The summary lines printed for the services, [i] being the index of
    the first one. *)
Fixpoint service_summary (i : nat) (services : list LoadBalancerService.t)
    : list event :=
  match services with
  | [] => []
  | svc :: rest =>
      Stdout ("  Service " +:+ pretty (S i) +:+ ": "
              +:+ LoadBalancerService.Name svc +:+ nl)
      :: Stdout ("    Protocol: " +:+ LoadBalancerService.Protocol svc
                 +:+ ", Port: " +:+ pretty (LoadBalancerService.Port svc)
                 +:+ ", Path: " +:+ LoadBalancerService.Path svc +:+ nl)
      :: service_summary (S i) rest
  end.

Definition runLoadBalancer (promptConfirm : string -> M bool) : M (option error) :=
  or_return checkGcloud (
  Println EmptyString ;;
  Println rule ;;
  Println "  Load Balancer Configuration" ;;
  Println rule ;;
  Println EmptyString ;;
  projectID <- GetString "GCP_PROJECT_ID" ;;
  projectNumber <- GetString "GCP_PROJECT_NUMBER" ;;
  region <- GetString "CLOUD_RUN_REGION" ;;
  let cfg :=
    {| LoadBalancerConfig.ProjectID := projectID;
       LoadBalancerConfig.ProjectNumber := projectNumber;
       LoadBalancerConfig.LBName := EmptyString;
       LoadBalancerConfig.Region := region;
       LoadBalancerConfig.Network := EmptyString;
       LoadBalancerConfig.Subnet := EmptyString;
       LoadBalancerConfig.Services := [];
       LoadBalancerConfig.HealthCheckPort := 0;
       LoadBalancerConfig.UseSSL := false;
       LoadBalancerConfig.SSLCertificate := EmptyString |} in
  if String.eqb (LoadBalancerConfig.ProjectID cfg) EmptyString
  then ret (Some (Errorf "GCP_PROJECT_ID is required"))
  else
  nonInteractive <- flag lbNonInteractive ;;
  r <- (if negb nonInteractive then interactiveLBConfig cfg
        else
          lbName <- promptLB "Load Balancer Name" "gcloud-lb" ;;
          network <- promptLB "Network" "default" ;;
          subnet <- promptLB "Subnet (leave empty for auto)" EmptyString ;;
          ret ({| LoadBalancerConfig.ProjectID := LoadBalancerConfig.ProjectID cfg;
                  LoadBalancerConfig.ProjectNumber := LoadBalancerConfig.ProjectNumber cfg;
                  LoadBalancerConfig.LBName := lbName;
                  LoadBalancerConfig.Region := LoadBalancerConfig.Region cfg;
                  LoadBalancerConfig.Network := network;
                  LoadBalancerConfig.Subnet := subnet;
                  LoadBalancerConfig.Services := LoadBalancerConfig.Services cfg;
                  LoadBalancerConfig.HealthCheckPort := 8080;
                  LoadBalancerConfig.UseSSL := false;
                  LoadBalancerConfig.SSLCertificate :=
                    LoadBalancerConfig.SSLCertificate cfg |}, None)) ;;
  match r.2 with
  | Some e => ret (Some e)
  | None =>
      let cfg := r.1 in
      Println EmptyString ;;
      Println rule ;;
      Println "  Load Balancer Configuration Summary" ;;
      Println rule ;;
      Print ("  Name:                 " +:+ LoadBalancerConfig.LBName cfg +:+ nl) ;;
      Print ("  Network:              " +:+ LoadBalancerConfig.Network cfg +:+ nl) ;;
      Print ("  Health Check Port:    "
             +:+ pretty (LoadBalancerConfig.HealthCheckPort cfg) +:+ nl) ;;
      Print ("  Use SSL:              "
             +:+ (if LoadBalancerConfig.UseSSL cfg then "true" else "false") +:+ nl) ;;
      Print ("  Number of Services:   "
             +:+ pretty (length (LoadBalancerConfig.Services cfg)) +:+ nl) ;;
      Println EmptyString ;;
      emit_all (service_summary 0 (LoadBalancerConfig.Services cfg)) ;;
      Println rule ;;
      Println EmptyString ;;
      proceed <- (if negb nonInteractive then
                    ok <- promptConfirm "Proceed with load balancer configuration?" ;;
                    if negb ok then
                      Println "Configuration cancelled." ;; ret false
                    else Println EmptyString ;; ret true
                  else ret true) ;;
      if negb proceed then ret None
      else
        or_return (run_steps lbSteps cfg) (
        Println rule ;;
        Println "  Load Balancer Configuration Complete!" ;;
        Println rule ;;
        Println EmptyString ;;
        Print ("Load Balancer Name: " +:+ LoadBalancerConfig.LBName cfg +:+ nl) ;;
        Println "Next steps:" ;;
        Println "  1. Get the load balancer IP:" ;;
        Print ("     gcloud compute forwarding-rules describe "
               +:+ LoadBalancerConfig.LBName cfg +:+ "-forwarding-rule"
               +:+ " --global" +:+ nl) ;;
        Println "  2. Create a DNS record pointing to the load balancer IP" ;;
        Println "  3. Test the configuration with curl" ;;
        ret None)
  end).

(** ** Observations on traces *)

(** An event that runs an external command runs [gcloud] or [gh]. *)
Definition gcloud_or_gh (e : event) : Prop :=
  match e with
  | Run name _ _ => name = "gcloud" \/ name = "gh"
  | _ => True
  end.

(** [prepend t r]: the result [r] of the rest of a run, seen from a point
    where [t] had not been emitted yet. *)
Definition prepend {A} (t : list event) (r : Res A) : Res A :=
  mkRes (val r) (t ++ out r) (world r).

(** The state of a run of a [total]-step loop when step [k] is about to
    start: [tr] is what the run has emitted so far, on top of the history
    [h]; the step sees its own banner as the latest output. *)
Definition start_step {C} (total k : nat) (name : string) (fn : C -> M (option error))
    (cfg : C) (env : Env) (h tr : list event) (w : World) : Res (option error) :=
  fn cfg env (h ++ tr ++ step_banner k total name) w.

(** What the run has emitted once that step has returned with [r]. *)
Definition after_step (total k : nat) (name : string) (tr : list event)
    (r : Res (option error)) : list event :=
  tr ++ step_banner k total name ++ out r.

(** The empty line printed after a step that succeeded. *)
Definition blank : list event := [Stdout nl].

(** [args] starts with the words [p]. *)
Fixpoint has_prefix (p args : list string) : bool :=
  match p, args with
  | [], _ => true
  | x :: p', y :: args' => String.eqb x y && has_prefix p' args'
  | _ :: _, [] => false
  end.

(** The sub-commands of [gcloud] that create a resource which may exist
    already: the service account, the workload identity pool, the OIDC
    provider and the artifact repository. *)
Definition idempotent_creates : list (list string) :=
  [ ["iam"; "service-accounts"; "create"];
    ["iam"; "workload-identity-pools"; "create"];
    ["iam"; "workload-identity-pools"; "providers"; "create-oidc"];
    ["artifacts"; "repositories"; "create"] ].

Definition is_idempotent_create (args : list string) : bool :=
  existsb (fun p => has_prefix p args) idempotent_creates.

(** The note printed when such a command fails. *)
Definition continue_note (what : string) : event :=
  Stdout (("  (" +:+ what +:+ " may already exist, continuing...)") +:+ nl).

Definition event_eqb (e1 e2 : event) : bool :=
  match e1, e2 with
  | Stdout s1, Stdout s2 => String.eqb s1 s2
  | _, _ => false
  end.

Definition is_continue_note (e : event) : bool :=
  existsb (fun what => event_eqb e (continue_note what))
    ["service account"; "pool"; "provider"; "repository"].

(** An executable check of a trace: a failed idempotent create is
    followed at once by a note, any other failed command is the last
    event. *)
Fixpoint failures_handled (tr : list event) : bool :=
  match tr with
  | [] => true
  | Run _ args (Some _) :: rest =>
      if is_idempotent_create args
      then match rest with
           | e :: _ => is_continue_note e && failures_handled rest
           | [] => false
           end
      else match rest with [] => true | _ :: _ => false end
  | _ :: rest => failures_handled rest
  end.

(** No command other than an idempotent create failed. *)
Definition no_fatal (tr : list event) : bool :=
  forallb (fun e => match e with
                    | Run _ args (Some _) => is_idempotent_create args
                    | _ => true
                    end) tr.

(** A computation deals with failing commands the way the sequencer
    does: it fails exactly when a command other than an idempotent create
    failed, right after that command. *)
Definition handles_failures (m : M (option error)) : Prop :=
  forall env h w,
    failures_handled (out (m env h w)) = true /\
    (val (m env h w) = None <-> no_fatal (out (m env h w)) = true).

(** ** Sample environments *)

(** [strings.TrimSpace] on ASCII input. *)
Fixpoint trim_left (s : string) : string :=
  match s with
  | EmptyString => EmptyString
  | String c s' => if Ascii.is_space c then trim_left s' else s
  end.

Definition ascii_TrimSpace (s : string) : string :=
  String.rev (trim_left (String.rev (trim_left s))).

Definition sample_vars : list (string * string) :=
  [ ("GCP_PROJECT_ID", "proj"); ("GCP_PROJECT_NUMBER", "42");
    ("GITHUB_ORGANIZATION", "org"); ("GITHUB_REPOSITORY", "repo");
    ("SERVICE_ACCOUNT_NAME", "ci"); ("ARTIFACT_REGISTRY_NAME", "images");
    ("ARTIFACT_REGISTRY_LOCATION", "europe-west1");
    ("CLOUD_RUN_SERVICE", "web"); ("CLOUD_RUN_REGION", "europe-west1") ].

Definition sample_viper (key : string) : string :=
  default EmptyString ((list_to_map sample_vars : gmap string string) !! key).

(** An environment with every required variable set and both binaries
    installed, at a terminal, with no configuration file and no failing
    write; the flags, the behaviour of the external commands and the map
    iteration order are left open. *)
Definition sample_env (dry nonInteractive : bool)
    (run : list event -> string -> list string -> option string)
    (order : gmap string string -> list (string * string)) : Env :=
  {| viper := sample_viper;
     dryRun := dry; projectDryRun := dry; projectNonInteractive := nonInteractive;
     lbDryRun := dry; lbNonInteractive := nonInteractive;
     lookPath := fun _ => true;
     runCmd := run;
     rangeOrder := order;
     randIntn := 4711;
     TrimSpace := ascii_TrimSpace;
     ToLower := fun s => s;
     Sscanf_d := fun _ => None;
     getwd := inl "/work";
     mkdirAll := fun _ => None;
     creatable := fun _ => true;
     writeFault := fun _ _ => None;
     readAhead := fun _ _ => 0%nat;
     configFileUsed := None;
     usageString := "Usage:" +:+ nl +:+ "  gcsetup [command]";
     DeployWorkflow := "name: deploy";
     EnvTemplate := "GCP_PROJECT_ID=" |}.

(** Every command succeeds. *)
Definition all_succeed : list event -> string -> list string -> option string :=
  fun _ _ _ => None.

(** The resources exist already: the idempotent creates fail, everything
    else succeeds. *)
Definition creates_fail : list event -> string -> list string -> option string :=
  fun _ _ args => if is_idempotent_create args then Some "exit status 1" else None.

(** Granting a role fails. *)
Definition grants_fail : list event -> string -> list string -> option string :=
  fun _ _ args => if has_prefix ["projects"] args then Some "exit status 1" else None.

(** Two iteration orders a Go runtime may pick. *)
Definition order_a (m : gmap string string) : list (string * string) := map_to_list m.
Definition order_b (m : gmap string string) : list (string * string) :=
  reverse (map_to_list m).

Definition empty_world : World := mkWorld EmptyString ∅.

(** A confirmation prompt that prints the question and reads one line. *)
Definition sample_promptConfirm (question : string) : M bool :=
  Print (question +:+ " (y/n): ") ;;
  answer <- ReadString ;;
  answer <- trimSpace answer ;;
  ret (String.eqb answer "y").

(** The same run under another map iteration order. *)
Definition with_order (env : Env)
    (order : gmap string string -> list (string * string)) : Env :=
  {| viper := viper env;
     dryRun := dryRun env; projectDryRun := projectDryRun env;
     projectNonInteractive := projectNonInteractive env;
     lbDryRun := lbDryRun env; lbNonInteractive := lbNonInteractive env;
     lookPath := lookPath env;
     runCmd := runCmd env;
     rangeOrder := order;
     randIntn := randIntn env;
     TrimSpace := TrimSpace env;
     ToLower := ToLower env;
     Sscanf_d := Sscanf_d env;
     getwd := getwd env;
     mkdirAll := mkdirAll env;
     creatable := creatable env;
     writeFault := writeFault env;
     readAhead := readAhead env;
     configFileUsed := configFileUsed env;
     usageString := usageString env;
     DeployWorkflow := DeployWorkflow env;
     EnvTemplate := EnvTemplate env |}.

(** The command line that sets one secret or variable, and the two lines
    a dry run prints instead. *)
Definition gh_set_command (kind repo : string) (kv : string * string)
    : string * list string :=
  ("gh", [kind; "set"; kv.1; "--repo"; repo; "--body"; kv.2]).

Definition gh_set_dry_lines (kind repo : string) (kv : string * string) : list event :=
  [ Stdout ("    " +:+ kv.1 +:+ nl);
    Stdout ("    [dry-run] gh " +:+ kind +:+ " set " +:+ kv.1 +:+ " --repo "
            +:+ repo +:+ nl) ].

Definition repo_of (cfg : Config) : string :=
  GitHubOrg cfg +:+ "/" +:+ GitHubRepo cfg.

(** The same run without [--dry-run], every command succeeding. *)
Definition for_real (env : Env) : Env :=
  {| viper := viper env;
     dryRun := false; projectDryRun := projectDryRun env;
     projectNonInteractive := projectNonInteractive env;
     lbDryRun := lbDryRun env; lbNonInteractive := lbNonInteractive env;
     lookPath := lookPath env;
     runCmd := fun _ _ _ => None;
     rangeOrder := rangeOrder env;
     randIntn := randIntn env;
     TrimSpace := TrimSpace env;
     ToLower := ToLower env;
     Sscanf_d := Sscanf_d env;
     getwd := getwd env;
     mkdirAll := mkdirAll env;
     creatable := creatable env;
     writeFault := writeFault env;
     readAhead := readAhead env;
     configFileUsed := configFileUsed env;
     usageString := usageString env;
     DeployWorkflow := DeployWorkflow env;
     EnvTemplate := EnvTemplate env |}.

(** The line a dry run of the setup command prints for a command: the
    command line behind the mark [dry-run], which for [gh] stops short
    of the flag [--body] and the value behind it, after five words. *)
Definition dry_run_line (name : string) (args : list string) : string :=
  if String.eqb name "gh"
  then "    [dry-run] gh " +:+ Join (take 5 args) " " +:+ nl
  else "  [dry-run] " +:+ name +:+ " " +:+ Join args " " +:+ nl.

(** An event of a run, as a dry run shows it: a command that is run
    becomes its line, everything else is printed as it is. *)
Definition in_dry_run (e : event) : event :=
  match e with
  | Run name args _ => Stdout (dry_run_line name args)
  | _ => e
  end.

(** In the dry run [env] a computation prints what it prints and returns
    what it returns in the run for real, with every command it runs
    there replaced by the line of that command. *)
Definition mirrors (env : Env) {A} (m : M A) : Prop :=
  forall h w h' w',
    out (m env h w) = in_dry_run <$> out (m (for_real env) h' w') /\
    val (m env h w) = val (m (for_real env) h' w').

(** Two environments give a computation the same behaviour. *)
Definition agree {A} (env env' : Env) (m : M A) : Prop :=
  forall h w, m env' h w = m env h w.

(** The sample environment in a directory where no file can be created. *)
Definition read_only_env : Env :=
  {| viper := sample_viper;
     dryRun := false; projectDryRun := false; projectNonInteractive := true;
     lbDryRun := false; lbNonInteractive := true;
     lookPath := fun _ => true;
     runCmd := all_succeed;
     rangeOrder := order_a;
     randIntn := 4711;
     TrimSpace := ascii_TrimSpace;
     ToLower := fun s => s;
     Sscanf_d := fun _ => None;
     getwd := inl "/work";
     mkdirAll := fun _ => None;
     creatable := fun _ => false;
     writeFault := fun _ _ => None;
     readAhead := fun _ _ => 0%nat;
     configFileUsed := None;
     usageString := "Usage:" +:+ nl +:+ "  gcsetup [command]";
     DeployWorkflow := "name: deploy";
     EnvTemplate := "GCP_PROJECT_ID=" |}.

(** A world whose [.gitignore] lists [.env.gcloud] already, but may only
    be written, not read, by the process (mode 0200). *)
Definition write_only_gitignore : World :=
  mkWorld EmptyString
    {[ "/work/.gitignore" :=
         File ("node_modules" +:+ nl +:+ ".env.gcloud" +:+ nl) false true ]}.

(** The same run with standard input on a pipe or a file on which all
    the input is at hand from the start: a reader takes in as much of it
    as its buffer holds. *)
Definition piped (env : Env) : Env :=
  {| viper := viper env;
     dryRun := dryRun env; projectDryRun := projectDryRun env;
     projectNonInteractive := projectNonInteractive env;
     lbDryRun := lbDryRun env; lbNonInteractive := lbNonInteractive env;
     lookPath := lookPath env;
     runCmd := runCmd env;
     rangeOrder := rangeOrder env;
     randIntn := randIntn env;
     TrimSpace := TrimSpace env;
     ToLower := ToLower env;
     Sscanf_d := Sscanf_d env;
     getwd := getwd env;
     mkdirAll := mkdirAll env;
     creatable := creatable env;
     writeFault := writeFault env;
     readAhead := fun _ rest => String.length rest;
     configFileUsed := configFileUsed env;
     usageString := usageString env;
     DeployWorkflow := DeployWorkflow env;
     EnvTemplate := EnvTemplate env |}.

(** The same run on a disk on which every write fails after [n] bytes
    with the error [msg]. *)
Definition with_fault (env : Env) (n : nat) (msg : string) : Env :=
  {| viper := viper env;
     dryRun := dryRun env; projectDryRun := projectDryRun env;
     projectNonInteractive := projectNonInteractive env;
     lbDryRun := lbDryRun env; lbNonInteractive := lbNonInteractive env;
     lookPath := lookPath env;
     runCmd := runCmd env;
     rangeOrder := rangeOrder env;
     randIntn := randIntn env;
     TrimSpace := TrimSpace env;
     ToLower := ToLower env;
     Sscanf_d := Sscanf_d env;
     getwd := getwd env;
     mkdirAll := mkdirAll env;
     creatable := creatable env;
     writeFault := fun _ _ => Some (n, msg);
     readAhead := readAhead env;
     configFileUsed := configFileUsed env;
     usageString := usageString env;
     DeployWorkflow := DeployWorkflow env;
     EnvTemplate := EnvTemplate env |}.

(** A world in which the user types [lines], each one ended with the
    return key. *)
Definition typing (lines : list string) : World :=
  mkWorld (String.concat EmptyString ((fun l => l +:+ nl) <$> lines)) ∅.

Definition permission_denied (path : string) : option error :=
  Some (RunError ("open " +:+ path +:+ ": permission denied")).

(** A world in which the environment file exists already. *)
Definition with_env_file : World :=
  mkWorld EmptyString {[ "/work/.env.gcloud" := File "GCP_PROJECT_ID=mine" true true ]}.

(** Every event a computation emits satisfies [P], in every environment
    that satisfies [E]. *)
Definition emits {A} (E : Env -> Prop) (P : event -> Prop) (m : M A) : Prop :=
  forall env h w, E env -> Forall P (out (m env h w)).

(** ** Further observations on traces *)

(** A command that ended with an error the caller does not tolerate;
    [fatal] tells, from the arguments, which commands those are. *)
Definition failed (fatal : list string -> bool) (e : event) : bool :=
  match e with
  | Run _ args (Some _) => fatal args
  | _ => false
  end.

(** No such command in the trace. *)
Definition none_failed (fatal : list string -> bool) (tr : list event) : bool :=
  forallb (fun e => negb (failed fatal e)) tr.

(** Such a command, if there is one, is the last event of the trace. *)
Fixpoint failure_ends (fatal : list string -> bool) (tr : list event) : bool :=
  match tr with
  | [] => true
  | e :: rest =>
      if failed fatal e then match rest with [] => true | _ :: _ => false end
      else failure_ends fatal rest
  end.

(** A computation that gives up at the first fatal failure, and fails
    for no other reason. *)
Definition fails_on (fatal : list string -> bool) (m : M (option error)) : Prop :=
  forall env h w,
    failure_ends fatal (out (m env h w)) = true /\
    (val (m env h w) = None <-> none_failed fatal (out (m env h w)) = true).

(** Every failure is fatal. *)
Definition any_command (args : list string) : bool := true.

(** The commands whose failure the load-balancer steps put up with:
    [gcloud compute <kind> describe ...], which fails when the resource
    does not exist yet, and [gcloud compute url-maps add-path-rule ...]. *)
Definition describe_or_path_rule (args : list string) : bool :=
  match args with
  | _ :: _ :: verb :: _ => String.eqb verb "describe" || String.eqb verb "add-path-rule"
  | _ => false
  end.

(** Every other command is fatal to them. *)
Definition describe_or_path_rule_fatal (args : list string) : bool :=
  negb (describe_or_path_rule args).

(** A computation that returns nil after running exactly the commands
    [cmds], in the environment [env]. *)
Definition yields (env : Env) (cmds : list (string * list string))
    (m : M (option error)) : Prop :=
  forall h w, val (m env h w) = None /\ invocations (out (m env h w)) = cmds.

(** The commands the five load-balancer steps run to see what exists. *)
Definition lb_describe_commands (env : Env) (cfg : LoadBalancerConfig.t)
    : list (string * list string) :=
  let project := LoadBalancerConfig.ProjectID cfg in
  let lb := LoadBalancerConfig.LBName cfg in
  ((fun service =>
      ("gcloud", ["compute"; "health-checks"; "describe";
                  LoadBalancerService.HealthCheck service; "--global";
                  "--project"; project]))
     <$> LoadBalancerConfig.Services cfg)
  ++ ((fun service =>
         ("gcloud", ["compute"; "backend-services"; "describe";
                     LoadBalancerService.Name service +:+ "-backend"; "--global";
                     "--project"; project]))
        <$> LoadBalancerConfig.Services cfg)
  ++ [ ("gcloud", ["compute"; "url-maps"; "describe"; lb +:+ "-url-map";
                   "--project"; project]);
       ("gcloud", ["compute";
                   ToLower env (if LoadBalancerConfig.UseSSL cfg then "HTTPS" else "HTTP")
                   +:+ "-proxies";
                   "describe"; lb +:+ "-proxy"; "--global"; "--project"; project]);
       ("gcloud", ["compute"; "forwarding-rules"; "describe";
                   lb +:+ "-forwarding-rule"; "--global"; "--project"; project]) ].

(** The arguments of a [gcloud] command name the project, as a word of
    their own or in a [--project=] option. *)
Definition names_project (project : string) (args : list string) : Prop :=
  In project args \/ In ("--project=" +:+ project) args.

(** An event that runs a command runs [gcloud] on the given project. *)
Definition on_project (project : string) (e : event) : Prop :=
  match e with
  | Run name args _ => name = "gcloud" /\ names_project project args
  | _ => True
  end.

(** ... or [gh secret set] / [gh variable set] on the given repository. *)
Definition on_project_or_repo (project repo : string) (e : event) : Prop :=
  match e with
  | Run name args _ =>
      (name = "gcloud" /\ names_project project args) \/
      (name = "gh" /\
       exists kind key value,
         args = [kind; "set"; key; "--repo"; repo; "--body"; value])
  | _ => True
  end.

(** The configuration [runLoadBalancer] assembles when [--yes] is set:
    the three values read from viper, the defaults of the three prompts,
    the two assignments of the [else] branch, and zero values elsewhere. *)
Definition lb_yes_config (env : Env) : LoadBalancerConfig.t :=
  {| LoadBalancerConfig.ProjectID := viper env "GCP_PROJECT_ID";
     LoadBalancerConfig.ProjectNumber := viper env "GCP_PROJECT_NUMBER";
     LoadBalancerConfig.LBName := "gcloud-lb";
     LoadBalancerConfig.Region := viper env "CLOUD_RUN_REGION";
     LoadBalancerConfig.Network := "default";
     LoadBalancerConfig.Subnet := EmptyString;
     LoadBalancerConfig.Services := [];
     LoadBalancerConfig.HealthCheckPort := 8080;
     LoadBalancerConfig.UseSSL := false;
     LoadBalancerConfig.SSLCertificate := EmptyString |}.

(** A computation that reads nothing from standard input, in every
    environment that satisfies [E]. *)
Definition keeps_stdin {A} (E : Env -> Prop) (m : M A) : Prop :=
  forall env h w, E env -> stdin (world (m env h w)) = stdin w.

(** A service as [interactiveLBConfig] builds it: it has a name, a
    protocol and a path, and its health check is named after it. *)
Definition well_formed_service (service : LoadBalancerService.t) : Prop :=
  LoadBalancerService.Name service <> EmptyString /\
  LoadBalancerService.Protocol service <> EmptyString /\
  LoadBalancerService.Path service <> EmptyString /\
  LoadBalancerService.HealthCheck service = LoadBalancerService.Name service +:+ "-hc".

(** ** More sample runs *)

(** Every command fails. *)
Definition all_fail : list event -> string -> list string -> option string :=
  fun _ _ _ => Some "exit status 1".

(** Nothing exists yet: every [describe] (and [add-path-rule]) fails,
    every other command succeeds. *)
Definition nothing_exists : list event -> string -> list string -> option string :=
  fun _ _ args => if describe_or_path_rule args then Some "exit status 1" else None.

(** A confirmation prompt answered with no. *)
Definition always_decline (question : string) : M bool :=
  Print (question +:+ " (y/n): ") ;;
  _ <- ReadString ;;
  ret false.

Definition sample_project : ProjectConfig.t :=
  set_project_answers ProjectConfig.zero "shop" "shop-4711" "ci" "docker" "us-central1".

Definition sample_lb : LoadBalancerConfig.t :=
  {| LoadBalancerConfig.ProjectID := "proj";
     LoadBalancerConfig.ProjectNumber := "42";
     LoadBalancerConfig.LBName := "lb";
     LoadBalancerConfig.Region := "europe-west1";
     LoadBalancerConfig.Network := "default";
     LoadBalancerConfig.Subnet := EmptyString;
     LoadBalancerConfig.Services :=
       [ {| LoadBalancerService.Name := "api";
            LoadBalancerService.Protocol := "HTTP";
            LoadBalancerService.Port := 8080;
            LoadBalancerService.Path := "/api/*";
            LoadBalancerService.HealthCheck := "api-hc" |} ];
     LoadBalancerConfig.HealthCheckPort := 8080;
     LoadBalancerConfig.UseSSL := false;
     LoadBalancerConfig.SSLCertificate := EmptyString |}.

(** ** Dependencies between the resources of a load balancer *)

(** A run has seen to it that the resource [name] of [gcloud compute
    <kind>] exists: it has described it with success, or created it with
    success. *)
Definition ensured (kind name : string) (tr : list event) : Prop :=
  exists rest,
    In (Run "gcloud" ("compute" :: kind :: "describe" :: name :: rest) None) tr \/
    In (Run "gcloud" ("compute" :: kind :: "create" :: name :: rest) None) tr.

(** The same for a health check, whose [create] names the protocol
    before the resource. *)
Definition health_check_ensured (name : string) (tr : list event) : Prop :=
  exists rest,
    In (Run "gcloud" ("compute" :: "health-checks" :: "describe" :: name :: rest) None) tr \/
    In (Run "gcloud" ("compute" :: "health-checks" :: "create" :: "http" :: name :: rest)
          None) tr.

(** What a command refers to is there, [before] being the part of the
    run that precedes it: the health check of a new backend service, the
    default backend of a new URL map, the URL map and the backend of a new
    path rule, the URL map of a new proxy, the proxy of a new forwarding
    rule. *)
Definition depends_met (args : list string) (before : list event) : Prop :=
  (forall name opts hc,
     args = "compute" :: "backend-services" :: "create" :: name :: opts ->
     In ("--health-checks=" +:+ hc) opts -> health_check_ensured hc before) /\
  (forall name opts backend,
     args = "compute" :: "url-maps" :: "create" :: name :: opts ->
     In ("--default-service=" +:+ backend) opts ->
     ensured "backend-services" backend before) /\
  (forall name opts backend,
     args = "compute" :: "url-maps" :: "add-path-rule" :: name :: opts ->
     In ("--service=" +:+ backend) opts ->
     ensured "url-maps" name before /\ ensured "backend-services" backend before) /\
  (forall kind name opts urlMap,
     args = "compute" :: kind :: "create" :: name :: opts ->
     kind = "http-proxies" \/ kind = "https-proxies" ->
     In ("--url-map=" +:+ urlMap) opts -> ensured "url-maps" urlMap before) /\
  (forall name opts proxy,
     args = "compute" :: "forwarding-rules" :: "create" :: name :: opts ->
     (In ("--target-http-proxy=" +:+ proxy) opts -> ensured "http-proxies" proxy before) /\
     (In ("--target-https-proxy=" +:+ proxy) opts ->
      ensured "https-proxies" proxy before)).

(** Every command of the trace [tr], emitted after the history [h],
    finds what it refers to in the part of the run before it. *)
Definition in_dependency_order (h tr : list event) : Prop :=
  forall pre name args res post,
    tr = pre ++ Run name args res :: post -> depends_met args (h ++ pre).

(** A fact about a run that stays true as the run goes on. *)
Definition lasting (P : list event -> Prop) : Prop :=
  forall h d, P h -> P (h ++ d).

(** Started in an environment that satisfies [E] after a run of which
    [P] holds, the computation runs its commands in dependency order,
    and [Q] holds of the run when it returns nil. *)
Definition ordered (E : Env -> Prop) (P : list event -> Prop) (m : M (option error))
    (Q : list event -> Prop) : Prop :=
  forall env h w, E env -> P h ->
    in_dependency_order h (out (m env h w)) /\
    (val (m env h w) = None -> Q (h ++ out (m env h w))).

(** A run of the load-balancer steps outside a dry run; the two facts
    about [strings.ToLower] are those the steps rely on. *)
Definition real_lb_run (env : Env) : Prop :=
  lbDryRun env = false /\ ToLower env "HTTP" = "http" /\ ToLower env "HTTPS" = "https".

(** What each of the first four steps has seen to when it returns nil. *)
Definition health_checks_ensured (cfg : LoadBalancerConfig.t) (tr : list event) : Prop :=
  forall service,
    In service (LoadBalancerConfig.Services cfg) ->
    health_check_ensured (LoadBalancerService.HealthCheck service) tr.

Definition backends_ensured (cfg : LoadBalancerConfig.t) (tr : list event) : Prop :=
  forall service,
    In service (LoadBalancerConfig.Services cfg) ->
    ensured "backend-services" (LoadBalancerService.Name service +:+ "-backend") tr.

Definition url_map_ensured (cfg : LoadBalancerConfig.t) (tr : list event) : Prop :=
  ensured "url-maps" (LoadBalancerConfig.LBName cfg +:+ "-url-map") tr.

Definition proxy_ensured (cfg : LoadBalancerConfig.t) (tr : list event) : Prop :=
  ensured (if LoadBalancerConfig.UseSSL cfg then "https-proxies" else "http-proxies")
    (LoadBalancerConfig.LBName cfg +:+ "-proxy") tr.

(** [strings.ToLower] on ASCII input. *)
Definition ascii_lower (c : ascii) : ascii :=
  let n := nat_of_ascii c in
  if (65 <=? n)%nat && (n <=? 90)%nat then ascii_of_nat (n + 32) else c.

Fixpoint ascii_ToLower (s : string) : string :=
  match s with
  | EmptyString => EmptyString
  | String c s' => String (ascii_lower c) (ascii_ToLower s')
  end.

(** The sample environment with that [ToLower], for a run with [--yes]
    that is not a dry run. *)
Definition lower_env (run : list event -> string -> list string -> option string) : Env :=
  {| viper := sample_viper;
     dryRun := false; projectDryRun := false; projectNonInteractive := true;
     lbDryRun := false; lbNonInteractive := true;
     lookPath := fun _ => true;
     runCmd := run;
     rangeOrder := order_a;
     randIntn := 4711;
     TrimSpace := ascii_TrimSpace;
     ToLower := ascii_ToLower;
     Sscanf_d := fun _ => None;
     getwd := inl "/work";
     mkdirAll := fun _ => None;
     creatable := fun _ => true;
     writeFault := fun _ _ => None;
     readAhead := fun _ _ => 0%nat;
     configFileUsed := None;
     usageString := "Usage:" +:+ nl +:+ "  gcsetup [command]";
     DeployWorkflow := "name: deploy";
     EnvTemplate := "GCP_PROJECT_ID=" |}.

(** * Properties *)

(** ** Strings *)

(** stdpp keeps [String.append] folded under [simpl]; these two
    equations unfold it by hand. *)
Lemma append_nil_l (s : string) : EmptyString +:+ s = s.
Proof. reflexivity. Qed.

Lemma append_cons (c : ascii) (s1 s2 : string) :
  String c s1 +:+ s2 = String c (s1 +:+ s2).
Proof. reflexivity. Qed.

Lemma append_nil_r (s : string) : s +:+ EmptyString = s.
Proof.
  induction s as [|c s IH]; [reflexivity|]. now rewrite append_cons, IH.
Qed.

Lemma append_assoc (s1 s2 s3 : string) :
  (s1 +:+ s2) +:+ s3 = s1 +:+ (s2 +:+ s3).
Proof.
  induction s1 as [|c s1 IH]; [reflexivity|]. now rewrite !append_cons, IH.
Qed.

Lemma length_append (s1 s2 : string) :
  String.length (s1 +:+ s2) = (String.length s1 + String.length s2)%nat.
Proof.
  induction s1 as [|c s1 IH]; [reflexivity|].
  rewrite append_cons. simpl. now rewrite IH.
Qed.

Lemma length_zero_empty (s : string) : String.length s = 0%nat -> s = EmptyString.
Proof. destruct s; simpl; [reflexivity | discriminate]. Qed.

(** A slice that starts where [t] starts and has the length of [t] is
    [t]. *)
Lemma substring_0_append (t post : string) :
  String.substring 0 (String.length t) (t +:+ post) = t.
Proof.
  induction t as [|c t IH]; [destruct post; reflexivity|].
  rewrite append_cons. simpl. now rewrite IH.
Qed.

Lemma substring_at (pre t post : string) :
  String.substring (String.length pre) (String.length t) (pre +:+ t +:+ post) = t.
Proof.
  induction pre as [|c pre IH]; [exact (substring_0_append t post)|].
  rewrite append_cons. exact IH.
Qed.

Lemma substring_0_prefix (s : string) : forall n : nat,
  exists post : string, s = String.substring 0 n s +:+ post.
Proof.
  induction s as [|c s IH]; intros [|n]; simpl.
  - now exists EmptyString.
  - now exists EmptyString.
  - now exists (String c s).
  - destruct (IH n) as [post E]. exists post. now rewrite append_cons, <- E.
Qed.

(** Whatever [String.substring] returns is a block of its argument. *)
Lemma substring_occurs (s : string) : forall i n : nat,
  occurs_in (String.substring i n s) s.
Proof.
  induction s as [|c s IH]; intros i n.
  - exists EmptyString, EmptyString. destruct i, n; reflexivity.
  - destruct i as [|i].
    + destruct (substring_0_prefix (String c s) n) as [post E].
      exists EmptyString, post. exact E.
    + simpl. destruct (IH i n) as (pre & post & E).
      exists (String c pre), post. now rewrite append_cons, <- E.
Qed.

(** ** [contains] *)

(** The loop finds exactly the start indices it visits at which the
    slice equals [substr]. *)
Lemma containsSubstring_loop_true (s substr : string) : forall n i : nat,
  containsSubstring_loop n i s substr = true <->
  exists j : nat, (i <= j < i + n)%nat /\
    String.substring j (String.length substr) s = substr.
Proof.
  induction n as [|n IH]; intros i; simpl.
  - split; [discriminate | intros (j & Hj & _); lia].
  - destruct (String.eqb_spec (String.substring i (String.length substr) s) substr)
      as [E|NE].
    + split; [intros _ | reflexivity]. exists i. split; [lia | exact E].
    + rewrite IH. split; intros (j & Hj & E).
      * exists j. split; [lia | exact E].
      * exists j. split; [|exact E].
        destruct (Nat.eq_dec j i) as [->|]; [contradiction | lia].
Qed.

Lemma contains_occurs (s substr : string) :
  contains s substr = true -> occurs_in substr s.
Proof.
  unfold contains. intros H.
  apply andb_true_iff in H as [_ H]. apply orb_true_iff in H as [H|H].
  - apply String.eqb_eq in H as ->.
    exists EmptyString, EmptyString. now rewrite append_nil_l, append_nil_r.
  - apply andb_true_iff in H as [_ H].
    apply containsSubstring_loop_true in H as (j & _ & E).
    rewrite <- E. apply substring_occurs.
Qed.

Lemma occurs_contains (s substr : string) :
  occurs_in substr s -> contains s substr = true.
Proof.
  intros (pre & post & E). unfold contains, containsSubstring, len.
  assert (L : String.length s
              = (String.length pre + String.length substr + String.length post)%nat).
  { rewrite E, !length_append. lia. }
  apply andb_true_iff. split; [apply Z.geb_le; lia|].
  destruct (String.eqb_spec s substr) as [|NE]; [reflexivity|]. simpl.
  apply andb_true_iff. split.
  - apply Z.gtb_lt.
    destruct (String.length s) eqn:Ls; [|lia].
    exfalso. apply NE.
    rewrite (length_zero_empty s Ls).
    symmetry. apply length_zero_empty. lia.
  - apply containsSubstring_loop_true.
    exists (String.length pre). split; [lia|].
    rewrite E. apply substring_at.
Qed.

(** C10: [contains(s, substr)] is true exactly when [substr] occurs in
    [s] as a contiguous substring; in particular it is true for the
    empty substring and for equal strings, and false when [substr] is
    longer than [s]. *)
Theorem contains_correct (s substr : string) :
  (contains s substr = true <-> occurs_in substr s) /\
  contains s EmptyString = true /\
  contains s s = true /\
  ((len substr > len s)%Z -> contains s substr = false).
Proof.
  split; [split; [apply contains_occurs | apply occurs_contains]|].
  split; [|split].
  - apply occurs_contains. exists EmptyString, s. reflexivity.
  - apply occurs_contains. exists EmptyString, EmptyString.
    now rewrite append_nil_l, append_nil_r.
  - intros H. unfold contains.
    apply andb_false_iff. left. rewrite Z.geb_leb. apply Z.leb_gt. lia.
Qed.

Lemma contains_correct_witness :
  (len "abc" > len "ab")%Z /\ contains "ab" "abc" = false.
Proof.
  split; [reflexivity|].
  exact (proj2 (proj2 (proj2 (contains_correct "ab" "abc"))) eq_refl).
Defined.

(** ** The effect monad *)


Section Emits.
Context (E : Env -> Prop) (P : event -> Prop).

Lemma emits_ret {A} (a : A) : emits E P (ret a).
Proof. intros env h w _. constructor. Qed.

Lemma emits_bind {A B} (m : M A) (f : A -> M B) :
  emits E P m -> (forall a, emits E P (f a)) -> emits E P (bind m f).
Proof.
  intros Hm Hf env h w HE. unfold bind.
  specialize (Hm env h w HE).
  destruct (m env h w) as [a d1 w1]; simpl in Hm.
  specialize (Hf a env (h ++ d1) w1 HE).
  destruct (f a env (h ++ d1) w1) as [b d2 w2]; simpl in *.
  apply Forall_app; auto.
Qed.

Lemma emits_ask : emits E P ask.
Proof. intros env h w _. constructor. Qed.

Lemma emits_ask_bind {A} (k : Env -> M A) :
  (forall env0, emits (fun env => E env /\ env = env0) P (k env0)) ->
  emits E P (bind ask k).
Proof.
  intros Hk env h w HE. unfold bind, ask.
  match goal with
  | |- context [k ?e0 ?e ?hh ?ww] =>
      specialize (Hk e0 e hh ww (conj HE eq_refl));
      destruct (k e0 e hh ww) as [b d2 w2]
  end.
  exact Hk.
Qed.

Lemma emits_flag_bind {A} (f : Env -> bool) (k : bool -> M A) :
  (forall b, emits (fun env => E env /\ f env = b) P (k b)) ->
  emits E P (bind (flag f) k).
Proof.
  intros Hk env h w HE. unfold bind, flag, ask, ret. simpl.
  match goal with
  | |- context [k ?b0 ?e ?hh ?ww] =>
      specialize (Hk b0 e hh ww (conj HE eq_refl));
      destruct (k b0 e hh ww) as [b d2 w2]
  end.
  exact Hk.
Qed.

Lemma emits_emit (e : event) : P e -> emits E P (emit e).
Proof. intros He env h w _. repeat constructor. exact He. Qed.

Lemma emits_emit_all (evs : list event) : Forall P evs -> emits E P (emit_all evs).
Proof. intros He env h w _. exact He. Qed.

Lemma emits_Command_Run (name : string) (args : list string) :
  (forall r, P (Run name args r)) -> emits E P (Command_Run name args).
Proof. intros He env h w _. repeat constructor. apply He. Qed.

Lemma emits_or_return (c k : M (option error)) :
  emits E P c -> emits E P k -> emits E P (or_return c k).
Proof.
  intros Hc Hk. apply emits_bind; [exact Hc|].
  intros [e|]; [apply emits_ret | exact Hk].
Qed.

Lemma emits_or_return_w (msg : string) (c k : M (option error)) :
  emits E P c -> emits E P k -> emits E P (or_return_w msg c k).
Proof.
  intros Hc Hk. apply emits_bind; [exact Hc|].
  intros [e|]; [apply emits_ret | exact Hk].
Qed.

Lemma emits_for_range {A} (xs : list A) (body : A -> M (option error)) :
  (forall x, emits E P (body x)) -> emits E P (for_range xs body).
Proof.
  intros Hb. induction xs as [|x xs IH]; simpl.
  - apply emits_ret.
  - apply emits_or_return; [apply Hb | exact IH].
Qed.

End Emits.

Lemma emits_weaken {A} (E E' : Env -> Prop) (P : event -> Prop) (m : M A) :
  (forall env, E' env -> E env) -> emits E P m -> emits E' P m.
Proof. intros HE Hm env h w HE'. apply Hm, HE, HE'. Qed.

Lemma emits_absurd {A} (E : Env -> Prop) (P : event -> Prop) (m : M A) :
  (forall env, E env -> False) -> emits E P m.
Proof. intros HE env h w He. destruct (HE env He). Qed.

Section EmitsMore.
Context (E : Env -> Prop) (P : event -> Prop).

Lemma emits_for_range_Forall {A} (xs : list A) (body : A -> M (option error)) :
  Forall (fun x => emits E P (body x)) xs -> emits E P (for_range xs body).
Proof.
  induction 1 as [|x xs Hx _ IH]; simpl.
  - apply emits_ret.
  - apply emits_or_return; [exact Hx | exact IH].
Qed.

(** A computation that emits nothing. *)
Lemma emits_silent {A} (m : M A) :
  (forall env h w, out (m env h w) = []) -> emits E P m.
Proof. intros Hm env h w _. rewrite Hm. constructor. Qed.

Lemma emits_flag (f : Env -> bool) : emits E P (flag f).
Proof. now apply emits_silent. Qed.

Lemma emits_LookPath (name : string) : emits E P (LookPath name).
Proof. now apply emits_silent. Qed.

Lemma emits_GetString (key : string) : emits E P (GetString key).
Proof. now apply emits_silent. Qed.

Lemma emits_trimSpace (s : string) : emits E P (trimSpace s).
Proof. now apply emits_silent. Qed.

Lemma emits_scan_int_or (d : Z) (s : string) : emits E P (scan_int_or d s).
Proof. now apply emits_silent. Qed.

Lemma emits_randomSuffix : emits E P randomSuffix.
Proof. now apply emits_silent. Qed.

Lemma emits_MkdirAll (path : string) : emits E P (MkdirAll path).
Proof. now apply emits_silent. Qed.

Lemma emits_Reader_ReadString (buf : string) : emits E P (Reader_ReadString buf).
Proof.
  apply emits_silent. intros env h w. unfold Reader_ReadString.
  now destruct (holds_line buf).
Qed.

Lemma emits_ReadString : emits E P ReadString.
Proof.
  apply emits_silent. intros env h w. unfold ReadString, Reader_ReadString, bind, ret.
  reflexivity.
Qed.

Lemma emits_Stat (path : string) : emits E P (Stat path).
Proof.
  apply emits_silent. intros env h w. unfold Stat. now destruct (files w !! path).
Qed.

Lemma emits_ReadFile (path : string) : emits E P (ReadFile path).
Proof.
  apply emits_silent. intros env h w. unfold ReadFile.
  now destruct (files w !! path).
Qed.

Lemma emits_WriteFile (path content : string) : emits E P (WriteFile path content).
Proof.
  apply emits_silent. intros env h w. unfold WriteFile.
  destruct (files w !! path) as [f|].
  - destruct (writable f); [|reflexivity].
    now destruct (writeFault env path content) as [[n msg]|].
  - destruct (creatable env path); [reflexivity|].
    now destruct (writeFault env path content) as [[n msg]|].
Qed.

Lemma emits_OpenFile_append (path : string) : emits E P (OpenFile_append path).
Proof.
  apply emits_silent. intros env h w. unfold OpenFile_append.
  destruct (files w !! path) as [f|]; [now destruct (writable f) | reflexivity].
Qed.

Lemma emits_WriteString (path s : string) : emits E P (WriteString path s).
Proof.
  apply emits_silent. intros env h w. unfold WriteString.
  destruct (files w !! path); [|reflexivity].
  now destruct (writeFault env path s) as [[n msg]|].
Qed.

Hypothesis P_Stdout : forall s, P (Stdout s).

Lemma emits_Print (s : string) : emits E P (Print s).
Proof. apply emits_emit, P_Stdout. Qed.

Lemma emits_Println (s : string) : emits E P (Println s).
Proof. apply emits_emit, P_Stdout. Qed.

Lemma emits_run_steps {C} (steps : list (string * (C -> M (option error)))) (cfg : C) :
  Forall (fun s => emits E P (s.2 cfg)) steps -> emits E P (run_steps steps cfg).
Proof.
  intros Hs. unfold run_steps. apply emits_for_range_Forall.
  apply Forall_forall. intros [i s] Hin.
  apply elem_of_lookup_imap_1 in Hin as (j & s' & [= -> ->] & Hj).
  apply (Forall_lookup_1 _ _ _ _ Hs) in Hj. unfold loop_body. simpl.
  apply emits_bind; [apply emits_Print|]. intros _.
  apply emits_bind; [apply emits_Println|]. intros _.
  apply emits_or_return_w; [exact Hj|].
  apply emits_bind; [apply emits_Println | intros _; apply emits_ret].
Qed.

End EmitsMore.

(** ** Which binaries are run *)

Ltac event_ok := intros; simpl; auto.

Create HintDb emits.

Ltac emits_go :=
  cbv zeta;
  lazymatch goal with
  | |- emits _ _ (bind _ _) => apply emits_bind; [emits_go | intro; emits_go]
  | |- emits _ _ (or_return_w _ _ _) => apply emits_or_return_w; emits_go
  | |- emits _ _ (or_return _ _) => apply emits_or_return; emits_go
  | |- emits _ _ (for_range _ _) => apply emits_for_range; intro; emits_go
  | |- emits _ _ (match ?x with _ => _ end) => destruct x; emits_go
  | |- emits _ _ (ret _) => apply emits_ret
  | |- emits _ _ ask => apply emits_ask
  | |- emits _ _ (flag _) => apply emits_flag
  | |- emits _ _ (LookPath _) => apply emits_LookPath
  | |- emits _ _ (GetString _) => apply emits_GetString
  | |- emits _ _ (trimSpace _) => apply emits_trimSpace
  | |- emits _ _ (scan_int_or _ _) => apply emits_scan_int_or
  | |- emits _ _ randomSuffix => apply emits_randomSuffix
  | |- emits _ _ ReadString => apply emits_ReadString
  | |- emits _ _ (Reader_ReadString _) => apply emits_Reader_ReadString
  | |- emits _ _ (MkdirAll _) => apply emits_MkdirAll
  | |- emits _ _ (Stat _) => apply emits_Stat
  | |- emits _ _ (ReadFile _) => apply emits_ReadFile
  | |- emits _ _ (WriteFile _ _) => apply emits_WriteFile
  | |- emits _ _ (OpenFile_append _) => apply emits_OpenFile_append
  | |- emits _ _ (WriteString _ _) => apply emits_WriteString
  | |- emits _ _ (Print _) => apply emits_Print; event_ok
  | |- emits _ _ (Println _) => apply emits_Println; event_ok
  | |- emits _ _ (emit _) => apply emits_emit; event_ok
  | |- emits _ _ (Command_Run _ _) => apply emits_Command_Run; event_ok
  | |- _ => try solve [auto with emits]
  end.

Section OnlyGcloudAndGh.
Context (E : Env -> Prop).
Local Abbreviation ok := (emits E gcloud_or_gh).

Lemma ok_checkGcloud : ok checkGcloud.
Proof. unfold checkGcloud. emits_go. Qed.

Lemma ok_checkGH : ok checkGH.
Proof. unfold checkGH. emits_go. Qed.

Lemma ok_ValidateConfig : ok ValidateConfig.
Proof. unfold ValidateConfig. emits_go. Qed.

Lemma ok_loadConfig : ok loadConfig.
Proof. unfold loadConfig. emits_go. Qed.

Lemma ok_runCommandSilent (args : list string) : ok (runCommandSilent "gcloud" args).
Proof. unfold runCommandSilent. emits_go. Qed.

Lemma ok_runCommand (args : list string) : ok (runCommand "gcloud" args).
Proof. unfold runCommand. emits_go. Qed.
#[local] Hint Resolve ok_checkGcloud ok_checkGH ok_ValidateConfig ok_loadConfig
  ok_runCommandSilent ok_runCommand : emits.

Lemma ok_enableAPIs cfg : ok (enableAPIs cfg).
Proof. unfold enableAPIs. emits_go. Qed.

Lemma ok_createServiceAccount cfg : ok (createServiceAccount cfg).
Proof. unfold createServiceAccount. emits_go. Qed.

Lemma ok_setupWorkloadIdentity cfg : ok (setupWorkloadIdentity cfg).
Proof. unfold setupWorkloadIdentity. emits_go. Qed.

Lemma ok_createArtifactRegistry cfg : ok (createArtifactRegistry cfg).
Proof. unfold createArtifactRegistry. emits_go. Qed.

Lemma ok_gh_set kind repo name value : ok (gh_set kind repo name value).
Proof. unfold gh_set. emits_go. Qed.
#[local] Hint Resolve ok_gh_set : emits.

Lemma ok_configureGitHub cfg : ok (configureGitHub cfg).
Proof. unfold configureGitHub, range_map. emits_go. Qed.
#[local] Hint Resolve ok_enableAPIs ok_createServiceAccount ok_setupWorkloadIdentity
  ok_createArtifactRegistry ok_configureGitHub : emits.

Lemma ok_steps {C} (steps : list (string * (C -> M (option error)))) (cfg : C) :
  Forall (fun s => ok (s.2 cfg)) steps -> ok (run_steps steps cfg).
Proof. apply emits_run_steps. event_ok. Qed.

Lemma ok_emit_all_Stdout (lines : list event) :
  Forall (fun e => exists s, e = Stdout s) lines -> ok (emit_all lines).
Proof.
  intros H. apply emits_emit_all. eapply Forall_impl; [exact H|].
  now intros e [s ->].
Qed.

Lemma ok_runSetup : ok runSetup.
Proof.
  unfold runSetup. emits_go.
  - apply ok_emit_all_Stdout. unfold setup_header. repeat constructor; eauto.
  - apply ok_steps. unfold setupSteps. repeat constructor; simpl; auto with emits.
  - apply ok_emit_all_Stdout. unfold setup_footer. repeat constructor; eauto.
Qed.

(** Project create. *)

Lemma ok_promptProject label dflt : ok (promptProject label dflt).
Proof. unfold promptProject. emits_go. Qed.
#[local] Hint Resolve ok_promptProject : emits.

Lemma ok_interactiveProjectConfig cfg : ok (interactiveProjectConfig cfg).
Proof. unfold interactiveProjectConfig. emits_go. Qed.

Lemma ok_createGCPProject cfg : ok (createGCPProject cfg).
Proof. unfold createGCPProject. emits_go. Qed.

Lemma ok_enableProjectAPIs cfg : ok (enableProjectAPIs cfg).
Proof. unfold enableProjectAPIs. emits_go. Qed.

Lemma ok_createProjectServiceAccount cfg : ok (createProjectServiceAccount cfg).
Proof. unfold createProjectServiceAccount. emits_go. Qed.

Lemma ok_setupProjectWorkloadIdentity cfg : ok (setupProjectWorkloadIdentity cfg).
Proof. unfold setupProjectWorkloadIdentity. emits_go. Qed.

Lemma ok_createProjectArtifactRegistry cfg : ok (createProjectArtifactRegistry cfg).
Proof. unfold createProjectArtifactRegistry. emits_go. Qed.
#[local] Hint Resolve ok_interactiveProjectConfig ok_createGCPProject ok_enableProjectAPIs
  ok_createProjectServiceAccount ok_setupProjectWorkloadIdentity
  ok_createProjectArtifactRegistry : emits.

(** Load balancer. *)

Lemma ok_promptLB label dflt : ok (promptLB label dflt).
Proof. unfold promptLB. emits_go. Qed.
#[local] Hint Resolve ok_promptLB : emits.

Lemma ok_read_services idxs : forall services reader,
  ok (read_services idxs services reader).
Proof.
  induction idxs as [|i idxs IH]; intros services reader; simpl; emits_go.
Qed.
#[local] Hint Resolve ok_read_services : emits.

Lemma ok_interactiveLBConfig cfg : ok (interactiveLBConfig cfg).
Proof. unfold interactiveLBConfig. emits_go. Qed.

Lemma ok_createHealthChecks cfg : ok (createHealthChecks cfg).
Proof. unfold createHealthChecks. emits_go. Qed.

Lemma ok_createBackendServices cfg : ok (createBackendServices cfg).
Proof. unfold createBackendServices. emits_go. Qed.

Lemma ok_createURLMap cfg : ok (createURLMap cfg).
Proof. unfold createURLMap. emits_go. Qed.

Lemma ok_createHTTPSProxy cfg : ok (createHTTPSProxy cfg).
Proof. unfold createHTTPSProxy. emits_go. Qed.

Lemma ok_createForwardingRule cfg : ok (createForwardingRule cfg).
Proof. unfold createForwardingRule. emits_go. Qed.
#[local] Hint Resolve ok_interactiveLBConfig ok_createHealthChecks ok_createBackendServices
  ok_createURLMap ok_createHTTPSProxy ok_createForwardingRule : emits.

Lemma service_summary_Stdout services : forall i,
  Forall (fun e => exists s, e = Stdout s) (service_summary i services).
Proof. induction services as [|svc rest IH]; intros i; simpl; eauto. Qed.

(** Init. *)

Lemma ok_writeFileIfNotExists path content : ok (writeFileIfNotExists path content).
Proof. unfold writeFileIfNotExists. emits_go. Qed.

Lemma ok_appendToGitignore path : ok (appendToGitignore path).
Proof. unfold appendToGitignore. emits_go. Qed.
#[local] Hint Resolve ok_writeFileIfNotExists ok_appendToGitignore : emits.

Lemma ok_runInit : ok runInit.
Proof. unfold runInit. emits_go. Qed.

(** The two commands that ask for confirmation. *)

Context (promptConfirm : string -> M bool).
Hypothesis ok_promptConfirm : forall question, ok (promptConfirm question).
#[local] Hint Resolve ok_promptConfirm : emits.

Lemma ok_runProjectCreate : ok (runProjectCreate promptConfirm).
Proof.
  unfold runProjectCreate. emits_go.
  apply ok_steps. unfold projectSteps. repeat constructor; simpl; auto with emits.
Qed.

Lemma ok_runLoadBalancer : ok (runLoadBalancer promptConfirm).
Proof.
  unfold runLoadBalancer. emits_go.
  - apply ok_emit_all_Stdout, service_summary_Stdout.
  - apply ok_steps. unfold lbSteps. repeat constructor; simpl; auto with emits.
Qed.

Lemma ok_unless_panicked {A} (m : M A) (k : A -> M unit) :
  ok m -> (forall a, ok (k a)) -> ok (unless_panicked m k).
Proof.
  intros Hm Hk env h w HE. unfold unless_panicked.
  specialize (Hm env h w HE).
  destruct (m env h w) as [a d1 w1]. cbn [out] in Hm.
  destruct (panicked d1).
  - cbn [out]. apply Forall_app. split; [exact Hm|]. now repeat constructor.
  - specialize (Hk a env (h ++ d1) w1 HE).
    destruct (k a env (h ++ d1) w1) as [b d2 w2]. cbn [out] in *.
    apply Forall_app. now split.
Qed.

Lemma ok_Execute (runE : M (option error)) : ok runE -> ok (Execute runE).
Proof.
  intros H. unfold Execute, initConfig. emits_go.
  apply ok_unless_panicked; [exact H|]. intros err.
  unfold Fprintln_Stderr. emits_go.
Qed.

End OnlyGcloudAndGh.

(** ** Equations of the monad *)

Lemma bind_eq {A B} (m : M A) (f : A -> M B) env h w :
  bind m f env h w =
  mkRes (val (f (val (m env h w)) env (h ++ out (m env h w)) (world (m env h w))))
        (out (m env h w)
         ++ out (f (val (m env h w)) env (h ++ out (m env h w)) (world (m env h w))))
        (world (f (val (m env h w)) env (h ++ out (m env h w)) (world (m env h w)))).
Proof.
  unfold bind. destruct (m env h w) as [a d1 w1]; simpl.
  now destruct (f a env (h ++ d1) w1).
Qed.

Lemma res_eta {A} (r : Res A) : mkRes (val r) (out r) (world r) = r.
Proof. now destruct r. Qed.

(** A computation that only emits [evs] in front of [k]. *)
Lemma emit_all_bind {A} (evs : list event) (k : M A) env h w :
  (emit_all evs ;; k) env h w =
  mkRes (val (k env (h ++ evs) w)) (evs ++ out (k env (h ++ evs) w))
        (world (k env (h ++ evs) w)).
Proof. now rewrite bind_eq. Qed.

Lemma emit_bind {A} (e : event) (k : M A) env h w :
  (emit e ;; k) env h w =
  mkRes (val (k env (h ++ [e]) w)) (e :: out (k env (h ++ [e]) w))
        (world (k env (h ++ [e]) w)).
Proof. now rewrite bind_eq. Qed.

Lemma or_return_Some (c k : M (option error)) env h w e :
  val (c env h w) = Some e ->
  or_return c k env h w = mkRes (Some e) (out (c env h w)) (world (c env h w)).
Proof.
  intros H. unfold or_return. rewrite bind_eq, H. simpl. now rewrite app_nil_r.
Qed.

Lemma or_return_None (c k : M (option error)) env h w :
  val (c env h w) = None ->
  or_return c k env h w =
  mkRes (val (k env (h ++ out (c env h w)) (world (c env h w))))
        (out (c env h w) ++ out (k env (h ++ out (c env h w)) (world (c env h w))))
        (world (k env (h ++ out (c env h w)) (world (c env h w)))).
Proof. intros H. unfold or_return. now rewrite bind_eq, H. Qed.

Lemma or_return_w_Some msg (c k : M (option error)) env h w e :
  val (c env h w) = Some e ->
  or_return_w msg c k env h w =
  mkRes (Some (Errorf_w msg e)) (out (c env h w)) (world (c env h w)).
Proof.
  intros H. unfold or_return_w. rewrite bind_eq, H. simpl. now rewrite app_nil_r.
Qed.

Lemma or_return_w_None msg (c k : M (option error)) env h w :
  val (c env h w) = None ->
  or_return_w msg c k env h w =
  mkRes (val (k env (h ++ out (c env h w)) (world (c env h w))))
        (out (c env h w) ++ out (k env (h ++ out (c env h w)) (world (c env h w))))
        (world (k env (h ++ out (c env h w)) (world (c env h w)))).
Proof. intros H. unfold or_return_w. now rewrite bind_eq, H. Qed.

(** Computations that neither emit events nor change the world can be
    skipped over. *)
Lemma bind_silent {A B} (m : M A) (f : A -> M B) env h w :
  out (m env h w) = [] -> world (m env h w) = w ->
  bind m f env h w = f (val (m env h w)) env h w.
Proof.
  intros Ho Hw. rewrite bind_eq, Ho, Hw, app_nil_r. simpl. apply res_eta.
Qed.

Lemma or_return_silent (c k : M (option error)) env h w :
  val (c env h w) = None -> out (c env h w) = [] -> world (c env h w) = w ->
  or_return c k env h w = k env h w.
Proof.
  intros Hv Ho Hw. unfold or_return. rewrite bind_silent, Hv by assumption.
  reflexivity.
Qed.

(** The same equations, written with [prepend]. *)

Lemma prepend_nil {A} (r : Res A) : prepend [] r = r.
Proof. now destruct r. Qed.

Lemma prepend_prepend {A} (t1 t2 : list event) (r : Res A) :
  prepend t1 (prepend t2 r) = prepend (t1 ++ t2) r.
Proof. unfold prepend. simpl. now rewrite app_assoc. Qed.

Lemma emit_all_prepend {A} (evs : list event) (k : M A) env h w :
  (emit_all evs ;; k) env h w = prepend evs (k env (h ++ evs) w).
Proof. apply emit_all_bind. Qed.

Lemma emit_prepend {A} (e : event) (k : M A) env h w :
  (emit e ;; k) env h w = prepend [e] (k env (h ++ [e]) w).
Proof. apply emit_bind. Qed.

Lemma or_return_prepend (c k : M (option error)) env h w :
  or_return c k env h w =
  match val (c env h w) with
  | Some e => mkRes (Some e) (out (c env h w)) (world (c env h w))
  | None => prepend (out (c env h w)) (k env (h ++ out (c env h w)) (world (c env h w)))
  end.
Proof.
  destruct (val (c env h w)) as [e|] eqn:H.
  - now apply or_return_Some.
  - now apply or_return_None.
Qed.

Lemma or_return_w_prepend msg (c k : M (option error)) env h w :
  or_return_w msg c k env h w =
  match val (c env h w) with
  | Some e => mkRes (Some (Errorf_w msg e)) (out (c env h w)) (world (c env h w))
  | None => prepend (out (c env h w)) (k env (h ++ out (c env h w)) (world (c env h w)))
  end.
Proof.
  destruct (val (c env h w)) as [e|] eqn:H.
  - now apply or_return_w_Some.
  - now apply or_return_w_None.
Qed.

(** ** The step loop *)

(** One turn of the loop, for a run that has emitted [t] so far. *)
Lemma loop_turn {C} (total i : nat) (name : string) (fn : C -> M (option error))
    (cfg : C) rest env h t w :
  let r := start_step total i name fn cfg env h t w in
  prepend t (for_range ((i, (name, fn)) :: rest) (loop_body total cfg) env (h ++ t) w) =
  match val r with
  | Some e =>
      mkRes (Some (Errorf_w (name +:+ " failed: ") e))
            (after_step total i name t r) (world r)
  | None =>
      prepend (after_step total i name t r ++ blank)
        (for_range rest (loop_body total cfg) env
           (h ++ after_step total i name t r ++ blank) (world r))
  end.
Proof.
  intros r. subst r. unfold start_step, after_step, blank.
  assert (Hh : forall x y, ((h ++ t) ++ [x]) ++ [y] = h ++ t ++ [x; y])
    by (intros; now rewrite <- !app_assoc).
  assert (Hb : loop_body total cfg (i, (name, fn)) env (h ++ t) w =
               let r := fn cfg env (h ++ t ++ step_banner i total name) w in
               match val r with
               | Some e => mkRes (Some (Errorf_w (name +:+ " failed: ") e))
                                 (step_banner i total name ++ out r) (world r)
               | None => mkRes None (step_banner i total name ++ out r ++ [Stdout nl])
                               (world r)
               end).
  { unfold loop_body, Print, Println. simpl fst; simpl snd.
    rewrite emit_prepend. rewrite emit_prepend. rewrite prepend_prepend, Hh.
    rewrite or_return_w_prepend. unfold step_banner. cbv zeta.
    destruct (val (fn cfg env _ w)); [reflexivity|].
    rewrite emit_prepend. unfold prepend, ret. simpl. reflexivity. }
  simpl for_range. rewrite or_return_prepend, Hb. cbv zeta.
  destruct (val (fn cfg env (h ++ t ++ step_banner i total name) w)) as [e|].
  - reflexivity.
  - cbn [val out world]. rewrite prepend_prepend.
    rewrite <- !app_assoc. reflexivity.
Qed.

Lemma prepend_or_return (t : list event) (c k : M (option error)) env h w :
  prepend t (or_return c k env (h ++ t) w) =
  match val (prepend t (c env (h ++ t) w)) with
  | Some e =>
      mkRes (Some e) (out (prepend t (c env (h ++ t) w)))
            (world (prepend t (c env (h ++ t) w)))
  | None =>
      prepend (out (prepend t (c env (h ++ t) w)))
        (k env (h ++ out (prepend t (c env (h ++ t) w)))
           (world (prepend t (c env (h ++ t) w))))
  end.
Proof.
  rewrite or_return_prepend. cbn [prepend val out world].
  destruct (val (c env (h ++ t) w)); [reflexivity|].
  rewrite prepend_prepend, app_assoc. reflexivity.
Qed.

Lemma prepend_loop_end {C} (total : nat) (cfg : C) (t : list event) env h w :
  prepend t (for_range [] (loop_body total cfg) env h w) = mkRes None t w.
Proof. unfold prepend. simpl. now rewrite app_nil_r. Qed.

(** ** The setup sequencer *)

Lemma ValidateConfig_silent env h w :
  out (ValidateConfig env h w) = [] /\ world (ValidateConfig env h w) = w.
Proof.
  unfold ValidateConfig. rewrite bind_eq. simpl.
  now destruct (0 <? length _)%nat.
Qed.

Lemma checkGcloud_found env h w :
  lookPath env "gcloud" = true -> checkGcloud env h w = mkRes None [] w.
Proof. intros H. unfold checkGcloud, LookPath, bind, ask, ret. simpl. now rewrite H. Qed.

Lemma checkGH_authenticated env h w :
  lookPath env "gh" = true -> runCmd env h "gh" ["auth"; "status"] = None ->
  checkGH env h w = mkRes None [Run "gh" ["auth"; "status"] None] w.
Proof.
  intros H1 H2. unfold checkGH, LookPath, Command_Run, bind, ask, ret. simpl.
  rewrite H1. rewrite !app_nil_r. now rewrite H2.
Qed.

Lemma loadConfig_silent env h w :
  out (loadConfig env h w) = [] /\ world (loadConfig env h w) = w.
Proof. now unfold loadConfig, GetString, bind, ask, ret. Qed.

(** The configuration does not depend on the history or on the world. *)
Lemma loadConfig_val env h w h' w' :
  val (loadConfig env h w) = val (loadConfig env h' w').
Proof. reflexivity. Qed.

Lemma setupSteps_indexed :
  imap (fun i s => (i, s)) setupSteps =
  [ (0%nat, ("Enabling APIs", enableAPIs));
    (1%nat, ("Creating Service Account", createServiceAccount));
    (2%nat, ("Setting up Workload Identity Federation", setupWorkloadIdentity));
    (3%nat, ("Creating Artifact Registry", createArtifactRegistry));
    (4%nat, ("Configuring GitHub Repository", configureGitHub)) ].
Proof. reflexivity. Qed.


Lemma run_steps_setup cfg :
  run_steps setupSteps cfg =
  for_range
    [ (0%nat, ("Enabling APIs", enableAPIs));
      (1%nat, ("Creating Service Account", createServiceAccount));
      (2%nat, ("Setting up Workload Identity Federation", setupWorkloadIdentity));
      (3%nat, ("Creating Artifact Registry", createArtifactRegistry));
      (4%nat, ("Configuring GitHub Repository", configureGitHub)) ]
    (loop_body 5 cfg).
Proof. reflexivity. Qed.

(** The loop of [runSetup], for a run that has emitted [t0] before it. *)
Lemma setup_loop cfg env h t0 w :
  let r1 := start_step 5 0 "Enabling APIs" enableAPIs cfg env h t0 w in
  let t1 := after_step 5 0 "Enabling APIs" t0 r1 in
  let r2 := start_step 5 1 "Creating Service Account" createServiceAccount
              cfg env h (t1 ++ blank) (world r1) in
  let t2 := after_step 5 1 "Creating Service Account" (t1 ++ blank) r2 in
  let r3 := start_step 5 2 "Setting up Workload Identity Federation" setupWorkloadIdentity
              cfg env h (t2 ++ blank) (world r2) in
  let t3 := after_step 5 2 "Setting up Workload Identity Federation" (t2 ++ blank) r3 in
  let r4 := start_step 5 3 "Creating Artifact Registry" createArtifactRegistry
              cfg env h (t3 ++ blank) (world r3) in
  let t4 := after_step 5 3 "Creating Artifact Registry" (t3 ++ blank) r4 in
  let r5 := start_step 5 4 "Configuring GitHub Repository" configureGitHub
              cfg env h (t4 ++ blank) (world r4) in
  let t5 := after_step 5 4 "Configuring GitHub Repository" (t4 ++ blank) r5 in
  prepend t0 (run_steps setupSteps cfg env (h ++ t0) w) =
  match val r1, val r2, val r3, val r4, val r5 with
  | Some e, _, _, _, _ =>
      mkRes (Some (Errorf_w "Enabling APIs failed: " e)) t1 (world r1)
  | None, Some e, _, _, _ =>
      mkRes (Some (Errorf_w "Creating Service Account failed: " e)) t2 (world r2)
  | None, None, Some e, _, _ =>
      mkRes (Some (Errorf_w "Setting up Workload Identity Federation failed: " e))
            t3 (world r3)
  | None, None, None, Some e, _ =>
      mkRes (Some (Errorf_w "Creating Artifact Registry failed: " e)) t4 (world r4)
  | None, None, None, None, Some e =>
      mkRes (Some (Errorf_w "Configuring GitHub Repository failed: " e)) t5 (world r5)
  | None, None, None, None, None =>
      mkRes None (t5 ++ blank) (world r5)
  end.
Proof.
  intros r1 t1 r2 t2 r3 t3 r4 t4 r5 t5. rewrite run_steps_setup.
  rewrite loop_turn. fold r1 t1. destruct (val r1); [reflexivity|].
  rewrite loop_turn. fold r2 t2. destruct (val r2); [reflexivity|].
  rewrite loop_turn. fold r3 t3. destruct (val r3); [reflexivity|].
  rewrite loop_turn. fold r4 t4. destruct (val r4); [reflexivity|].
  rewrite loop_turn. fold r5 t5. destruct (val r5); [reflexivity|].
  apply prepend_loop_end.
Qed.

(** [runSetup] after successful preliminary checks: the authentication
    check and the header have been emitted, the loop and the footer
    remain. *)
Lemma runSetup_after_checks env h w :
  val (ValidateConfig env h w) = None ->
  lookPath env "gcloud" = true ->
  lookPath env "gh" = true ->
  runCmd env h "gh" ["auth"; "status"] = None ->
  let cfg := val (loadConfig env h w) in
  let t0 := Run "gh" ["auth"; "status"] None :: setup_header cfg in
  runSetup env h w =
  prepend t0
    (or_return (run_steps setupSteps cfg) (emit_all setup_footer ;; ret None)
       env (h ++ t0) w).
Proof.
  intros Hv Hg Hgh Hauth cfg t0.
  unfold runSetup.
  destruct (ValidateConfig_silent env h w) as [Vo Vw].
  rewrite or_return_silent by assumption.
  rewrite or_return_silent by (now rewrite checkGcloud_found).
  rewrite or_return_prepend, !(checkGH_authenticated env h w Hgh Hauth).
  cbn [val out world].
  destruct (loadConfig_silent env (h ++ [Run "gh" ["auth"; "status"] None]) w) as [Lo Lw].
  rewrite bind_silent by assumption.
  rewrite (loadConfig_val env _ w h w). fold cfg.
  rewrite emit_all_prepend, prepend_prepend, <- app_assoc.
  reflexivity.
Qed.

(** C1: once the preliminary checks have passed, [runSetup] runs the
    five steps in series in the fixed order enable APIs, create service
    account, set up Workload Identity Federation, create Artifact
    Registry, configure GitHub repository. Step [k+1] starts from the
    state step [k] left and only if step [k] returned nil; when a step
    returns an error, [runSetup] returns that error wrapped with the
    step name, having emitted nothing and changed nothing after the
    failing step (no later step, no retry, no rollback). *)
Theorem runSetup_steps_in_series env h w :
  val (ValidateConfig env h w) = None ->
  lookPath env "gcloud" = true ->
  lookPath env "gh" = true ->
  runCmd env h "gh" ["auth"; "status"] = None ->
  let cfg := val (loadConfig env h w) in
  let t0 := Run "gh" ["auth"; "status"] None :: setup_header cfg in
  let r1 := start_step 5 0 "Enabling APIs" enableAPIs cfg env h t0 w in
  let t1 := after_step 5 0 "Enabling APIs" t0 r1 in
  let r2 := start_step 5 1 "Creating Service Account" createServiceAccount
              cfg env h (t1 ++ blank) (world r1) in
  let t2 := after_step 5 1 "Creating Service Account" (t1 ++ blank) r2 in
  let r3 := start_step 5 2 "Setting up Workload Identity Federation" setupWorkloadIdentity
              cfg env h (t2 ++ blank) (world r2) in
  let t3 := after_step 5 2 "Setting up Workload Identity Federation" (t2 ++ blank) r3 in
  let r4 := start_step 5 3 "Creating Artifact Registry" createArtifactRegistry
              cfg env h (t3 ++ blank) (world r3) in
  let t4 := after_step 5 3 "Creating Artifact Registry" (t3 ++ blank) r4 in
  let r5 := start_step 5 4 "Configuring GitHub Repository" configureGitHub
              cfg env h (t4 ++ blank) (world r4) in
  let t5 := after_step 5 4 "Configuring GitHub Repository" (t4 ++ blank) r5 in
  runSetup env h w =
  match val r1, val r2, val r3, val r4, val r5 with
  | Some e, _, _, _, _ =>
      mkRes (Some (Errorf_w "Enabling APIs failed: " e)) t1 (world r1)
  | None, Some e, _, _, _ =>
      mkRes (Some (Errorf_w "Creating Service Account failed: " e)) t2 (world r2)
  | None, None, Some e, _, _ =>
      mkRes (Some (Errorf_w "Setting up Workload Identity Federation failed: " e))
            t3 (world r3)
  | None, None, None, Some e, _ =>
      mkRes (Some (Errorf_w "Creating Artifact Registry failed: " e)) t4 (world r4)
  | None, None, None, None, Some e =>
      mkRes (Some (Errorf_w "Configuring GitHub Repository failed: " e)) t5 (world r5)
  | None, None, None, None, None =>
      mkRes None (t5 ++ blank ++ setup_footer) (world r5)
  end.
Proof.
  intros Hv Hg Hgh Hauth cfg t0 r1 t1 r2 t2 r3 t3 r4 t4 r5 t5.
  rewrite (runSetup_after_checks env h w Hv Hg Hgh Hauth). fold cfg t0.
  rewrite prepend_or_return, (setup_loop cfg env h t0 w).
  fold r1 t1 r2 t2 r3 t3 r4 t4 r5 t5.
  destruct (val r1); [reflexivity|].
  destruct (val r2); [reflexivity|].
  destruct (val r3); [reflexivity|].
  destruct (val r4); [reflexivity|].
  destruct (val r5); [reflexivity|].
  cbn [val out world]. rewrite emit_all_prepend, prepend_prepend.
  unfold prepend, ret. cbn [val out world]. now rewrite app_nil_r, <- app_assoc.
Qed.

(** ** The top level *)

Lemma initConfig_eq env h w :
  initConfig env h w =
  mkRes tt (match configFileUsed env with
            | Some file => [Stdout ("Using config file: " +:+ file +:+ nl)]
            | None => []
            end) w.
Proof.
  unfold initConfig, bind, ask, ret, Println, emit.
  now destruct (configFileUsed env).
Qed.

Lemma Execute_eq (runE : M (option error)) env h w :
  let init := out (initConfig env h w) in
  let r := runE env (h ++ init) w in
  Execute runE env h w =
  if panicked (out r) then mkRes tt (init ++ out r ++ [Exit 2]) (world r)
  else
    match val r with
    | Some e =>
        mkRes tt (init ++ out r
                  ++ [ Stderr ("Error: " +:+ Error e +:+ nl);
                       Stderr (usageString env +:+ nl);
                       Stderr (Error e +:+ nl);
                       Exit 1 ])
              (world r)
    | None => mkRes tt (init ++ out r) (world r)
    end.
Proof.
  cbv zeta. unfold Execute. rewrite bind_eq, initConfig_eq. cbn [val out world].
  set (init := match configFileUsed env with Some _ => _ | None => _ end).
  unfold unless_panicked.
  destruct (runE env (h ++ init) w) as [err d1 w1]. cbn [val out world].
  destruct (panicked d1); [reflexivity|].
  destruct err as [e|]; cbn; [reflexivity|]. now rewrite app_nil_r.
Qed.

(** Nothing in the setup command can panic. *)
Section NoPanic.
Local Abbreviation calm := (emits (fun _ => True) (fun e => is_Panic e = false)).

Lemma calm_runCommandSilent name args : calm (runCommandSilent name args).
Proof. unfold runCommandSilent. emits_go. Qed.

Lemma calm_gh_set kind repo name value : calm (gh_set kind repo name value).
Proof. unfold gh_set. emits_go. Qed.
#[local] Hint Resolve calm_runCommandSilent calm_gh_set : emits.

Lemma calm_setupSteps cfg : Forall (fun s => calm (s.2 cfg)) setupSteps.
Proof.
  unfold setupSteps. repeat constructor; cbn [snd].
  - unfold enableAPIs. emits_go.
  - unfold createServiceAccount. emits_go.
  - unfold setupWorkloadIdentity. emits_go.
  - unfold createArtifactRegistry. emits_go.
  - unfold configureGitHub, range_map. emits_go.
Qed.

Lemma calm_runSetup : calm runSetup.
Proof.
  unfold runSetup, ValidateConfig, checkGcloud, checkGH, loadConfig. emits_go.
  - apply emits_emit_all. unfold setup_header. now repeat constructor.
  - apply emits_run_steps; [reflexivity|]. apply calm_setupSteps.
  - apply emits_emit_all. unfold setup_footer. now repeat constructor.
Qed.

End NoPanic.

Lemma runSetup_never_panics env h w : panicked (out (runSetup env h w)) = false.
Proof.
  pose proof (calm_runSetup env h w I) as H.
  unfold panicked. induction H as [|e tr He _ IH]; [reflexivity|].
  cbn [existsb]. now rewrite He.
Qed.

(** An error returned by [runSetup] after the preliminary checks is the
    error of one of the five steps, wrapped with the name of that step. *)
Lemma runSetup_error_wrapped env h w e :
  val (ValidateConfig env h w) = None ->
  lookPath env "gcloud" = true ->
  lookPath env "gh" = true ->
  runCmd env h "gh" ["auth"; "status"] = None ->
  val (runSetup env h w) = Some e ->
  exists name fn hk wk e',
    In (name, fn) setupSteps /\
    val (fn (val (loadConfig env h w)) env hk wk) = Some e' /\
    e = Errorf_w (name +:+ " failed: ") e'.
Proof.
  intros Hv Hg Hgh Hauth. rewrite (runSetup_after_checks env h w Hv Hg Hgh Hauth).
  cbv zeta.
  set (cfg := val (loadConfig env h w)).
  set (t0 := Run "gh" ["auth"; "status"] None :: setup_header cfg).
  set (r1 := start_step 5 0 "Enabling APIs" enableAPIs cfg env h t0 w).
  set (t1 := after_step 5 0 "Enabling APIs" t0 r1).
  set (r2 := start_step 5 1 "Creating Service Account" createServiceAccount
               cfg env h (t1 ++ blank) (world r1)).
  set (t2 := after_step 5 1 "Creating Service Account" (t1 ++ blank) r2).
  set (r3 := start_step 5 2 "Setting up Workload Identity Federation"
               setupWorkloadIdentity cfg env h (t2 ++ blank) (world r2)).
  set (t3 := after_step 5 2 "Setting up Workload Identity Federation" (t2 ++ blank) r3).
  set (r4 := start_step 5 3 "Creating Artifact Registry" createArtifactRegistry
               cfg env h (t3 ++ blank) (world r3)).
  set (t4 := after_step 5 3 "Creating Artifact Registry" (t3 ++ blank) r4).
  set (r5 := start_step 5 4 "Configuring GitHub Repository" configureGitHub
               cfg env h (t4 ++ blank) (world r4)).
  rewrite prepend_or_return, (setup_loop cfg env h t0 w).
  fold r1 t1 r2 t2 r3 t3 r4 t4 r5.
  destruct (val r1) as [e1|] eqn:E1.
  { cbn [val]. intros [= <-].
    exists "Enabling APIs", enableAPIs,
      (h ++ t0 ++ step_banner 0 5 "Enabling APIs"), w, e1.
    split; [now left | split; [exact E1 | reflexivity]]. }
  destruct (val r2) as [e2|] eqn:E2.
  { cbn [val]. intros [= <-].
    exists "Creating Service Account", createServiceAccount,
      (h ++ (t1 ++ blank) ++ step_banner 1 5 "Creating Service Account"), (world r1), e2.
    split; [right; now left | split; [exact E2 | reflexivity]]. }
  destruct (val r3) as [e3|] eqn:E3.
  { cbn [val]. intros [= <-].
    exists "Setting up Workload Identity Federation", setupWorkloadIdentity,
      (h ++ (t2 ++ blank) ++ step_banner 2 5 "Setting up Workload Identity Federation"),
      (world r2), e3.
    split; [do 2 right; now left | split; [exact E3 | reflexivity]]. }
  destruct (val r4) as [e4|] eqn:E4.
  { cbn [val]. intros [= <-].
    exists "Creating Artifact Registry", createArtifactRegistry,
      (h ++ (t3 ++ blank) ++ step_banner 3 5 "Creating Artifact Registry"), (world r3), e4.
    split; [do 3 right; now left | split; [exact E4 | reflexivity]]. }
  destruct (val r5) as [e5|] eqn:E5.
  { cbn [val]. intros [= <-].
    exists "Configuring GitHub Repository", configureGitHub,
      (h ++ (t4 ++ blank) ++ step_banner 4 5 "Configuring GitHub Repository"), (world r4), e5.
    split; [do 4 right; now left | split; [exact E5 | reflexivity]]. }
  cbn [val out world]. rewrite emit_all_prepend. unfold prepend, ret. cbn [val].
  intros He. discriminate He.
Qed.

(** C4, amended: when the command returns an error, [Execute] prints it
    to standard error and exits with status 1, and an error of a setup
    step reaches it wrapped with the name of the step.  The one other
    piece of failure handling at the top level is cobra's: by then
    [rootCmd.Execute] has printed the error behind [Error:] and the
    usage text of the command to standard error.  Without an error
    nothing is added to what the command printed. *)
Theorem Execute_prints_error_and_exits :
  (forall (runE : M (option error)) env h w,
     let init := out (initConfig env h w) in
     let r := runE env (h ++ init) w in
     init = match configFileUsed env with
            | Some file => [Stdout ("Using config file: " +:+ file +:+ nl)]
            | None => []
            end /\
     (panicked (out r) = false ->
      Execute runE env h w =
      match val r with
      | Some e =>
          mkRes tt (init ++ out r
                    ++ [ Stderr ("Error: " +:+ Error e +:+ nl);
                         Stderr (usageString env +:+ nl);
                         Stderr (Error e +:+ nl);
                         Exit 1 ])
                (world r)
      | None => mkRes tt (init ++ out r) (world r)
      end) /\
     (panicked (out r) = true ->
      Execute runE env h w = mkRes tt (init ++ out r ++ [Exit 2]) (world r))) /\
  (forall env h w, panicked (out (runSetup env h w)) = false) /\
  (forall env h0 w e,
     let init := out (initConfig env h0 w) in
     let h := h0 ++ init in
     val (ValidateConfig env h w) = None ->
     lookPath env "gcloud" = true ->
     lookPath env "gh" = true ->
     runCmd env h "gh" ["auth"; "status"] = None ->
     val (runSetup env h w) = Some e ->
     exists name fn hk wk e',
       In (name, fn) setupSteps /\
       val (fn (val (loadConfig env h w)) env hk wk) = Some e' /\
       e = Errorf_w (name +:+ " failed: ") e' /\
       out (Execute runSetup env h0 w) =
       init ++ out (runSetup env h w)
       ++ [ Stderr ("Error: " +:+ name +:+ " failed: " +:+ Error e' +:+ nl);
            Stderr (usageString env +:+ nl);
            Stderr (name +:+ " failed: " +:+ Error e' +:+ nl);
            Exit 1 ]).
Proof.
  split; [|split].
  - intros runE env h w. cbv zeta. split; [now rewrite initConfig_eq|].
    pose proof (Execute_eq runE env h w) as H. cbv zeta in H.
    split; intros Hp; now rewrite H, Hp.
  - exact runSetup_never_panics.
  - intros env h0 w e. cbv zeta. intros Hv Hg Hgh Hauth He.
    destruct (runSetup_error_wrapped env _ w e Hv Hg Hgh Hauth He)
      as (name & fn & hk & wk & e' & Hin & Hfn & ->).
    exists name, fn, hk, wk, e'. repeat split; try assumption.
    pose proof (Execute_eq runSetup env h0 w) as H. cbv zeta in H.
    rewrite H, runSetup_never_panics, He. cbn [out Error].
    now rewrite !append_assoc.
Qed.

(** ** Failing commands in the setup steps *)

Lemma failures_handled_app (t1 t2 : list event) :
  failures_handled t1 = true -> no_fatal t1 = true ->
  failures_handled (t1 ++ t2) = failures_handled t2.
Proof.
  induction t1 as [|e t1 IH]; [reflexivity|].
  intros H1 H2. simpl in H2. apply andb_true_iff in H2 as [He H2].
  destruct e as [s|s|n a [msg|]|c|s]; simpl in *; auto.
  rewrite He in *.
  destruct t1 as [|e' t1]; [discriminate|].
  apply andb_true_iff in H1 as [Hn H1].
  change ((e' :: t1) ++ t2) with (e' :: (t1 ++ t2)) in *.
  cbv iota. rewrite Hn. simpl andb. apply IH; assumption.
Qed.

Lemma no_fatal_app (t1 t2 : list event) :
  no_fatal (t1 ++ t2) = no_fatal t1 && no_fatal t2.
Proof. apply forallb_app. Qed.

Lemma handles_ret_None : handles_failures (ret None).
Proof. intros env h w. now split. Qed.

Lemma handles_or_return (c k : M (option error)) :
  handles_failures c -> handles_failures k -> handles_failures (or_return c k).
Proof.
  intros Hc Hk env h w. rewrite or_return_prepend.
  destruct (Hc env h w) as [Hc1 Hc2].
  destruct (val (c env h w)) as [e|] eqn:E; cbn [val out prepend].
  - split; [exact Hc1|]. rewrite <- Hc2. split; discriminate.
  - assert (Hn : no_fatal (out (c env h w)) = true) by now apply Hc2.
    destruct (Hk env (h ++ out (c env h w)) (world (c env h w))) as [Hk1 Hk2].
    rewrite failures_handled_app, no_fatal_app, Hn by assumption.
    split; assumption.
Qed.

Lemma handles_or_return_w msg (c k : M (option error)) :
  handles_failures c -> handles_failures k -> handles_failures (or_return_w msg c k).
Proof.
  intros Hc Hk env h w. rewrite or_return_w_prepend.
  destruct (Hc env h w) as [Hc1 Hc2].
  destruct (val (c env h w)) as [e|] eqn:E; cbn [val out prepend].
  - split; [exact Hc1|]. rewrite <- Hc2. split; discriminate.
  - assert (Hn : no_fatal (out (c env h w)) = true) by now apply Hc2.
    destruct (Hk env (h ++ out (c env h w)) (world (c env h w))) as [Hk1 Hk2].
    rewrite failures_handled_app, no_fatal_app, Hn by assumption.
    split; assumption.
Qed.

Lemma handles_for_range {A} (xs : list A) (body : A -> M (option error)) :
  (forall x, handles_failures (body x)) -> handles_failures (for_range xs body).
Proof.
  intros Hb. induction xs as [|x xs IH]; simpl.
  - apply handles_ret_None.
  - apply handles_or_return; [apply Hb | exact IH].
Qed.

Lemma handles_Print (s : string) (k : M (option error)) :
  handles_failures k -> handles_failures (Print s ;; k).
Proof.
  intros Hk env h w. unfold Print. rewrite emit_prepend. apply Hk.
Qed.

Lemma handles_Println (s : string) (k : M (option error)) :
  handles_failures k -> handles_failures (Println s ;; k).
Proof.
  intros Hk env h w. unfold Println. rewrite emit_prepend. apply Hk.
Qed.

Lemma handles_flag (f : Env -> bool) (k : bool -> M (option error)) :
  (forall b, handles_failures (k b)) -> handles_failures (b <- flag f ;; k b).
Proof.
  intros Hk env h w. rewrite bind_silent by reflexivity. apply Hk.
Qed.

Lemma handles_ask (k : Env -> M (option error)) :
  (forall e, handles_failures (k e)) -> handles_failures (e <- ask ;; k e).
Proof.
  intros Hk env h w. rewrite bind_silent by reflexivity. apply Hk.
Qed.

(** A command whose failure is returned. *)
Lemma handles_Command_Run (name : string) (args : list string) :
  is_idempotent_create args = false -> handles_failures (Command_Run name args).
Proof.
  intros Ha env h w. unfold Command_Run. cbn [val out].
  destruct (runCmd env h name args) as [msg|]; simpl; rewrite ?Ha; now split.
Qed.

Lemma runCommandSilent_eq (name : string) (args : list string) env h w :
  runCommandSilent name args env h w =
  if dryRun env
  then mkRes None [Stdout ("  [dry-run] " +:+ name +:+ " " +:+ Join args " " +:+ nl)] w
  else mkRes (RunError <$> runCmd env h name args)
             [Run name args (runCmd env h name args)] w.
Proof.
  unfold runCommandSilent. rewrite bind_silent by reflexivity.
  unfold flag, ask, ret, bind. cbn [val].
  destruct (dryRun env); reflexivity.
Qed.

Lemma runCommand_eq (name : string) (args : list string) env h w :
  runCommand name args env h w =
  if dryRun env
  then mkRes None [Stdout ("  [dry-run] " +:+ name +:+ " " +:+ Join args " " +:+ nl)] w
  else mkRes (RunError <$> runCmd env h name args)
             [Run name args (runCmd env h name args)] w.
Proof.
  unfold runCommand. rewrite bind_silent by reflexivity.
  unfold flag, ask, ret, bind. cbn [val].
  destruct (dryRun env); reflexivity.
Qed.

Lemma handles_runCommandSilent (name : string) (args : list string) :
  is_idempotent_create args = false ->
  handles_failures (runCommandSilent name args).
Proof.
  intros Ha env h w. rewrite runCommandSilent_eq.
  destruct (dryRun env); [now split|].
  destruct (runCmd env h name args) as [msg|]; simpl; rewrite ?Ha; now split.
Qed.

(** An idempotent create whose failure is answered with a note. *)
Lemma handles_ignored_create (name : string) (args : list string) (what : string)
    (k : M (option error)) :
  is_idempotent_create args = true ->
  is_continue_note (continue_note what) = true ->
  handles_failures k ->
  handles_failures
    (err <- runCommandSilent name args ;;
     match err with
     | Some _ => Println ("  (" +:+ what +:+ " may already exist, continuing...)")
     | None => ret tt
     end ;;
     k).
Proof.
  intros Ha Hn Hk env h w.
  rewrite bind_eq, runCommandSilent_eq.
  destruct (dryRun env); [|destruct (runCmd env h name args) as [msg|]];
    cbn [val out world fmap option_fmap option_map].
  - rewrite bind_silent by reflexivity. cbn [app failures_handled no_fatal forallb].
    apply Hk.
  - unfold Println. rewrite emit_prepend. cbn [prepend val out world app].
    destruct (Hk env ((h ++ [Run name args (Some msg)])
                      ++ [Stdout (("  (" +:+ what +:+ " may already exist, continuing...)") +:+ nl)])
                 w) as [Hk1 Hk2].
    cbn [failures_handled no_fatal forallb]. rewrite Ha.
    fold (continue_note what). rewrite Hn. cbn [andb].
    split; assumption.
  - rewrite bind_silent by reflexivity. cbn [app failures_handled no_fatal forallb].
    apply Hk.
Qed.

Lemma handles_enableAPIs cfg : handles_failures (enableAPIs cfg).
Proof.
  unfold enableAPIs. apply handles_or_return; [|apply handles_ret_None].
  apply handles_for_range. intros api.
  apply handles_Print. now apply handles_runCommandSilent.
Qed.

Lemma handles_createServiceAccount cfg : handles_failures (createServiceAccount cfg).
Proof.
  unfold createServiceAccount. apply handles_Print.
  apply (handles_ignored_create _ _ "service account"); [reflexivity..|].
  apply handles_or_return; [|apply handles_ret_None].
  apply handles_for_range. intros role.
  apply handles_Print. now apply handles_runCommandSilent.
Qed.

Lemma handles_setupWorkloadIdentity cfg : handles_failures (setupWorkloadIdentity cfg).
Proof.
  unfold setupWorkloadIdentity. apply handles_Println.
  apply (handles_ignored_create _ _ "pool"); [reflexivity..|].
  apply handles_Println.
  apply (handles_ignored_create _ _ "provider"); [reflexivity..|].
  apply handles_Println. cbv zeta. now apply handles_runCommandSilent.
Qed.

Lemma handles_createArtifactRegistry cfg : handles_failures (createArtifactRegistry cfg).
Proof.
  unfold createArtifactRegistry. apply handles_Print.
  apply (handles_ignored_create _ _ "repository"); [reflexivity..|].
  apply handles_ret_None.
Qed.

Lemma handles_gh_set kind repo name value :
  is_idempotent_create [kind] = false ->
  handles_failures (gh_set kind repo name value).
Proof.
  intros Hk. unfold gh_set. apply handles_Print, handles_flag. intros [|].
  - apply handles_Print, handles_ret_None.
  - apply handles_or_return_w; [|apply handles_ret_None].
    apply handles_Command_Run.
    revert Hk. unfold is_idempotent_create, idempotent_creates. simpl.
    now destruct (String.eqb "iam" kind), (String.eqb "artifacts" kind).
Qed.

Lemma handles_configureGitHub cfg : handles_failures (configureGitHub cfg).
Proof.
  unfold configureGitHub, range_map. cbv zeta. apply handles_Println.
  apply handles_or_return.
  { apply handles_ask. intros e. apply handles_for_range. intros kv.
    now apply handles_gh_set. }
  apply handles_Println. apply handles_or_return; [|apply handles_ret_None].
  apply handles_ask. intros e. apply handles_for_range. intros kv.
  now apply handles_gh_set.
Qed.

Lemma handles_setupSteps name fn cfg :
  In (name, fn) setupSteps -> handles_failures (fn cfg).
Proof.
  unfold setupSteps. simpl.
  intros [[= <- <-]|[[= <- <-]|[[= <- <-]|[[= <- <-]|[[= <- <-]|[]]]]]].
  - apply handles_enableAPIs.
  - apply handles_createServiceAccount.
  - apply handles_setupWorkloadIdentity.
  - apply handles_createArtifactRegistry.
  - apply handles_configureGitHub.
Qed.

(** What the executable check means. *)
Lemma failures_handled_split (tr : list event) :
  failures_handled tr = true ->
  forall pre n a msg post, tr = pre ++ Run n a (Some msg) :: post ->
    if is_idempotent_create a
    then exists what post', post = continue_note what :: post'
    else post = [].
Proof.
  induction tr as [|e tr IH]; intros H pre n a msg post E.
  - now destruct pre.
  - destruct pre as [|e' pre]; simpl in E; injection E as -> ->.
    + simpl in H. destruct (is_idempotent_create a).
      * destruct post as [|e post]; [discriminate|].
        apply andb_true_iff in H as [H _].
        unfold is_continue_note in H. apply existsb_exists in H as (what & _ & H).
        destruct e as [s| | | |]; try discriminate.
        apply String.eqb_eq in H as ->. now exists what, post.
      * now destruct post.
    + apply (IH) with (pre := pre) (n := n) (msg := msg); [|reflexivity].
      destruct e' as [s|s|n' a' [msg'|]|c|s]; simpl in H; auto.
      destruct (is_idempotent_create a').
      * destruct (pre ++ Run n a (Some msg) :: post); [discriminate|].
        now apply andb_true_iff in H as [_ H].
      * now destruct pre.
Qed.

Lemma no_fatal_spec (tr : list event) :
  no_fatal tr = true <->
  forall n a msg, In (Run n a (Some msg)) tr -> is_idempotent_create a = true.
Proof.
  unfold no_fatal. rewrite forallb_forall. split.
  - intros H n a msg Hin. exact (H _ Hin).
  - intros H [s|s|n a [msg|]|c|s] Hin; try reflexivity. exact (H n a msg Hin).
Qed.

(** Evaluate a step in an environment whose dry-run flag is known,
    splitting on the outcome of each command in turn. *)
Ltac run_step Hdry :=
  cbv [bind ret ask flag emit Print Println Command_Run runCommandSilent
       or_return or_return_w for_range val out world fmap option_fmap option_map];
  repeat first
    [ rewrite Hdry
    | match goal with
      | |- context [match runCmd ?e ?h ?n ?a with _ => _ end] =>
          destruct (runCmd e h n a)
      end
    | progress cbv beta iota ].

Lemma setupWorkloadIdentity_runs_all cfg env h w :
  dryRun env = false ->
  exists a1 a2 a3,
    invocations (out (setupWorkloadIdentity cfg env h w)) =
    [ ("gcloud", "iam" :: "workload-identity-pools" :: "create" :: a1);
      ("gcloud", "iam" :: "workload-identity-pools" :: "providers" :: "create-oidc" :: a2);
      ("gcloud", "iam" :: "service-accounts" :: "add-iam-policy-binding" :: a3) ].
Proof.
  intros Hdry. unfold setupWorkloadIdentity. do 3 eexists.
  run_step Hdry; reflexivity.
Qed.

Lemma createServiceAccount_goes_on cfg env h w :
  dryRun env = false ->
  exists a0 a1 rest,
    invocations (out (createServiceAccount cfg env h w)) =
    ("gcloud", "iam" :: "service-accounts" :: "create" :: a0)
    :: ("gcloud", "projects" :: "add-iam-policy-binding" :: a1) :: rest.
Proof.
  intros Hdry. unfold createServiceAccount, roles.
  run_step Hdry; do 3 eexists; reflexivity.
Qed.

Lemma createArtifactRegistry_never_fails cfg env h w :
  val (createArtifactRegistry cfg env h w) = None.
Proof.
  unfold createArtifactRegistry. rewrite bind_eq. cbn [val].
  rewrite bind_eq. cbn [val]. rewrite bind_eq. reflexivity.
Qed.

Lemma createArtifactRegistry_runs_create cfg env h w :
  dryRun env = false ->
  exists a,
    invocations (out (createArtifactRegistry cfg env h w)) =
    [("gcloud", "artifacts" :: "repositories" :: "create" :: a)].
Proof.
  intros Hdry. unfold createArtifactRegistry. eexists.
  run_step Hdry; reflexivity.
Qed.

(** C3: in each of the five setup steps, a failed idempotent create (of
    the service account, the workload identity pool, the OIDC provider
    or the artifact repository) is followed at once by a note that the
    resource may already exist and does not make the step fail, while
    any other failed command is the last thing the step does and makes
    it fail; the step returns nil exactly when no command other than an
    idempotent create failed. After a failed create the step goes on:
    the first role is still granted, all three federation commands are
    run, and the registry step returns nil. *)
Theorem idempotent_create_failures_ignored name fn cfg env h w :
  In (name, fn) setupSteps ->
  (forall pre n a msg post,
     out (fn cfg env h w) = pre ++ Run n a (Some msg) :: post ->
     if is_idempotent_create a
     then exists what post', post = continue_note what :: post'
     else post = [] /\ val (fn cfg env h w) <> None) /\
  (val (fn cfg env h w) = None <->
   forall n a msg, In (Run n a (Some msg)) (out (fn cfg env h w)) ->
                   is_idempotent_create a = true) /\
  (dryRun env = false ->
   (exists a0 a1 rest,
      invocations (out (createServiceAccount cfg env h w)) =
      ("gcloud", "iam" :: "service-accounts" :: "create" :: a0)
      :: ("gcloud", "projects" :: "add-iam-policy-binding" :: a1) :: rest) /\
   (exists a1 a2 a3,
      invocations (out (setupWorkloadIdentity cfg env h w)) =
      [ ("gcloud", "iam" :: "workload-identity-pools" :: "create" :: a1);
        ("gcloud", "iam" :: "workload-identity-pools" :: "providers" :: "create-oidc" :: a2);
        ("gcloud", "iam" :: "service-accounts" :: "add-iam-policy-binding" :: a3) ]) /\
   (exists a,
      invocations (out (createArtifactRegistry cfg env h w)) =
      [("gcloud", "artifacts" :: "repositories" :: "create" :: a)]) /\
   val (createArtifactRegistry cfg env h w) = None).
Proof.
  intros Hin.
  destruct (handles_setupSteps name fn cfg Hin env h w) as [Hh Hv].
  rewrite no_fatal_spec in Hv.
  split; [|split; [exact Hv|]].
  - intros pre n a msg post E.
    pose proof (failures_handled_split _ Hh pre n a msg post E) as H.
    destruct (is_idempotent_create a) eqn:Ea; [exact H|].
    split; [exact H|]. intros Hnil.
    rewrite Hv in Hnil. specialize (Hnil n a msg).
    rewrite E, Ea in Hnil. apply diff_false_true, Hnil.
    apply in_or_app. right. now left.
  - intros Hdry. repeat split.
    + now apply createServiceAccount_goes_on.
    + now apply setupWorkloadIdentity_runs_all.
    + now apply createArtifactRegistry_runs_create.
    + apply createArtifactRegistry_never_fails.
Qed.

(** ** Dry runs *)

Lemma invocations_app (t1 t2 : list event) :
  invocations (t1 ++ t2) = invocations t1 ++ invocations t2.
Proof. unfold invocations. apply omap_app. Qed.

Lemma invocations_no_Run (tr : list event) :
  Forall (fun e => is_Run e = false) tr -> invocations tr = [].
Proof.
  induction 1 as [|e tr He _ IH]; [reflexivity|].
  destruct e; try discriminate; exact IH.
Qed.

Lemma gh_set_dry kind repo name value env h w :
  dryRun env = true ->
  gh_set kind repo name value env h w =
  mkRes None
    [ Stdout ("    " +:+ name +:+ nl);
      Stdout ("    [dry-run] gh " +:+ kind +:+ " set " +:+ name +:+ " --repo "
              +:+ repo +:+ nl) ] w.
Proof.
  intros Hdry. unfold gh_set, Print. rewrite emit_prepend.
  rewrite bind_silent by reflexivity.
  unfold flag, ask, ret, bind. cbn [val]. rewrite Hdry. reflexivity.
Qed.

Section DryRun.
Context (E : Env -> Prop).
Hypothesis E_dry : forall env, E env -> dryRun env = true.
Local Abbreviation quiet := (emits E (fun e => is_Run e = false)).

Lemma quiet_runCommandSilent name args : quiet (runCommandSilent name args).
Proof.
  intros env h w HE. rewrite runCommandSilent_eq, (E_dry env HE).
  now repeat constructor.
Qed.

Lemma quiet_gh_set kind repo name value : quiet (gh_set kind repo name value).
Proof.
  intros env h w HE. rewrite gh_set_dry by now apply E_dry.
  now repeat constructor.
Qed.
#[local] Hint Resolve quiet_runCommandSilent quiet_gh_set : emits.

Lemma quiet_enableAPIs cfg : quiet (enableAPIs cfg).
Proof. unfold enableAPIs. emits_go. Qed.

Lemma quiet_createServiceAccount cfg : quiet (createServiceAccount cfg).
Proof. unfold createServiceAccount. emits_go. Qed.

Lemma quiet_setupWorkloadIdentity cfg : quiet (setupWorkloadIdentity cfg).
Proof. unfold setupWorkloadIdentity. emits_go. Qed.

Lemma quiet_createArtifactRegistry cfg : quiet (createArtifactRegistry cfg).
Proof. unfold createArtifactRegistry. emits_go. Qed.

Lemma quiet_configureGitHub cfg : quiet (configureGitHub cfg).
Proof. unfold configureGitHub, range_map. emits_go. Qed.

Lemma quiet_setupSteps name fn cfg : In (name, fn) setupSteps -> quiet (fn cfg).
Proof.
  unfold setupSteps. simpl.
  intros [[= <- <-]|[[= <- <-]|[[= <- <-]|[[= <- <-]|[[= <- <-]|[]]]]]].
  - apply quiet_enableAPIs.
  - apply quiet_createServiceAccount.
  - apply quiet_setupWorkloadIdentity.
  - apply quiet_createArtifactRegistry.
  - apply quiet_configureGitHub.
Qed.

(** What [runSetup] does once [gh auth status] has succeeded. *)
Lemma quiet_setup_after_checks :
  quiet (cfg <- loadConfig ;;
         emit_all (setup_header cfg) ;;
         or_return (run_steps setupSteps cfg) (emit_all setup_footer ;; ret None)).
Proof.
  apply emits_bind; [now apply emits_silent|]. intros cfg.
  apply emits_bind; [apply emits_emit_all; now repeat constructor|]. intros _.
  apply emits_or_return.
  - apply emits_run_steps; [reflexivity|].
    apply Forall_forall. intros [name fn] Hin. apply list_elem_of_In in Hin.
    now apply quiet_setupSteps with (name := name).
  - apply emits_bind; [apply emits_emit_all; now repeat constructor|].
    intros _. apply emits_ret.
Qed.

End DryRun.

Lemma checkGH_eq env h w :
  checkGH env h w =
  if lookPath env "gh" then
    mkRes (match runCmd env h "gh" ["auth"; "status"] with
           | Some _ => Some (Errorf "GitHub CLI not authenticated. Run: gh auth login")
           | None => None
           end)
          [Run "gh" ["auth"; "status"] (runCmd env h "gh" ["auth"; "status"])] w
  else mkRes (Some (Errorf "GitHub CLI (gh) not found. Install it: https://cli.github.com/"))
             [] w.
Proof.
  unfold checkGH. rewrite bind_silent by reflexivity.
  unfold LookPath, bind, ask, ret. cbn [val].
  destruct (lookPath env "gh"); [|reflexivity].
  unfold Command_Run.
  destruct (runCmd env h "gh" ["auth"; "status"]); reflexivity.
Qed.

(** The only command a dry run of [runSetup] executes is the
    authentication check of [checkGH]. *)
Lemma runSetup_dry_invocations env h w :
  dryRun env = true ->
  invocations (out (runSetup env h w)) =
  match val (ValidateConfig env h w) with
  | Some _ => []
  | None =>
      if lookPath env "gcloud" && lookPath env "gh"
      then [("gh", ["auth"; "status"])] else []
  end.
Proof.
  intros Hdry. unfold runSetup.
  destruct (ValidateConfig_silent env h w) as [Vo Vw].
  destruct (val (ValidateConfig env h w)) as [e|] eqn:Hv.
  { rewrite (or_return_Some _ _ _ _ _ e Hv). cbn [out]. now rewrite Vo. }
  rewrite or_return_silent by assumption.
  destruct (lookPath env "gcloud") eqn:Hg.
  2:{ assert (Hc : checkGcloud env h w
                   = mkRes (Some (Errorf "gcloud CLI not found. Install it: https://cloud.google.com/sdk/docs/install")) [] w).
      { unfold checkGcloud, LookPath, bind, ask, ret. cbn. now rewrite Hg. }
      erewrite or_return_Some by (rewrite Hc; reflexivity).
      now rewrite Hc. }
  rewrite or_return_silent by (now rewrite checkGcloud_found).
  rewrite or_return_prepend, checkGH_eq.
  destruct (lookPath env "gh") eqn:Hgh; [|reflexivity].
  destruct (runCmd env h "gh" ["auth"; "status"]) as [msg|];
    cbn [val out world prepend andb]; [reflexivity|].
  rewrite invocations_app.
  rewrite (invocations_no_Run (out _)); [reflexivity|].
  apply (quiet_setup_after_checks (fun e => e = env)); [now intros ? ->|reflexivity].
Qed.

(** ** Map iteration order *)

Section Agree.
Context (env env' : Env).
Hypothesis same_viper : viper env' = viper env.
Hypothesis same_dryRun : dryRun env' = dryRun env.
Hypothesis same_lookPath : lookPath env' = lookPath env.
Hypothesis same_runCmd : runCmd env' = runCmd env.
Local Abbreviation same := (agree env env').

Lemma agree_ret {A} (a : A) : same (ret a).
Proof. now intros h w. Qed.

Lemma agree_bind {A B} (m : M A) (f : A -> M B) :
  same m -> (forall a, same (f a)) -> same (bind m f).
Proof.
  intros Hm Hf h w. unfold bind. rewrite Hm.
  destruct (m env h w) as [a d1 w1]. now rewrite Hf.
Qed.

Lemma agree_or_return (c k : M (option error)) :
  same c -> same k -> same (or_return c k).
Proof.
  intros Hc Hk. apply agree_bind; [exact Hc|].
  intros [e|]; [apply agree_ret | exact Hk].
Qed.

Lemma agree_or_return_w msg (c k : M (option error)) :
  same c -> same k -> same (or_return_w msg c k).
Proof.
  intros Hc Hk. apply agree_bind; [exact Hc|].
  intros [e|]; [apply agree_ret | exact Hk].
Qed.

Lemma agree_for_range {A} (xs : list A) (body : A -> M (option error)) :
  (forall x, same (body x)) -> same (for_range xs body).
Proof.
  intros Hb. induction xs as [|x xs IH]; simpl.
  - apply agree_ret.
  - apply agree_or_return; [apply Hb | exact IH].
Qed.

Lemma agree_emit (e : event) : same (emit e).
Proof. now intros h w. Qed.

Lemma agree_emit_all (evs : list event) : same (emit_all evs).
Proof. now intros h w. Qed.

Lemma agree_Print (s : string) : same (Print s).
Proof. now intros h w. Qed.

Lemma agree_Println (s : string) : same (Println s).
Proof. now intros h w. Qed.

Lemma agree_dryRun : same (flag dryRun).
Proof. intros h w. unfold flag, bind, ask, ret. now rewrite same_dryRun. Qed.

Lemma agree_LookPath (name : string) : same (LookPath name).
Proof. intros h w. unfold LookPath, bind, ask, ret. now rewrite same_lookPath. Qed.

Lemma agree_GetString (key : string) : same (GetString key).
Proof. intros h w. unfold GetString, bind, ask, ret. now rewrite same_viper. Qed.

Lemma agree_Command_Run (name : string) (args : list string) :
  same (Command_Run name args).
Proof. intros h w. unfold Command_Run. now rewrite same_runCmd. Qed.

Lemma agree_ValidateConfig : same ValidateConfig.
Proof.
  intros h w. unfold ValidateConfig, bind, ask. rewrite same_viper.
  now destruct (0 <? length _)%nat.
Qed.

Lemma agree_run_steps {C} (steps : list (string * (C -> M (option error)))) (cfg : C) :
  Forall (fun s => same (s.2 cfg)) steps -> same (run_steps steps cfg).
Proof.
  intros Hs h w. unfold run_steps.
  enough (H : forall l total,
            Forall (fun s : nat * (string * (C -> M (option error))) => same (s.2.2 cfg)) l ->
            same (for_range l (loop_body total cfg))).
  { apply H. apply Forall_forall. intros [i s] Hin.
    apply elem_of_lookup_imap_1 in Hin as (j & s' & [= -> ->] & Hj).
    exact (Forall_lookup_1 _ _ _ _ Hs Hj). }
  clear. intros l total Hl. induction Hl as [|s l Hs _ IH]; simpl.
  - apply agree_ret.
  - apply agree_or_return; [|exact IH].
    unfold loop_body.
    apply agree_bind; [apply agree_Print|]. intros _.
    apply agree_bind; [apply agree_Println|]. intros _.
    apply agree_or_return_w; [exact Hs|].
    apply agree_bind; [apply agree_Println | intros _; apply agree_ret].
Qed.

(** A [range] over a map agrees when both runs visit it in the same
    order. *)
Lemma agree_range_map (m : gmap string string)
    (body : string -> string -> M (option error)) :
  rangeOrder env' m = rangeOrder env m ->
  (forall k v, same (body k v)) -> same (range_map m body).
Proof.
  intros Ho Hb h w. unfold range_map, bind, ask. rewrite Ho.
  rewrite (agree_for_range _ _ (fun kv => Hb kv.1 kv.2)). reflexivity.
Qed.

End Agree.

Lemma agree_bind_val {A B} (env env' : Env) (m : M A) (f : A -> M B) :
  agree env env' m -> (forall h w, agree env env' (f (val (m env h w)))) ->
  agree env env' (bind m f).
Proof.
  intros Hm Hf h w. unfold bind. rewrite Hm.
  specialize (Hf h w). destruct (m env h w) as [a d1 w1]. cbn [val] in Hf.
  now rewrite Hf.
Qed.

Ltac agree_go :=
  cbv zeta;
  lazymatch goal with
  | |- agree _ _ (bind _ _) => apply agree_bind; [agree_go | intro; agree_go]
  | |- agree _ _ (or_return_w _ _ _) => apply agree_or_return_w; agree_go
  | |- agree _ _ (or_return _ _) => apply agree_or_return; agree_go
  | |- agree _ _ (for_range _ _) => apply agree_for_range; intro; agree_go
  | |- agree _ _ (match ?x with _ => _ end) => destruct x; agree_go
  | |- agree _ _ (ret _) => apply agree_ret
  | |- agree _ _ (flag dryRun) => apply agree_dryRun; reflexivity
  | |- agree _ _ (LookPath _) => apply agree_LookPath; reflexivity
  | |- agree _ _ (GetString _) => apply agree_GetString; reflexivity
  | |- agree _ _ (Print _) => apply agree_Print
  | |- agree _ _ (Println _) => apply agree_Println
  | |- agree _ _ (emit_all _) => apply agree_emit_all
  | |- agree _ _ (Command_Run _ _) => apply agree_Command_Run; reflexivity
  | |- _ => idtac
  end.

Section MapOrder.
Context (env : Env) (order : gmap string string -> list (string * string)).
Local Abbreviation same := (agree env (with_order env order)).

Lemma order_runCommandSilent name args : same (runCommandSilent name args).
Proof. unfold runCommandSilent. agree_go. Qed.

Lemma order_gh_set kind repo name value : same (gh_set kind repo name value).
Proof. unfold gh_set. agree_go. Qed.

Lemma order_enableAPIs cfg : same (enableAPIs cfg).
Proof. unfold enableAPIs. agree_go. apply order_runCommandSilent. Qed.

Lemma order_createServiceAccount cfg : same (createServiceAccount cfg).
Proof. unfold createServiceAccount. agree_go; apply order_runCommandSilent. Qed.

Lemma order_setupWorkloadIdentity cfg : same (setupWorkloadIdentity cfg).
Proof. unfold setupWorkloadIdentity. agree_go; apply order_runCommandSilent. Qed.

Lemma order_createArtifactRegistry cfg : same (createArtifactRegistry cfg).
Proof. unfold createArtifactRegistry. agree_go; apply order_runCommandSilent. Qed.

Lemma order_configureGitHub cfg :
  order (secrets cfg) = rangeOrder env (secrets cfg) ->
  order (variables cfg) = rangeOrder env (variables cfg) ->
  same (configureGitHub cfg).
Proof.
  intros Hs Hv. unfold configureGitHub. agree_go.
  - apply agree_range_map; [exact Hs|]. intros. apply order_gh_set.
  - apply agree_range_map; [exact Hv|]. intros. apply order_gh_set.
Qed.

Lemma order_checkGcloud : same checkGcloud.
Proof. unfold checkGcloud. agree_go. Qed.

Lemma order_checkGH : same checkGH.
Proof. unfold checkGH. agree_go. Qed.

Lemma order_loadConfig : same loadConfig.
Proof. unfold loadConfig. agree_go. Qed.

Lemma order_runSetup h0 w0 :
  let cfg := val (loadConfig env h0 w0) in
  order (secrets cfg) = rangeOrder env (secrets cfg) ->
  order (variables cfg) = rangeOrder env (variables cfg) ->
  same runSetup.
Proof.
  intros cfg Hs Hv. unfold runSetup.
  apply agree_or_return; [now apply agree_ValidateConfig|].
  apply agree_or_return; [apply order_checkGcloud|].
  apply agree_or_return; [apply order_checkGH|].
  apply agree_bind_val; [apply order_loadConfig|]. intros h w.
  rewrite (loadConfig_val env h w h0 w0). fold cfg.
  agree_go. apply agree_run_steps; try reflexivity.
  unfold setupSteps. repeat constructor; cbn [snd].
  - apply order_enableAPIs.
  - apply order_createServiceAccount.
  - apply order_setupWorkloadIdentity.
  - apply order_createArtifactRegistry.
  - now apply order_configureGitHub.
Qed.

End MapOrder.

(** Step 5 under a dry run: the lines follow the iteration order. *)
Lemma gh_set_loop_dry kind repo env (l : list (string * string)) : forall h w,
  dryRun env = true ->
  for_range l (fun kv => gh_set kind repo kv.1 kv.2) env h w =
  mkRes None (flat_map (gh_set_dry_lines kind repo) l) w.
Proof.
  induction l as [|kv l IH]; intros h w Hdry; [reflexivity|].
  simpl for_range. rewrite or_return_prepend, gh_set_dry by assumption.
  cbn [val out world]. rewrite IH by assumption. reflexivity.
Qed.

Lemma configureGitHub_dry cfg env h w :
  dryRun env = true ->
  configureGitHub cfg env h w =
  mkRes None
    (Stdout ("  Setting secrets..." +:+ nl)
     :: flat_map (gh_set_dry_lines "secret" (repo_of cfg)) (rangeOrder env (secrets cfg))
     ++ Stdout ("  Setting variables..." +:+ nl)
     :: flat_map (gh_set_dry_lines "variable" (repo_of cfg))
          (rangeOrder env (variables cfg))) w.
Proof.
  intros Hdry. unfold configureGitHub, range_map, Println. cbv zeta.
  fold (repo_of cfg).
  rewrite emit_prepend, or_return_prepend.
  rewrite bind_silent by reflexivity. cbn [ask val].
  rewrite gh_set_loop_dry by assumption. cbn [val out world].
  rewrite emit_prepend, or_return_prepend.
  rewrite bind_silent by reflexivity. cbn [ask val].
  rewrite gh_set_loop_dry by assumption. unfold prepend, ret.
  cbn [val out world app]. now rewrite !app_nil_r.
Qed.

(** Step 5 for real: the commands follow the iteration order, up to the
    first one that fails. *)
Lemma gh_set_loop_real kind repo env (l : list (string * string)) : forall h w,
  dryRun env = false ->
  invocations (out (for_range l (fun kv => gh_set kind repo kv.1 kv.2) env h w))
    `prefix_of` map (gh_set_command kind repo) l /\
  (val (for_range l (fun kv => gh_set kind repo kv.1 kv.2) env h w) = None ->
   invocations (out (for_range l (fun kv => gh_set kind repo kv.1 kv.2) env h w))
   = map (gh_set_command kind repo) l).
Proof.
  induction l as [|kv l IH]; intros h w Hdry; [now split|].
  simpl for_range. rewrite or_return_prepend.
  assert (Hg : gh_set kind repo kv.1 kv.2 env h w =
               let r := runCmd env (h ++ [Stdout ("    " +:+ kv.1 +:+ nl)]) "gh"
                          [kind; "set"; kv.1; "--repo"; repo; "--body"; kv.2] in
               mkRes (Errorf_w ("failed to set " +:+ kind +:+ " " +:+ kv.1 +:+ ": ")
                        <$> (RunError <$> r))
                     [Stdout ("    " +:+ kv.1 +:+ nl);
                      Run "gh" [kind; "set"; kv.1; "--repo"; repo; "--body"; kv.2] r] w).
  { unfold gh_set, Print. rewrite emit_prepend.
    rewrite bind_silent by reflexivity.
    unfold flag, ask, ret, bind. cbn [val]. rewrite Hdry.
    rewrite or_return_w_prepend. unfold Command_Run. cbn [val out world].
    now destruct (runCmd _ _ _ _). }
  rewrite Hg. cbv zeta.
  destruct (runCmd env _ "gh" _) as [msg|]; cbn [val out world fmap option_fmap option_map prepend].
  - split; [|discriminate]. cbn. apply prefix_cons, prefix_nil.
  - destruct (IH (h ++ [Stdout ("    " +:+ kv.1 +:+ nl);
                        Run "gh" [kind; "set"; kv.1; "--repo"; repo; "--body"; kv.2] None])
                 w Hdry) as [IH1 IH2].
    rewrite invocations_app.
    change (invocations [Stdout ("    " +:+ kv.1 +:+ nl);
                         Run "gh" [kind; "set"; kv.1; "--repo"; repo; "--body"; kv.2] None])
      with [gh_set_command kind repo kv].
    cbn [map app]. split.
    + apply prefix_cons. exact IH1.
    + intros Hn. f_equal. now apply IH2.
Qed.

Lemma invocations_Stdout (s : string) (tr : list event) :
  invocations (Stdout s :: tr) = invocations tr.
Proof. reflexivity. Qed.

Lemma configureGitHub_real cfg env h w :
  dryRun env = false ->
  let planned :=
    map (gh_set_command "secret" (repo_of cfg)) (rangeOrder env (secrets cfg))
    ++ map (gh_set_command "variable" (repo_of cfg)) (rangeOrder env (variables cfg)) in
  invocations (out (configureGitHub cfg env h w)) `prefix_of` planned /\
  (val (configureGitHub cfg env h w) = None ->
   invocations (out (configureGitHub cfg env h w)) = planned).
Proof.
  intros Hdry planned. subst planned.
  unfold configureGitHub, range_map, Println. cbv zeta. fold (repo_of cfg).
  rewrite emit_prepend, or_return_prepend.
  rewrite bind_silent by reflexivity. cbn [ask val].
  destruct (gh_set_loop_real "secret" (repo_of cfg) env (rangeOrder env (secrets cfg))
              (h ++ [Stdout ("  Setting secrets..." +:+ nl)]) w Hdry) as [S1 S2].
  destruct (val (for_range (rangeOrder env (secrets cfg)) _ env _ w)) as [e|] eqn:Es.
  - unfold prepend. cbn [val out world app]. rewrite invocations_Stdout.
    split; [|discriminate].
    now apply prefix_app_r.
  - specialize (S2 eq_refl).
    rewrite emit_prepend, or_return_prepend.
    rewrite bind_silent by reflexivity. cbn [ask val].
    match goal with
    | |- context [for_range (rangeOrder env (variables cfg)) ?b env ?hh ?ww] =>
        destruct (gh_set_loop_real "variable" (repo_of cfg) env
                    (rangeOrder env (variables cfg)) hh ww Hdry) as [V1 V2];
        destruct (val (for_range (rangeOrder env (variables cfg)) b env hh ww))
          as [e|] eqn:Ev
    end.
    + unfold prepend. cbn [val out world app]. split; [|discriminate].
      rewrite invocations_Stdout, invocations_app, invocations_Stdout, S2.
      now apply prefix_app.
    + specialize (V2 eq_refl). unfold prepend, ret. cbn [val out world app].
      rewrite invocations_Stdout, invocations_app, invocations_Stdout.
      rewrite app_nil_r, S2, V2. split; [reflexivity|]. intros _. reflexivity.
Qed.

Lemma secrets_entries cfg :
  map_to_list (secrets cfg) ≡ₚ
  [ ("GCP_SERVICE_ACCOUNT", ServiceAccountEmail cfg);
    ("GCP_WORKLOAD_IDENTITY_PROVIDER", WorkloadIdentityProvider cfg) ].
Proof.
  unfold secrets. apply map_to_list_to_map. cbn [fmap list_fmap fst].
  apply (bool_decide_unpack _). vm_compute. exact I.
Qed.

Lemma variables_entries cfg :
  map_to_list (variables cfg) ≡ₚ
  [ ("CLOUD_RUN_SERVICE", CloudRunService cfg);
    ("CLOUD_RUN_REGION", CloudRunRegion cfg);
    ("ARTIFACT_REGISTRY_URL", ArtifactRegistryURL cfg) ].
Proof.
  unfold variables. apply map_to_list_to_map. cbn [fmap list_fmap fst].
  apply (bool_decide_unpack _). vm_compute. exact I.
Qed.

(** C6, amended: two runs of the setup command that differ in nothing but
    the order in which Go iterates over the two maps of step 5 are
    identical when these orders coincide; the first four steps never
    depend on the order; step 5 sets every secret before every variable
    and follows, inside each of the two groups, the iteration order of
    the run, which is some permutation of the two secrets and of the
    three variables. *)
Theorem setup_runs_agree_up_to_map_order env order h w :
  let env2 := with_order env order in
  let cfg := val (loadConfig env h w) in
  valid_rangeOrder env -> valid_rangeOrder env2 ->
  (order (secrets cfg) = rangeOrder env (secrets cfg) ->
   order (variables cfg) = rangeOrder env (variables cfg) ->
   runSetup env2 h w = runSetup env h w) /\
  (forall h' w',
     enableAPIs cfg env2 h' w' = enableAPIs cfg env h' w' /\
     createServiceAccount cfg env2 h' w' = createServiceAccount cfg env h' w' /\
     setupWorkloadIdentity cfg env2 h' w' = setupWorkloadIdentity cfg env h' w' /\
     createArtifactRegistry cfg env2 h' w' = createArtifactRegistry cfg env h' w') /\
  (forall e h' w',
     let planned :=
       map (gh_set_command "secret" (repo_of cfg)) (rangeOrder e (secrets cfg))
       ++ map (gh_set_command "variable" (repo_of cfg)) (rangeOrder e (variables cfg)) in
     (dryRun e = true ->
      out (configureGitHub cfg e h' w') =
      Stdout ("  Setting secrets..." +:+ nl)
      :: flat_map (gh_set_dry_lines "secret" (repo_of cfg)) (rangeOrder e (secrets cfg))
      ++ Stdout ("  Setting variables..." +:+ nl)
      :: flat_map (gh_set_dry_lines "variable" (repo_of cfg))
           (rangeOrder e (variables cfg))) /\
     (dryRun e = false ->
      invocations (out (configureGitHub cfg e h' w')) `prefix_of` planned /\
      (val (configureGitHub cfg e h' w') = None ->
       invocations (out (configureGitHub cfg e h' w')) = planned))) /\
  rangeOrder env2 (secrets cfg) ≡ₚ rangeOrder env (secrets cfg) /\
  rangeOrder env2 (variables cfg) ≡ₚ rangeOrder env (variables cfg) /\
  rangeOrder env (secrets cfg) ≡ₚ
    [ ("GCP_SERVICE_ACCOUNT", ServiceAccountEmail cfg);
      ("GCP_WORKLOAD_IDENTITY_PROVIDER", WorkloadIdentityProvider cfg) ] /\
  rangeOrder env (variables cfg) ≡ₚ
    [ ("CLOUD_RUN_SERVICE", CloudRunService cfg);
      ("CLOUD_RUN_REGION", CloudRunRegion cfg);
      ("ARTIFACT_REGISTRY_URL", ArtifactRegistryURL cfg) ].
Proof.
  intros env2 cfg Hv Hv2. repeat split.
  - intros Hs Hvar. now apply (order_runSetup env order h w).
  - apply order_enableAPIs.
  - apply order_createServiceAccount.
  - apply order_setupWorkloadIdentity.
  - apply order_createArtifactRegistry.
  - intros Hdry. now rewrite configureGitHub_dry.
  - now apply configureGitHub_real.
  - now apply configureGitHub_real.
  - now rewrite (Hv2 (secrets cfg)), (Hv (secrets cfg)).
  - now rewrite (Hv2 (variables cfg)), (Hv (variables cfg)).
  - rewrite (Hv (secrets cfg)). apply secrets_entries.
  - rewrite (Hv (variables cfg)). apply variables_entries.
Qed.

(** ** Prompts *)

(** [cut_line] splits its argument, and the first part is a line: it
    ends with the first line feed of the argument, or it is all of an
    argument that holds no line feed. *)
Lemma cut_line_app (s : string) : s = (cut_line s).1 +:+ (cut_line s).2.
Proof.
  induction s as [|c s IH]; [reflexivity|]. cbn [cut_line].
  destruct (Ascii.eqb c "010"); cbn [fst snd]; [reflexivity|].
  change (String c s = String c ((cut_line s).1 +:+ (cut_line s).2)).
  now f_equal.
Qed.

Lemma cut_line_spec (s : string) :
  if holds_line s
  then exists l, (cut_line s).1 = l +:+ nl /\ holds_line l = false
  else (cut_line s).1 = s /\ (cut_line s).2 = EmptyString.
Proof.
  induction s as [|c s IH]; [now split|]. cbn [cut_line holds_line].
  destruct (Ascii.eqb_spec c "010") as [->|Hc]; cbn [orb fst snd].
  - now exists EmptyString.
  - destruct (holds_line s).
    + destruct IH as (l & -> & Hl). exists (String c l). split; [reflexivity|].
      cbn [holds_line]. rewrite Hl.
      destruct (Ascii.eqb_spec c "010"); [contradiction|reflexivity].
    + destruct IH as [-> ->]. now split.
Qed.

Lemma ReadString_eq env h w :
  ReadString env h w =
  mkRes (cut_line (stdin w)).1 []
    (mkWorld (drop_bytes (Nat.min (defaultBufSize - 1)
                            (readAhead env h (cut_line (stdin w)).2))
                (cut_line (stdin w)).2)
       (files w)).
Proof. reflexivity. Qed.

(** What a prompt does, case by case. *)
Lemma promptProject_eq label defaultVal env h w :
  let prompt := [Stdout (label +:+ " (default: " +:+ defaultVal +:+ "): ")] in
  let input := TrimSpace env (cut_line (stdin w)).1 in
  promptProject label defaultVal env h w =
  if projectNonInteractive env then mkRes defaultVal [] w
  else mkRes (if String.eqb input EmptyString then defaultVal else input) prompt
         (world (ReadString env (h ++ prompt) w)).
Proof.
  cbv zeta. unfold promptProject. rewrite bind_silent by reflexivity.
  change (val (flag projectNonInteractive env h w)) with (projectNonInteractive env).
  change (world (flag projectNonInteractive env h w)) with w.
  destruct (projectNonInteractive env); [reflexivity|].
  unfold Print. rewrite emit_bind, bind_eq, ReadString_eq. cbn [val out world].
  unfold trimSpace, ask, ret, bind. cbn [val out world app].
  now destruct (String.eqb (TrimSpace env _) EmptyString).
Qed.

Lemma promptLB_eq label defaultVal env h w :
  let prompt := [Stdout (label +:+ " (default: " +:+ defaultVal +:+ "): ")] in
  let input := TrimSpace env (cut_line (stdin w)).1 in
  promptLB label defaultVal env h w =
  if lbNonInteractive env then mkRes defaultVal [] w
  else mkRes (if String.eqb input EmptyString then defaultVal else input) prompt
         (world (ReadString env (h ++ prompt) w)).
Proof.
  cbv zeta. unfold promptLB. rewrite bind_silent by reflexivity.
  change (val (flag lbNonInteractive env h w)) with (lbNonInteractive env).
  change (world (flag lbNonInteractive env h w)) with w.
  destruct (lbNonInteractive env); [reflexivity|].
  unfold Print. rewrite emit_bind, bind_eq, ReadString_eq. cbn [val out world].
  unfold trimSpace, ask, ret, bind. cbn [val out world app].
  now destruct (String.eqb (TrimSpace env _) EmptyString).
Qed.

(** C7: with [--yes] the two prompt functions return the default value
    without printing anything or touching standard input; otherwise
    they print the prompt, read the line that standard input holds next
    (up to and including the first line feed, or all there is at end of
    input) and return the default when the line is empty after trimming
    white space, the trimmed line when it is not.  The reader they make
    for the one line may take more input than the line: the bytes it had
    read ahead are gone for later reads. *)
Theorem prompts_default_or_trimmed_input label defaultVal env h w :
  let prompt := [Stdout (label +:+ " (default: " +:+ defaultVal +:+ "): ")] in
  let line := (cut_line (stdin w)).1 in
  let behind := (cut_line (stdin w)).2 in
  let input := TrimSpace env line in
  let answer := if String.eqb input EmptyString then defaultVal else input in
  let ahead := Nat.min (defaultBufSize - 1) (readAhead env (h ++ prompt) behind) in
  let rest := mkWorld (drop_bytes ahead behind) (files w) in
  promptProject label defaultVal env h w =
    (if projectNonInteractive env then mkRes defaultVal [] w
     else mkRes answer prompt rest) /\
  promptLB label defaultVal env h w =
    (if lbNonInteractive env then mkRes defaultVal [] w
     else mkRes answer prompt rest) /\
  stdin w = line +:+ behind /\
  (if holds_line (stdin w)
   then exists l, line = l +:+ nl /\ holds_line l = false
   else line = stdin w /\ behind = EmptyString).
Proof.
  cbv zeta. split; [|split; [|split]].
  - apply promptProject_eq.
  - apply promptLB_eq.
  - apply cut_line_app.
  - apply cut_line_spec.
Qed.

(** ** The init command *)

Lemma writeFileIfNotExists_eq path content env h w :
  writeFileIfNotExists path content env h w =
  match files w !! path with
  | Some _ => mkRes (Some (Errorf ("file already exists: " +:+ path))) [] w
  | None =>
      if creatable env path
      then mkRes None [] (set_file w path (File content true true))
      else
        match writeFault env path content with
        | Some (n, msg) =>
            mkRes (Some (RunError msg)) []
              (set_file w path (File (first_bytes n content) true true))
        | None =>
            mkRes (Some (RunError ("open " +:+ path +:+ ": permission denied"))) [] w
        end
  end.
Proof.
  unfold writeFileIfNotExists, bind, Stat, WriteFile, ret.
  destruct (files w !! path) as [f|] eqn:Hf; [reflexivity|].
  rewrite Hf. destruct (creatable env path); [reflexivity|].
  now destruct (writeFault env path content) as [[n msg]|].
Qed.

(** It fails exactly when the file exists or cannot be written. *)
Lemma writeFileIfNotExists_val path content env h w :
  val (writeFileIfNotExists path content env h w) = None <->
  files w !! path = None /\ creatable env path = true.
Proof.
  rewrite writeFileIfNotExists_eq.
  destruct (files w !! path) as [f|]; [now split; [|intros []]|].
  destruct (creatable env path); [now split|].
  destruct (writeFault env path content) as [[n msg]|]; now split; [|intros []].
Qed.

Lemma writeFileIfNotExists_keeps path content env h w p f :
  files w !! p = Some f ->
  files (world (writeFileIfNotExists path content env h w)) !! p = Some f.
Proof.
  intros Hp. rewrite writeFileIfNotExists_eq.
  destruct (files w !! path) as [g|] eqn:Hpath; [exact Hp|].
  assert (Hne : path <> p) by (intros ->; congruence).
  destruct (creatable env path);
    [|destruct (writeFault env path content) as [[n msg]|]; [|exact Hp]];
    cbn [world set_file files]; now rewrite lookup_insert_ne.
Qed.

Lemma length_filepath_Join dir elem :
  String.length (filepath_Join dir elem) =
  (String.length dir + String.length elem
   + (if String.eqb dir "/" then 0 else 1))%nat.
Proof.
  unfold filepath_Join. destruct (String.eqb dir "/").
  - rewrite length_append. lia.
  - rewrite !length_append. simpl. lia.
Qed.

Lemma workflowPath_not_envPath cwd : workflowPath_of cwd <> envPath_of cwd.
Proof.
  intros H. apply (f_equal String.length) in H.
  unfold workflowPath_of, envPath_of in H.
  rewrite !length_filepath_Join in H. simpl in H.
  repeat match type of H with
  | context [if ?b then _ else _] => destruct b
  end; lia.
Qed.

Lemma runInit_keeps_existing env h w cwd p f :
  getwd env = inl cwd ->
  p = workflowPath_of cwd \/ p = envPath_of cwd ->
  files w !! p = Some f ->
  files (world (runInit env h w)) !! p = Some f.
Proof.
  intros Hcwd Hp Hf. unfold runInit. rewrite bind_silent by reflexivity.
  cbn [ask val]. rewrite Hcwd. cbv zeta.
  fold (workflowPath_of cwd) (envPath_of cwd) (gitignorePath_of cwd).
  rewrite or_return_w_prepend.
  assert (Hm : forall d hh ww, world (MkdirAll d env hh ww) = ww
                               /\ out (MkdirAll d env hh ww) = []) by now intros.
  destruct (Hm (filepath_Join (filepath_Join cwd ".github") "workflows") h w) as [-> ->].
  destruct (val (MkdirAll _ env h w)); [exact Hf|].
  rewrite prepend_nil, or_return_prepend.
  set (W := writeFileIfNotExists (workflowPath_of cwd) (DeployWorkflow env) env (h ++ []) w).
  assert (HW : files (world W) !! p = Some f)
    by now apply writeFileIfNotExists_keeps.
  assert (HWv : val W = None -> files w !! workflowPath_of cwd = None).
  { subst W. now intros [H _]%writeFileIfNotExists_val. }
  destruct (val W) as [e|]; [exact HW|]. specialize (HWv eq_refl).
  assert (p = envPath_of cwd) as -> by (destruct Hp as [->|]; congruence).
  unfold Println. cbn [prepend world]. rewrite emit_prepend. cbn [prepend world].
  rewrite or_return_prepend.
  match goal with
  | |- context [writeFileIfNotExists (envPath_of cwd) ?c env ?hh (world W)] =>
      rewrite (writeFileIfNotExists_eq (envPath_of cwd) c env hh (world W)), HW
  end.
  cbn [val world]. exact HW.
Qed.

(** C8, amended: [writeFileIfNotExists] returns an error when the target
    path exists, and also when it does not exist and [os.WriteFile]
    fails.  When the target exists nothing is written, and whatever the
    outcome a file that was there before the call keeps its contents.
    Consequently [runInit] never overwrites an existing workflow or
    environment file. *)
Theorem writeFileIfNotExists_never_overwrites path content env h w :
  (val (writeFileIfNotExists path content env h w) <> None <->
   is_Some (files w !! path) \/ creatable env path = false) /\
  (is_Some (files w !! path) ->
   writeFileIfNotExists path content env h w =
   mkRes (Some (Errorf ("file already exists: " +:+ path))) [] w) /\
  (forall p f,
     files w !! p = Some f ->
     files (world (writeFileIfNotExists path content env h w)) !! p = Some f) /\
  (val (writeFileIfNotExists path content env h w) = None ->
   files (world (writeFileIfNotExists path content env h w)) =
   <[path := File content true true]> (files w)) /\
  (forall cwd p f,
     getwd env = inl cwd ->
     p = workflowPath_of cwd \/ p = envPath_of cwd ->
     files w !! p = Some f ->
     files (world (runInit env h w)) !! p = Some f).
Proof.
  split; [|split; [|split; [|split]]].
  - rewrite writeFileIfNotExists_val. split.
    + intros H. destruct (files w !! path) as [f|]; [left; eauto|].
      right. destruct (creatable env path); [|reflexivity]. now destruct H.
    + intros [[f Hf]|Hc] [H1 H2]; congruence.
  - intros [f Hf]. now rewrite writeFileIfNotExists_eq, Hf.
  - intros p f. apply writeFileIfNotExists_keeps.
  - intros [Hf Hc]%writeFileIfNotExists_val.
    now rewrite writeFileIfNotExists_eq, Hf, Hc.
  - intros cwd p f. apply runInit_keeps_existing.
Qed.

Lemma appendToGitignore_eq path env h w :
  appendToGitignore path env h w =
  match files w !! path with
  | Some f =>
      if readable f then
        if contains (data f) ".env.gcloud" then mkRes None [] w
        else if writable f
             then match writeFault env path entry with
                  | None =>
                      mkRes None []
                        (set_file w path
                           (File (data f +:+ entry) (readable f) (writable f)))
                  | Some (n, msg) =>
                      mkRes (Some (RunError msg)) []
                        (set_file w path
                           (File (data f +:+ first_bytes n entry)
                              (readable f) (writable f)))
                  end
             else mkRes (permission_denied path) [] w
      else if writable f
           then match writeFault env path entry with
                | None =>
                    mkRes None [] (set_file w path (File entry (readable f) (writable f)))
                | Some (n, msg) =>
                    mkRes (Some (RunError msg)) []
                      (set_file w path
                         (File (first_bytes n entry) (readable f) (writable f)))
                end
           else mkRes (permission_denied path) [] w
  | None =>
      if creatable env path
      then mkRes None [] (set_file w path (File entry true true))
      else match writeFault env path entry with
           | Some (n, msg) =>
               mkRes (Some (RunError msg)) []
                 (set_file w path (File (first_bytes n entry) true true))
           | None => mkRes (permission_denied path) [] w
           end
  end.
Proof.
  unfold appendToGitignore, bind, ReadFile, or_return, bind, OpenFile_append,
    WriteString, WriteFile, ret, permission_denied.
  destruct (files w !! path) as [[d [|] [|]]|] eqn:Hf; cbn [readable writable data].
  - destruct (contains d ".env.gcloud"); [reflexivity|].
    rewrite Hf. cbn. rewrite Hf.
    now destruct (writeFault env path entry) as [[n msg]|].
  - destruct (contains d ".env.gcloud"); [reflexivity|]. now rewrite Hf.
  - rewrite Hf. cbn [writable readable].
    now destruct (writeFault env path entry) as [[n msg]|].
  - now rewrite Hf.
  - rewrite Hf. destruct (creatable env path); [reflexivity|].
    now destruct (writeFault env path entry) as [[n msg]|].
Qed.

Lemma contains_entry : contains entry ".env.gcloud" = true.
Proof. reflexivity. Qed.

Lemma contains_after_append (s : string) : contains (s +:+ entry) ".env.gcloud" = true.
Proof.
  apply occurs_contains.
  exists (s +:+ nl +:+ "# GCloud setup" +:+ nl), nl.
  unfold entry. now rewrite !append_assoc.
Qed.

(** After a successful call the file exists and lists [.env.gcloud]. *)
Lemma appendToGitignore_lists_entry path env h w :
  val (appendToGitignore path env h w) = None ->
  exists f, files (world (appendToGitignore path env h w)) !! path = Some f /\
            contains (data f) ".env.gcloud" = true.
Proof.
  rewrite appendToGitignore_eq.
  destruct (files w !! path) as [f|] eqn:Hf.
  - destruct (readable f).
    + destruct (contains (data f) ".env.gcloud") eqn:Hc; [now exists f|].
      destruct (writable f); [|discriminate].
      destruct (writeFault env path entry) as [[n msg]|]; [discriminate|]. intros _.
      eexists. cbn [world set_file files]. rewrite lookup_insert_eq.
      split; [reflexivity|]. apply contains_after_append.
    + destruct (writable f); [|discriminate].
      destruct (writeFault env path entry) as [[n msg]|]; [discriminate|]. intros _.
      eexists. cbn [world set_file files]. rewrite lookup_insert_eq.
      split; [reflexivity|]. apply contains_entry.
  - destruct (creatable env path).
    + intros _. eexists. cbn [world set_file files]. rewrite lookup_insert_eq.
      split; [reflexivity|]. apply contains_entry.
    + now destruct (writeFault env path entry) as [[n msg]|].
Qed.

(** A readable file that lists [.env.gcloud] already is left alone. *)
Lemma appendToGitignore_readable_unchanged path env h w f :
  files w !! path = Some f -> readable f = true ->
  contains (data f) ".env.gcloud" = true ->
  appendToGitignore path env h w = mkRes None [] w.
Proof. intros Hf Hr Hc. now rewrite appendToGitignore_eq, Hf, Hr, Hc. Qed.

(** After a successful call on a file that was missing or could be
    read, a second call finds the entry and changes nothing. *)
Lemma appendToGitignore_idempotent path env h h' w :
  val (appendToGitignore path env h w) = None ->
  (forall f, files w !! path = Some f -> readable f = true) ->
  appendToGitignore path env h' (world (appendToGitignore path env h w)) =
  mkRes None [] (world (appendToGitignore path env h w)).
Proof.
  intros Hv Hr.
  destruct (appendToGitignore_lists_entry path env h w Hv) as (g & Hg & Hc).
  apply appendToGitignore_readable_unchanged with (f := g); [exact Hg| |exact Hc].
  revert Hg. rewrite appendToGitignore_eq.
  destruct (files w !! path) as [f|] eqn:Hf.
  - specialize (Hr f eq_refl). rewrite Hr.
    destruct (contains (data f) ".env.gcloud"); cbn [world].
    + rewrite Hf. now intros [= <-].
    + destruct (writable f); cbn [world]; [|rewrite Hf; now intros [= <-]].
      destruct (writeFault env path entry) as [[n msg]|];
        cbn [world set_file files]; rewrite lookup_insert_eq; now intros [= <-].
  - destruct (creatable env path); cbn [world set_file files].
    + rewrite lookup_insert_eq. now intros [= <-].
    + destruct (writeFault env path entry) as [[n msg]|]; cbn [world set_file files].
      * rewrite lookup_insert_eq. now intros [= <-].
      * now rewrite Hf.
Qed.

(** C9: a [.gitignore] that lists [.env.gcloud] already but cannot be
    read by the process is not left unchanged: the failed read is taken
    for a missing file and the file is overwritten with the entry
    alone. *)
Theorem appendToGitignore_overwrites_unreadable :
  let path := "/work/.gitignore" in
  let before := "node_modules" +:+ nl +:+ ".env.gcloud" +:+ nl in
  let r := appendToGitignore path (sample_env false true all_succeed order_a) []
             write_only_gitignore in
  data <$> files write_only_gitignore !! path = Some before /\
  contains before ".env.gcloud" = true /\
  val r = None /\
  data <$> files (world r) !! path = Some entry /\
  entry <> before.
Proof. repeat split. vm_compute. discriminate. Qed.

(** ** The claims about whole runs *)

Lemma no_fatal_no_Run (tr : list event) :
  Forall (fun e => is_Run e = false) tr -> no_fatal tr = true.
Proof.
  intros H. apply forallb_forall. intros e Hin.
  rewrite Forall_forall in H. apply list_elem_of_In, H in Hin.
  now destruct e.
Qed.

(** *** A dry run against the run it stands for *)

Section Mirror.
Context (env : Env).
Hypothesis Hdry : dryRun env = true.

Lemma mirrors_ret {A} (a : A) : mirrors env (ret a).
Proof. now intros h w h' w'. Qed.

Lemma mirrors_bind {A B} (m : M A) (f : A -> M B) :
  mirrors env m -> (forall a, mirrors env (f a)) -> mirrors env (bind m f).
Proof.
  intros Hm Hf h w h' w'. rewrite !bind_eq. cbn [out val].
  destruct (Hm h w h' w') as [Ho Hv]. rewrite Hv.
  destruct (Hf (val (m (for_real env) h' w'))
              (h ++ out (m env h w)) (world (m env h w))
              (h' ++ out (m (for_real env) h' w')) (world (m (for_real env) h' w')))
    as [Ho2 Hv2].
  rewrite fmap_app, Ho2, Hv2. now rewrite Ho.
Qed.

Lemma mirrors_or_return (c k : M (option error)) :
  mirrors env c -> mirrors env k -> mirrors env (or_return c k).
Proof.
  intros Hc Hk. apply mirrors_bind; [exact Hc|].
  intros [e|]; [apply mirrors_ret | exact Hk].
Qed.

Lemma mirrors_for_range {A} (xs : list A) (body : A -> M (option error)) :
  (forall x, mirrors env (body x)) -> mirrors env (for_range xs body).
Proof.
  intros Hb. induction xs as [|x xs IH]; [apply mirrors_ret|].
  now apply mirrors_or_return.
Qed.

Lemma mirrors_Print (s : string) : mirrors env (Print s).
Proof. now intros h w h' w'. Qed.

Lemma mirrors_Println (s : string) : mirrors env (Println s).
Proof. now intros h w h' w'. Qed.

Lemma mirrors_range_map (m : gmap string string)
    (body : string -> string -> M (option error)) :
  (forall name value, mirrors env (body name value)) ->
  mirrors env (range_map m body).
Proof.
  intros Hb h w h' w'. unfold range_map. rewrite !bind_silent by reflexivity.
  cbn [ask val for_real rangeOrder]. now apply mirrors_for_range.
Qed.

(** The two places where the flag is looked at. *)
Lemma mirrors_runCommandSilent (args : list string) :
  mirrors env (runCommandSilent "gcloud" args).
Proof. intros h w h' w'. now rewrite !runCommandSilent_eq, Hdry. Qed.

Lemma Join_gh_set (kind name repo : string) :
  kind +:+ " set " +:+ name +:+ " --repo " +:+ repo
  = Join [kind; "set"; name; "--repo"; repo] " ".
Proof. reflexivity. Qed.

Lemma mirrors_gh_set (kind repo name value : string) :
  mirrors env (gh_set kind repo name value).
Proof.
  intros h w h' w'. rewrite gh_set_dry by exact Hdry.
  unfold gh_set, Print. rewrite emit_bind, bind_silent by reflexivity.
  cbn [flag ask ret bind val for_real dryRun]. unfold or_return_w, Command_Run.
  rewrite bind_eq. cbn [val out world for_real runCmd fmap option_fmap option_map
                          list_fmap in_dry_run ret app].
  split; [|reflexivity]. do 2 f_equal.
  unfold dry_run_line. cbn [String.eqb Ascii.eqb Bool.eqb take].
  f_equal. f_equal. rewrite <- Join_gh_set. now rewrite !append_assoc.
Qed.

Ltac mirror :=
  cbv zeta;
  lazymatch goal with
  | |- mirrors _ (bind _ _) => apply mirrors_bind; [mirror | intro; mirror]
  | |- mirrors _ (or_return _ _) => apply mirrors_or_return; mirror
  | |- mirrors _ (for_range _ _) => apply mirrors_for_range; intro; mirror
  | |- mirrors _ (range_map _ _) => apply mirrors_range_map; intros; mirror
  | |- mirrors _ (match ?x with _ => _ end) => destruct x; mirror
  | |- mirrors _ (ret _) => apply mirrors_ret
  | |- mirrors _ (Print _) => apply mirrors_Print
  | |- mirrors _ (Println _) => apply mirrors_Println
  | |- mirrors _ (runCommandSilent "gcloud" _) => apply mirrors_runCommandSilent
  | |- mirrors _ (gh_set _ _ _ _) => apply mirrors_gh_set
  | |- _ => idtac
  end.

Lemma mirrors_setupSteps name fn cfg : In (name, fn) setupSteps -> mirrors env (fn cfg).
Proof.
  unfold setupSteps. simpl.
  intros [[= <- <-]|[[= <- <-]|[[= <- <-]|[[= <- <-]|[[= <- <-]|[]]]]]].
  - unfold enableAPIs. mirror.
  - unfold createServiceAccount. mirror.
  - unfold setupWorkloadIdentity. mirror.
  - unfold createArtifactRegistry. mirror.
  - unfold configureGitHub. mirror.
Qed.

End Mirror.

(** In a run for real in which every command succeeds a step of the
    setup command runs at least one command. *)
Lemma setupSteps_run_commands name fn cfg env h w :
  In (name, fn) setupSteps -> valid_rangeOrder env ->
  val (fn cfg (for_real env) h w) = None ->
  invocations (out (fn cfg (for_real env) h w)) <> [].
Proof.
  unfold setupSteps. simpl.
  intros [[= <- <-]|[[= <- <-]|[[= <- <-]|[[= <- <-]|[[= <- <-]|[]]]]]] Hord Hv;
    try (vm_compute; discriminate).
  destruct (configureGitHub_real cfg (for_real env) h w eq_refl) as [_ H].
  rewrite (H Hv). change (rangeOrder (for_real env)) with (rangeOrder env).
  pose proof (Hord (secrets cfg)) as Hp. rewrite secrets_entries in Hp.
  destruct (rangeOrder env (secrets cfg)) as [|kv l]; [|discriminate].
  now apply Permutation_nil_l in Hp.
Qed.

(** C2, amended: under [--dry-run] every operation of the five steps
    prints its command line behind the mark [dry-run] and returns nil,
    and no step executes an external binary: what a step prints is what
    it prints in the run for real in which all commands succeed, with
    every command it runs there replaced by the line of that command
    (for [gh], without [--body] and the value).  The one command a dry
    run does execute is the authentication check [gh auth status] that
    precedes the steps, when the configuration is complete and both
    binaries are installed. *)
Theorem dry_run_prints_instead_of_running env :
  dryRun env = true ->
  (forall name args h w,
     runCommand name args env h w =
       mkRes None [Stdout ("  [dry-run] " +:+ name +:+ " " +:+ Join args " " +:+ nl)] w /\
     runCommandSilent name args env h w =
       mkRes None [Stdout ("  [dry-run] " +:+ name +:+ " " +:+ Join args " " +:+ nl)] w) /\
  (forall kind repo name value h w,
     gh_set kind repo name value env h w =
       mkRes None (gh_set_dry_lines kind repo (name, value)) w) /\
  (forall name fn cfg h w,
     In (name, fn) setupSteps ->
     val (fn cfg env h w) = None /\ invocations (out (fn cfg env h w)) = []) /\
  (forall name fn cfg h w h' w',
     In (name, fn) setupSteps ->
     out (fn cfg env h w) = in_dry_run <$> out (fn cfg (for_real env) h' w') /\
     val (fn cfg (for_real env) h' w') = None /\
     (valid_rangeOrder env -> invocations (out (fn cfg (for_real env) h' w')) <> [])) /\
  (forall h w,
     invocations (out (runSetup env h w)) =
     match val (ValidateConfig env h w) with
     | Some _ => []
     | None =>
         if lookPath env "gcloud" && lookPath env "gh"
         then [("gh", ["auth"; "status"])] else []
     end).
Proof.
  intros Hdry.
  assert (Hsteps : forall name fn cfg h w,
            In (name, fn) setupSteps ->
            val (fn cfg env h w) = None /\ invocations (out (fn cfg env h w)) = []).
  { intros name fn cfg h w Hin.
    assert (Hq : Forall (fun e => is_Run e = false) (out (fn cfg env h w))).
    { apply (quiet_setupSteps (fun e => e = env)) with (name := name);
        [now intros ? ->|assumption|reflexivity]. }
    split; [|now apply invocations_no_Run].
    apply (handles_setupSteps name fn cfg Hin env h w). now apply no_fatal_no_Run. }
  split; [|split; [|split; [|split]]].
  - intros. now rewrite runCommand_eq, runCommandSilent_eq, Hdry.
  - intros. now apply gh_set_dry.
  - exact Hsteps.
  - intros name fn cfg h w h' w' Hin.
    destruct (mirrors_setupSteps env Hdry name fn cfg Hin h w h' w') as [Ho Hv].
    split; [exact Ho|]. split.
    + rewrite <- Hv. now apply (Hsteps name).
    + intros Hord. apply setupSteps_run_commands with (name := name); try assumption.
      rewrite <- Hv. now apply (Hsteps name).
  - intros. now apply runSetup_dry_invocations.
Qed.

(** C5: whatever the configuration, the flags, the input and the
    behaviour of the external commands, every external command executed
    by the setup, project create, load-balancer setup and init commands
    (GitHub configuration being a step of setup) is an invocation of
    [gcloud] or of [gh], provided the confirmation prompt, whose source
    is not at hand, executes no other binary. *)
Theorem only_gcloud_and_gh (promptConfirm : string -> M bool) :
  (forall question env h w, Forall gcloud_or_gh (out (promptConfirm question env h w))) ->
  forall env h w,
    Forall gcloud_or_gh (out (Execute runSetup env h w)) /\
    Forall gcloud_or_gh (out (Execute (runProjectCreate promptConfirm) env h w)) /\
    Forall gcloud_or_gh (out (Execute (runLoadBalancer promptConfirm) env h w)) /\
    Forall gcloud_or_gh (out (Execute runInit env h w)) /\
    (forall cfg, Forall gcloud_or_gh (out (configureGitHub cfg env h w))).
Proof.
  intros Hpc env h w.
  assert (Hpc' : forall q, emits (fun _ => True) gcloud_or_gh (promptConfirm q))
    by (intros q e hh ww _; apply Hpc).
  repeat split.
  - apply (ok_Execute (fun _ => True)); [apply ok_runSetup | exact I].
  - apply (ok_Execute (fun _ => True)); [now apply ok_runProjectCreate | exact I].
  - apply (ok_Execute (fun _ => True)); [now apply ok_runLoadBalancer | exact I].
  - apply (ok_Execute (fun _ => True)); [apply ok_runInit | exact I].
  - intros cfg. now apply (ok_configureGitHub (fun _ => True)).
Qed.

(** ** The theorems at work on sample runs *)

Lemma order_a_valid dry ni run : valid_rangeOrder (sample_env dry ni run order_a).
Proof. intros m. reflexivity. Qed.

Lemma order_b_valid env : valid_rangeOrder (with_order env order_b).
Proof. intros m. apply reverse_Permutation. Qed.

(** Granting the first role fails: the run stops in step 2. *)
Lemma runSetup_steps_in_series_witness :
  let env := sample_env false true grants_fail order_a in
  val (ValidateConfig env [] empty_world) = None /\
  lookPath env "gcloud" = true /\
  lookPath env "gh" = true /\
  runCmd env [] "gh" ["auth"; "status"] = None /\
  val (runSetup env [] empty_world) =
  Some (Errorf_w "Creating Service Account failed: " (RunError "exit status 1")).
Proof.
  intros env.
  assert (Hv : val (ValidateConfig env [] empty_world) = None) by (vm_compute; reflexivity).
  split; [exact Hv|]. do 3 (split; [reflexivity|]).
  rewrite (runSetup_steps_in_series env [] empty_world Hv eq_refl eq_refl eq_refl).
  vm_compute. reflexivity.
Defined.

(** A dry run with a complete configuration checks the authentication
    of [gh] for real; its fourth step prints the command that creates
    the repository where the run for real executes it. *)
Lemma dry_run_prints_instead_of_running_witness :
  let env := sample_env true true all_succeed order_a in
  let cfg := val (loadConfig env [] empty_world) in
  let create := ["artifacts"; "repositories"; "create"; "images"; "--project=proj";
                 "--location=europe-west1"; "--repository-format=docker";
                 "--description=Container registry for CI/CD"] in
  dryRun env = true /\
  invocations (out (runSetup env [] empty_world)) = [("gh", ["auth"; "status"])] /\
  out (createArtifactRegistry cfg (for_real env) [] empty_world) =
    [ Stdout ("  Creating repository: images" +:+ nl); Run "gcloud" create None ] /\
  out (createArtifactRegistry cfg env [] empty_world) =
    [ Stdout ("  Creating repository: images" +:+ nl);
      Stdout ("  [dry-run] gcloud " +:+ Join create " " +:+ nl) ].
Proof.
  intros env cfg create. split; [reflexivity|].
  destruct (dry_run_prints_instead_of_running env eq_refl) as (_ & _ & _ & Hm & H).
  split; [rewrite H; vm_compute; reflexivity|].
  split; [vm_compute; reflexivity|].
  destruct (Hm "Creating Artifact Registry" createArtifactRegistry cfg
              [] empty_world [] empty_world) as (-> & _); [simpl; tauto|].
  vm_compute. reflexivity.
Defined.

(** C2 as stated fails: this dry run executes an external binary. *)
Lemma dry_run_executes_gh_auth_status :
  let env := sample_env true true all_succeed order_a in
  dryRun env = true /\
  In (Run "gh" ["auth"; "status"] None) (out (runSetup env [] empty_world)).
Proof. split; [reflexivity|]. vm_compute. now left. Qed.

(** With the resources in place every create fails, and every step
    succeeds all the same. *)
Lemma idempotent_create_failures_ignored_witness :
  let env := sample_env false true creates_fail order_a in
  let cfg := val (loadConfig env [] empty_world) in
  In ("Creating Artifact Registry", createArtifactRegistry) setupSteps /\
  dryRun env = false /\
  val (createArtifactRegistry cfg env [] empty_world) = None /\
  exists what,
    out (createArtifactRegistry cfg env [] empty_world) =
    [ Stdout ("  Creating repository: images" +:+ nl);
      Run "gcloud" ["artifacts"; "repositories"; "create"; "images"; "--project=proj";
                    "--location=europe-west1"; "--repository-format=docker";
                    "--description=Container registry for CI/CD"]
          (Some "exit status 1");
      continue_note what ].
Proof.
  intros env cfg.
  assert (Hin : In ("Creating Artifact Registry", createArtifactRegistry) setupSteps)
    by (simpl; tauto).
  destruct (idempotent_create_failures_ignored _ _ cfg env [] empty_world Hin)
    as (H1 & _ & H3).
  destruct (H3 eq_refl) as (_ & _ & _ & Hnil).
  split; [exact Hin|]. split; [reflexivity|]. split; [exact Hnil|].
  specialize (H1 [Stdout ("  Creating repository: images" +:+ nl)] "gcloud"
                ["artifacts"; "repositories"; "create"; "images"; "--project=proj";
                 "--location=europe-west1"; "--repository-format=docker";
                 "--description=Container registry for CI/CD"]
                "exit status 1"
                [continue_note "repository"] eq_refl).
  cbn in H1. destruct H1 as (what & post' & E).
  exists "repository". reflexivity.
Defined.

(** The failing role grant of the first witness, seen from [Execute]. *)
Lemma Execute_prints_error_and_exits_witness :
  let env := sample_env false true grants_fail order_a in
  val (ValidateConfig env [] empty_world) = None /\
  val (runSetup env [] empty_world) =
    Some (Errorf_w "Creating Service Account failed: " (RunError "exit status 1")) /\
  exists name e',
    out (Execute runSetup env [] empty_world) =
    out (runSetup env [] empty_world)
    ++ [ Stderr ("Error: " +:+ name +:+ " failed: " +:+ Error e' +:+ nl);
         Stderr (usageString env +:+ nl);
         Stderr (name +:+ " failed: " +:+ Error e' +:+ nl);
         Exit 1 ].
Proof.
  intros env.
  assert (Hv : val (ValidateConfig env [] empty_world) = None) by (vm_compute; reflexivity).
  assert (He : val (runSetup env [] empty_world) =
               Some (Errorf_w "Creating Service Account failed: " (RunError "exit status 1")))
    by (vm_compute; reflexivity).
  split; [exact Hv|]. split; [exact He|].
  destruct (proj2 (proj2 Execute_prints_error_and_exits) env [] empty_world _
              Hv eq_refl eq_refl eq_refl He)
    as (name & fn & hk & wk & e' & _ & _ & _ & Hout).
  now exists name, e'.
Defined.

(** C4 as stated fails: [Execute] is not all the failure handling there
    is at the top level.  In this run the error is on standard error
    twice, once from cobra and once from [Execute], with the usage text
    in between. *)
Lemma Execute_is_not_the_only_failure_handling :
  let env := sample_env false true grants_fail order_a in
  let r := runSetup env [] empty_world in
  val r = Some (Errorf_w "Creating Service Account failed: " (RunError "exit status 1")) /\
  out (Execute runSetup env [] empty_world) =
    out r ++ [ Stderr ("Error: Creating Service Account failed: exit status 1" +:+ nl);
               Stderr ("Usage:" +:+ nl +:+ "  gcsetup [command]" +:+ nl);
               Stderr ("Creating Service Account failed: exit status 1" +:+ nl);
               Exit 1 ] /\
  out (Execute runSetup env [] empty_world) <>
    out r ++ [ Stderr ("Creating Service Account failed: exit status 1" +:+ nl);
               Exit 1 ].
Proof.
  intros env r. split; [vm_compute; reflexivity|].
  split; [vm_compute; reflexivity|].
  vm_compute. discriminate.
Qed.

Lemma sample_promptConfirm_runs_nothing question env h w :
  Forall gcloud_or_gh (out (sample_promptConfirm question env h w)).
Proof.
  unfold sample_promptConfirm, Print. rewrite emit_bind. cbn [out].
  rewrite bind_eq, ReadString_eq. cbn [val out world app].
  repeat constructor.
Qed.

(** An interactive load-balancer setup with one service, confirmed. *)
Lemma only_gcloud_and_gh_witness :
  let env := sample_env false false all_succeed order_a in
  let input := typing [ "lb"; "default"; EmptyString; "8080"; "n"; "1";
                        "api"; "HTTP"; "8080"; "/api/*"; "y" ] in
  (forall question e h w,
     Forall gcloud_or_gh (out (sample_promptConfirm question e h w))) /\
  Forall gcloud_or_gh
    (out (Execute (runLoadBalancer sample_promptConfirm) env [] input)).
Proof.
  intros env input. split; [exact sample_promptConfirm_runs_nothing|].
  exact (proj1 (proj2 (proj2
           (only_gcloud_and_gh sample_promptConfirm
              sample_promptConfirm_runs_nothing env [] input)))).
Defined.

(** Two runs that differ in the iteration order only. *)
Lemma setup_runs_agree_up_to_map_order_witness :
  let env := sample_env false true all_succeed order_a in
  let cfg := val (loadConfig env [] empty_world) in
  valid_rangeOrder env /\ valid_rangeOrder (with_order env order_b) /\
  rangeOrder (with_order env order_b) (secrets cfg) ≡ₚ rangeOrder env (secrets cfg).
Proof.
  intros env cfg.
  pose proof (order_a_valid false true all_succeed) as Ha.
  pose proof (order_b_valid env) as Hb.
  split; [exact Ha|]. split; [exact Hb|].
  exact (proj1 (proj2 (proj2 (proj2
           (setup_runs_agree_up_to_map_order env order_b [] empty_world Ha Hb))))).
Defined.

(** C6 as stated fails: same configuration, same flags, same outcomes of
    the commands, and yet the secrets are set in a different order. *)
Lemma setup_runs_differ_in_secret_order :
  let env1 := sample_env false true all_succeed order_a in
  let env2 := sample_env false true all_succeed order_b in
  valid_rangeOrder env1 /\ valid_rangeOrder env2 /\
  invocations (out (runSetup env1 [] empty_world)) <>
  invocations (out (runSetup env2 [] empty_world)) /\
  out (runSetup (sample_env true true all_succeed order_a) [] empty_world) <>
  out (runSetup (sample_env true true all_succeed order_b) [] empty_world).
Proof.
  repeat split.
  - apply order_a_valid.
  - apply (order_b_valid (sample_env false true all_succeed order_a)).
  - vm_compute. discriminate.
  - vm_compute. discriminate.
Qed.

(** An existing environment file survives [runInit]. *)
Lemma writeFileIfNotExists_never_overwrites_witness :
  let env := sample_env false true all_succeed order_a in
  let p := "/work/.env.gcloud" in
  getwd env = inl "/work" /\
  p = envPath_of "/work" /\
  files with_env_file !! p = Some (File "GCP_PROJECT_ID=mine" true true) /\
  files (world (runInit env [] with_env_file)) !! p
  = Some (File "GCP_PROJECT_ID=mine" true true).
Proof.
  intros env p. do 3 (split; [reflexivity|]).
  exact (proj2 (proj2 (proj2 (proj2
           (writeFileIfNotExists_never_overwrites EmptyString EmptyString env []
              with_env_file))))
         "/work" p _ eq_refl (or_intror eq_refl) eq_refl).
Defined.

(** C8 as stated fails: the path does not exist, and an error is
    returned because the file cannot be created. *)
Lemma writeFileIfNotExists_fails_without_file :
  files empty_world !! "/work/.env.gcloud" = None /\
  val (writeFileIfNotExists "/work/.env.gcloud" "GCP_PROJECT_ID=" read_only_env []
         empty_world)
  = Some (RunError "open /work/.env.gcloud: permission denied").
Proof. split; reflexivity. Qed.

(** Sample prompts. *)
Example promptLB_trims :
  val (promptLB "Network" "default" (sample_env false false all_succeed order_a) []
         (typing ["  my-net "])) = "my-net".
Proof. reflexivity. Qed.

Example promptLB_blank_line :
  val (promptLB "Network" "default" (sample_env false false all_succeed order_a) []
         (typing ["   "])) = "default".
Proof. reflexivity. Qed.

(** A panic is not an error that [Execute] reports: [loadbalancer setup
    --yes] without a URL map in place ends on the panic with status 2,
    and neither cobra nor [Execute] writes an error message. *)
Example Execute_after_a_panic :
  let env := sample_env false true (fun _ _ _ => Some "exit status 1") order_a in
  let tr := out (Execute (runLoadBalancer sample_promptConfirm) env [] empty_world) in
  last tr = Some (Exit 2) /\
  last (removelast tr)
  = Some (Panic "runtime error: index out of range [0] with length 0") /\
  forallb (fun e => match e with Stderr _ => false | _ => true end) tr = true.
Proof. vm_compute. repeat split. Qed.

(** On a pipe the reader of the first prompt takes the second line with
    it: the second prompt finds standard input at its end and falls back
    on its default. *)
Example prompts_on_a_pipe :
  let env := piped (sample_env false false all_succeed order_a) in
  let r1 := promptLB "Network" "default" env []
              (mkWorld ("alpha" +:+ nl +:+ "beta" +:+ nl) ∅) in
  let r2 := promptLB "Subnet" "auto" env (out r1) (world r1) in
  val r1 = "alpha" /\ stdin (world r1) = EmptyString /\ val r2 = "auto".
Proof. repeat split. Qed.

(** At a terminal each prompt gets the line typed for it. *)
Example prompts_at_a_terminal :
  let env := sample_env false false all_succeed order_a in
  let r1 := promptLB "Network" "default" env [] (typing ["alpha"; "beta"]) in
  let r2 := promptLB "Subnet" "auto" env (out r1) (world r1) in
  val r1 = "alpha" /\ stdin (world r1) = "beta" +:+ nl /\ val r2 = "beta".
Proof. repeat split. Qed.

(** The reader of [interactiveLBConfig] keeps what it has read ahead: on
    a pipe its second read is served from its buffer. *)
Example reader_keeps_its_buffer :
  let env := piped (sample_env false false all_succeed order_a) in
  let r1 := Reader_ReadString NewReader env []
              (mkWorld ("8080" +:+ nl +:+ "n" +:+ nl +:+ "2" +:+ nl) ∅) in
  let r2 := Reader_ReadString (val r1).2 env [] (world r1) in
  val r1 = ("8080" +:+ nl, "n" +:+ nl +:+ "2" +:+ nl) /\
  stdin (world r1) = EmptyString /\
  val r2 = ("n" +:+ nl, "2" +:+ nl).
Proof. repeat split. Qed.

(** A write that fails half way leaves a partial file behind, and
    [writeFileIfNotExists] returns the error of the write. *)
Example writeFileIfNotExists_partial_file :
  let env := with_fault read_only_env 4 "write /work/.env.gcloud: no space left on device" in
  let r := writeFileIfNotExists "/work/.env.gcloud" "GCP_PROJECT_ID=" env [] empty_world in
  val r = Some (RunError "write /work/.env.gcloud: no space left on device") /\
  files (world r) !! "/work/.env.gcloud" = Some (File "GCP_" true true).
Proof. repeat split. Qed.

Example promptProject_yes :
  promptProject "Project ID" "my-project" (sample_env false true all_succeed order_a) []
    (typing ["ignored"])
  = mkRes "my-project" [] (typing ["ignored"]).
Proof. reflexivity. Qed.

(** Both binaries are in use: a successful setup run invokes [gh] first
    (the authentication check), then [gcloud] eighteen times and [gh]
    five more times. *)
Example setup_runs_both_binaries :
  (invocations (out (runSetup (sample_env false true all_succeed order_a) []
                       empty_world))).*1
  = ["gh"] ++ replicate 18 "gcloud" ++ replicate 5 "gh".
Proof. vm_compute. reflexivity. Qed.

(** * Further properties of the commands *)

(** ** Dry runs of project create and of the load-balancer setup *)

Lemma emits_flag_true {A} (E : Env -> Prop) (P : event -> Prop) (f : Env -> bool)
    (m1 m2 : M A) :
  (forall env, E env -> f env = true) ->
  emits E P m1 ->
  emits E P (b <- flag f ;; if b then m1 else m2).
Proof.
  intros Hf H1. apply emits_flag_bind. intros [|].
  - eapply emits_weaken; [|exact H1]. now intros env [HE _].
  - apply emits_absurd. intros env [HE Hb]. rewrite (Hf env HE) in Hb.
    discriminate Hb.
Qed.

Lemma Forall_no_Run (tr : list event) :
  invocations tr = [] -> Forall (fun e => is_Run e = false) tr.
Proof.
  induction tr as [|e tr IH]; [constructor|].
  destruct e; try discriminate; intros H; constructor; auto.
Qed.

(** Like [emits_go], with the branch a flag selects known from the
    hypothesis [Hflag] on the environments. *)
Ltac flag_go Hflag :=
  cbv zeta;
  lazymatch goal with
  | |- emits _ _ (bind (flag _) _) =>
      first [ apply emits_flag_true; [exact Hflag | flag_go Hflag]
            | apply emits_bind; [apply emits_flag | intro; flag_go Hflag] ]
  | |- emits _ _ (bind _ _) =>
      apply emits_bind; [flag_go Hflag | intro; flag_go Hflag]
  | |- emits _ _ (or_return_w _ _ _) => apply emits_or_return_w; flag_go Hflag
  | |- emits _ _ (or_return _ _) => apply emits_or_return; flag_go Hflag
  | |- emits _ _ (for_range _ _) => apply emits_for_range; intro; flag_go Hflag
  | |- emits _ _ (match ?x with _ => _ end) => destruct x; flag_go Hflag
  | |- _ => emits_go
  end.

Section ProjectDryRun.
Context (E : Env -> Prop).
Hypothesis E_dry : forall env, E env -> projectDryRun env = true.
Local Abbreviation quiet := (emits E (fun e => is_Run e = false)).

Lemma quiet_createGCPProject cfg : quiet (createGCPProject cfg).
Proof. unfold createGCPProject. flag_go E_dry. Qed.

Lemma quiet_enableProjectAPIs cfg : quiet (enableProjectAPIs cfg).
Proof. unfold enableProjectAPIs. flag_go E_dry. Qed.

Lemma quiet_createProjectServiceAccount cfg : quiet (createProjectServiceAccount cfg).
Proof. unfold createProjectServiceAccount. flag_go E_dry. Qed.

Lemma quiet_setupProjectWorkloadIdentity cfg : quiet (setupProjectWorkloadIdentity cfg).
Proof. unfold setupProjectWorkloadIdentity. flag_go E_dry. Qed.

Lemma quiet_createProjectArtifactRegistry cfg :
  quiet (createProjectArtifactRegistry cfg).
Proof. unfold createProjectArtifactRegistry. flag_go E_dry. Qed.

Lemma quiet_promptProject label dflt : quiet (promptProject label dflt).
Proof. unfold promptProject. emits_go. Qed.

Context (promptConfirm : string -> M bool).
Hypothesis quiet_promptConfirm : forall question, quiet (promptConfirm question).

Lemma quiet_runProjectCreate : quiet (runProjectCreate promptConfirm).
Proof.
  pose proof quiet_promptProject.
  unfold runProjectCreate, interactiveProjectConfig, checkGcloud. emits_go.
  apply emits_run_steps; [reflexivity|]. unfold projectSteps.
  repeat constructor; cbn [snd].
  - apply quiet_createGCPProject.
  - apply quiet_enableProjectAPIs.
  - apply quiet_createProjectServiceAccount.
  - apply quiet_setupProjectWorkloadIdentity.
  - apply quiet_createProjectArtifactRegistry.
Qed.

End ProjectDryRun.

Section LBDryRun.
Context (E : Env -> Prop).
Hypothesis E_dry : forall env, E env -> lbDryRun env = true.
Local Abbreviation quiet := (emits E (fun e => is_Run e = false)).

Lemma quiet_createHealthChecks cfg : quiet (createHealthChecks cfg).
Proof. unfold createHealthChecks. flag_go E_dry. Qed.

Lemma quiet_createBackendServices cfg : quiet (createBackendServices cfg).
Proof. unfold createBackendServices. flag_go E_dry. Qed.

Lemma quiet_createURLMap cfg : quiet (createURLMap cfg).
Proof. unfold createURLMap. flag_go E_dry. Qed.

Lemma quiet_createHTTPSProxy cfg : quiet (createHTTPSProxy cfg).
Proof. unfold createHTTPSProxy. flag_go E_dry. Qed.

Lemma quiet_createForwardingRule cfg : quiet (createForwardingRule cfg).
Proof. unfold createForwardingRule. flag_go E_dry. Qed.

Lemma quiet_promptLB label dflt : quiet (promptLB label dflt).
Proof. unfold promptLB. emits_go. Qed.

Lemma quiet_read_services idxs : forall services reader,
  quiet (read_services idxs services reader).
Proof.
  pose proof quiet_promptLB.
  induction idxs as [|i idxs IH]; intros services reader; simpl; emits_go.
Qed.

Context (promptConfirm : string -> M bool).
Hypothesis quiet_promptConfirm : forall question, quiet (promptConfirm question).

Lemma quiet_runLoadBalancer : quiet (runLoadBalancer promptConfirm).
Proof.
  pose proof quiet_promptLB. pose proof quiet_read_services.
  unfold runLoadBalancer, interactiveLBConfig, checkGcloud. emits_go.
  - apply emits_emit_all.
    eapply Forall_impl; [apply service_summary_Stdout|]. now intros e [s ->].
  - apply emits_run_steps; [reflexivity|]. unfold lbSteps.
    repeat constructor; cbn [snd].
    + apply quiet_createHealthChecks.
    + apply quiet_createBackendServices.
    + apply quiet_createURLMap.
    + apply quiet_createHTTPSProxy.
    + apply quiet_createForwardingRule.
Qed.

End LBDryRun.

(** X1: with [--dry-run], [gcsetup project create] executes no external
    command at all, whatever the answers typed and whether [--yes] is set
    or not, provided the confirmation prompt runs none itself: unlike
    [setup], its only check is a look-up of [gcloud] on the PATH. *)
Theorem project_create_dry_run_executes_nothing
    (promptConfirm : string -> M bool) env h w :
  (forall question env h w, invocations (out (promptConfirm question env h w)) = []) ->
  projectDryRun env = true ->
  invocations (out (runProjectCreate promptConfirm env h w)) = [].
Proof.
  intros Hp Hdry. apply invocations_no_Run.
  apply (quiet_runProjectCreate (fun env => projectDryRun env = true)); auto.
  intros question env' h' w' _. apply Forall_no_Run, Hp.
Qed.

(** X2: with [--dry-run], [gcsetup loadbalancer setup] executes no
    external command at all: none of the five steps describes or creates
    a resource. *)
Theorem lb_dry_run_executes_nothing
    (promptConfirm : string -> M bool) env h w :
  (forall question env h w, invocations (out (promptConfirm question env h w)) = []) ->
  lbDryRun env = true ->
  invocations (out (runLoadBalancer promptConfirm env h w)) = [].
Proof.
  intros Hp Hdry. apply invocations_no_Run.
  apply (quiet_runLoadBalancer (fun env => lbDryRun env = true)); auto.
  intros question env' h' w' _. apply Forall_no_Run, Hp.
Qed.

(** ** The commands name the configured project and repository *)

Ltac names_it := cbv [names_project In]; intuition (auto 20; eauto 20).

Section OnProject.
Context (E : Env -> Prop).

Lemma scoped_runCommandSilent project repo args :
  names_project project args ->
  emits E (on_project_or_repo project repo) (runCommandSilent "gcloud" args).
Proof. intros Ha. unfold runCommandSilent. emits_go. Qed.

Lemma scoped_gh_set project kind repo name value :
  emits E (on_project_or_repo project repo) (gh_set kind repo name value).
Proof. unfold gh_set. emits_go. right. eauto 10. Qed.

Lemma scoped_setupSteps name fn cfg :
  In (name, fn) setupSteps ->
  emits E (on_project_or_repo (ProjectID cfg) (repo_of cfg)) (fn cfg).
Proof.
  unfold setupSteps. simpl.
  intros [[= <- <-]|[[= <- <-]|[[= <- <-]|[[= <- <-]|[[= <- <-]|[]]]]]].
  - unfold enableAPIs. emits_go. apply scoped_runCommandSilent. names_it.
  - unfold createServiceAccount. emits_go; apply scoped_runCommandSilent; names_it.
  - unfold setupWorkloadIdentity. emits_go; apply scoped_runCommandSilent; names_it.
  - unfold createArtifactRegistry. emits_go; apply scoped_runCommandSilent; names_it.
  - unfold configureGitHub, range_map. emits_go; apply scoped_gh_set.
Qed.

Lemma scoped_projectSteps name fn cfg :
  In (name, fn) projectSteps ->
  emits E (on_project (ProjectConfig.ProjectID cfg)) (fn cfg).
Proof.
  unfold projectSteps. simpl.
  intros [[= <- <-]|[[= <- <-]|[[= <- <-]|[[= <- <-]|[[= <- <-]|[]]]]]].
  - unfold createGCPProject. emits_go. split; [reflexivity|names_it].
  - unfold enableProjectAPIs. emits_go. split; [reflexivity|names_it].
  - unfold createProjectServiceAccount. emits_go. split; [reflexivity|names_it].
  - unfold setupProjectWorkloadIdentity. emits_go; (split; [reflexivity|names_it]).
  - unfold createProjectArtifactRegistry. emits_go. split; [reflexivity|names_it].
Qed.

Lemma scoped_lbSteps name fn cfg :
  In (name, fn) lbSteps ->
  emits E (on_project (LoadBalancerConfig.ProjectID cfg)) (fn cfg).
Proof.
  unfold lbSteps. simpl.
  intros [[= <- <-]|[[= <- <-]|[[= <- <-]|[[= <- <-]|[[= <- <-]|[]]]]]].
  - unfold createHealthChecks. emits_go; (split; [reflexivity|names_it]).
  - unfold createBackendServices. emits_go; (split; [reflexivity|names_it]).
  - unfold createURLMap. emits_go; (split; [reflexivity|names_it]).
  - unfold createHTTPSProxy. emits_go; (split; [reflexivity|names_it]).
  - unfold createForwardingRule. emits_go; (split; [reflexivity|names_it]).
Qed.

End OnProject.

(** X3: every command the five steps of [setup] run is aimed at what the
    configuration names: a [gcloud] command carries the configured
    project id, as an argument of its own or as [--project=<id>], and a
    [gh] command is [gh secret set] or [gh variable set] with [--repo]
    followed by the configured [<organization>/<repository>]. *)
Theorem setup_commands_name_project_and_repo name fn cfg env h w :
  In (name, fn) setupSteps ->
  Forall (on_project_or_repo (ProjectID cfg) (GitHubOrg cfg +:+ "/" +:+ GitHubRepo cfg))
    (out (fn cfg env h w)).
Proof.
  intros Hin.
  now apply (scoped_setupSteps (fun _ => True) name fn cfg Hin env h w).
Qed.

(** X4: every command run by a step of [project create] or of
    [loadbalancer setup] is a [gcloud] command that carries the project
    id of the configuration the step was given. *)
Theorem project_and_lb_commands_name_project env h w :
  (forall name fn cfg, In (name, fn) projectSteps ->
     Forall (on_project (ProjectConfig.ProjectID cfg)) (out (fn cfg env h w))) /\
  (forall name fn cfg, In (name, fn) lbSteps ->
     Forall (on_project (LoadBalancerConfig.ProjectID cfg)) (out (fn cfg env h w))).
Proof.
  split; intros name fn cfg Hin.
  - now apply (scoped_projectSteps (fun _ => True) name fn cfg Hin env h w).
  - now apply (scoped_lbSteps (fun _ => True) name fn cfg Hin env h w).
Qed.

(** ** Failing commands in project create and in the load-balancer setup *)

Section FailsOn.
Context (fatal : list string -> bool).

Lemma failure_ends_app (t1 t2 : list event) :
  none_failed fatal t1 = true ->
  failure_ends fatal (t1 ++ t2) = failure_ends fatal t2.
Proof.
  induction t1 as [|e t1 IH]; [reflexivity|].
  cbn [none_failed forallb]. intros H. apply andb_true_iff in H as [He H].
  cbn [app failure_ends]. destruct (failed fatal e); [discriminate He|]. now apply IH.
Qed.

Lemma none_failed_app (t1 t2 : list event) :
  none_failed fatal (t1 ++ t2) = none_failed fatal t1 && none_failed fatal t2.
Proof. apply forallb_app. Qed.

Lemma fails_on_ret_None : fails_on fatal (ret None).
Proof. intros env h w. now split. Qed.

Lemma fails_on_or_return (c k : M (option error)) :
  fails_on fatal c -> fails_on fatal k -> fails_on fatal (or_return c k).
Proof.
  intros Hc Hk env h w. rewrite or_return_prepend.
  destruct (Hc env h w) as [Hc1 Hc2].
  destruct (val (c env h w)) as [e|] eqn:E; cbn [val out prepend].
  - split; [exact Hc1|]. rewrite <- Hc2. split; discriminate.
  - assert (Hn : none_failed fatal (out (c env h w)) = true) by now apply Hc2.
    destruct (Hk env (h ++ out (c env h w)) (world (c env h w))) as [Hk1 Hk2].
    rewrite failure_ends_app, none_failed_app, Hn by assumption.
    split; assumption.
Qed.

Lemma fails_on_or_return_w msg (c k : M (option error)) :
  fails_on fatal c -> fails_on fatal k -> fails_on fatal (or_return_w msg c k).
Proof.
  intros Hc Hk env h w. rewrite or_return_w_prepend.
  destruct (Hc env h w) as [Hc1 Hc2].
  destruct (val (c env h w)) as [e|] eqn:E; cbn [val out prepend].
  - split; [exact Hc1|]. rewrite <- Hc2. split; discriminate.
  - assert (Hn : none_failed fatal (out (c env h w)) = true) by now apply Hc2.
    destruct (Hk env (h ++ out (c env h w)) (world (c env h w))) as [Hk1 Hk2].
    rewrite failure_ends_app, none_failed_app, Hn by assumption.
    split; assumption.
Qed.

Lemma fails_on_for_range {A} (xs : list A) (body : A -> M (option error)) :
  (forall x, fails_on fatal (body x)) -> fails_on fatal (for_range xs body).
Proof.
  intros Hb. induction xs as [|x xs IH]; simpl.
  - apply fails_on_ret_None.
  - apply fails_on_or_return; [apply Hb | exact IH].
Qed.

Lemma fails_on_Print (s : string) (k : M (option error)) :
  fails_on fatal k -> fails_on fatal (Print s ;; k).
Proof. intros Hk env h w. unfold Print. rewrite emit_prepend. apply Hk. Qed.

Lemma fails_on_Println (s : string) (k : M (option error)) :
  fails_on fatal k -> fails_on fatal (Println s ;; k).
Proof. intros Hk env h w. unfold Println. rewrite emit_prepend. apply Hk. Qed.

Lemma fails_on_flag (f : Env -> bool) (k : bool -> M (option error)) :
  (forall b, fails_on fatal (k b)) -> fails_on fatal (b <- flag f ;; k b).
Proof. intros Hk env h w. rewrite bind_silent by reflexivity. apply Hk. Qed.

Lemma fails_on_ask (k : Env -> M (option error)) :
  (forall e, fails_on fatal (k e)) -> fails_on fatal (e <- ask ;; k e).
Proof. intros Hk env h w. rewrite bind_silent by reflexivity. apply Hk. Qed.

(** A command whose failure is returned. *)
Lemma fails_on_Command_Run (name : string) (args : list string) :
  fatal args = true -> fails_on fatal (Command_Run name args).
Proof.
  intros Ha env h w. unfold Command_Run.
  cbn [val out failure_ends none_failed forallb failed].
  destruct (runCmd env h name args) as [msg|]; cbn [fmap option_fmap option_map].
  - rewrite Ha. now split.
  - now split.
Qed.

(** A command whose failure is looked at and put up with. *)
Lemma fails_on_tolerated (name : string) (args : list string)
    (k : option error -> M (option error)) :
  fatal args = false ->
  (forall err, fails_on fatal (k err)) ->
  fails_on fatal (err <- Command_Run name args ;; k err).
Proof.
  intros Ha Hk env h w. rewrite bind_eq. cbn [val out world].
  assert (Hn : none_failed fatal (out (Command_Run name args env h w)) = true).
  { unfold Command_Run. cbn. destruct (runCmd env h name args); cbn; now rewrite ?Ha. }
  rewrite failure_ends_app, none_failed_app, Hn by exact Hn.
  apply Hk.
Qed.

Lemma failure_ends_split (tr : list event) :
  failure_ends fatal tr = true ->
  forall pre e post, tr = pre ++ e :: post -> failed fatal e = true -> post = [].
Proof.
  induction tr as [|e0 tr IH]; intros H pre e post Heq Hf.
  - now destruct pre.
  - cbn [failure_ends] in H. destruct pre as [|e1 pre]; injection Heq as -> ->.
    + rewrite Hf in H. now destruct post.
    + destruct (failed fatal e1).
      * now destruct pre.
      * now apply (IH H pre e post).
Qed.

Lemma none_failed_spec (tr : list event) :
  none_failed fatal tr = true <->
  forall name args msg, In (Run name args (Some msg)) tr -> fatal args = false.
Proof.
  unfold none_failed. rewrite forallb_forall. split.
  - intros H name args msg Hin. specialize (H _ Hin). cbn in H.
    now destruct (fatal args).
  - intros H [s|s|n a [msg|]|c|s] Hin; try reflexivity. cbn.
    now rewrite (H n a msg Hin).
Qed.

End FailsOn.

Ltac fails_on_go :=
  cbv zeta;
  lazymatch goal with
  | |- fails_on _ (bind (flag _) _) => apply fails_on_flag; intros [|]; fails_on_go
  | |- fails_on _ (bind ask _) => apply fails_on_ask; intro; fails_on_go
  | |- fails_on _ (bind (Print _) _) => apply fails_on_Print; fails_on_go
  | |- fails_on _ (bind (Println _) _) => apply fails_on_Println; fails_on_go
  | |- fails_on _ (bind (Command_Run _ _) _) =>
      apply fails_on_tolerated; [reflexivity | intros [?|]; fails_on_go]
  | |- fails_on _ (or_return_w _ _ _) => apply fails_on_or_return_w; fails_on_go
  | |- fails_on _ (or_return _ _) => apply fails_on_or_return; fails_on_go
  | |- fails_on _ (for_range _ _) => apply fails_on_for_range; intro; fails_on_go
  | |- fails_on _ (if ?b then _ else _) => destruct b; fails_on_go
  | |- fails_on _ (ret None) => apply fails_on_ret_None
  | |- fails_on _ (Command_Run _ _) => apply fails_on_Command_Run; reflexivity
  | |- _ => idtac
  end.

Lemma fails_on_projectSteps name fn cfg :
  In (name, fn) projectSteps -> fails_on any_command (fn cfg).
Proof.
  unfold projectSteps. simpl.
  intros [[= <- <-]|[[= <- <-]|[[= <- <-]|[[= <- <-]|[[= <- <-]|[]]]]]].
  - unfold createGCPProject. fails_on_go.
  - unfold enableProjectAPIs. fails_on_go.
  - unfold createProjectServiceAccount. fails_on_go.
  - unfold setupProjectWorkloadIdentity. fails_on_go.
  - unfold createProjectArtifactRegistry. fails_on_go.
Qed.

Lemma fails_on_lbSteps name fn cfg :
  In (name, fn) lbSteps ->
  LoadBalancerConfig.Services cfg <> [] ->
  fails_on describe_or_path_rule_fatal (fn cfg).
Proof.
  unfold lbSteps. simpl.
  intros [[= <- <-]|[[= <- <-]|[[= <- <-]|[[= <- <-]|[[= <- <-]|[]]]]]] Hs.
  - unfold createHealthChecks. fails_on_go.
  - unfold createBackendServices. fails_on_go.
  - unfold createURLMap. destruct (LoadBalancerConfig.Services cfg) as [|s0 rest];
      [now destruct Hs|]. fails_on_go.
  - unfold createHTTPSProxy. fails_on_go.
  - unfold createForwardingRule. fails_on_go.
Qed.

(** X5: the steps of [project create] tolerate no failure.  In each of
    the five steps, and for every behaviour of [gcloud], a command that
    fails is the last thing the step does, and the step returns nil
    exactly when none of its commands failed: unlike in [setup], a
    service account, pool, provider or repository that exists already
    makes the step, and with it the command, fail. *)
Theorem project_step_fails_at_first_failed_command name fn cfg env h w :
  In (name, fn) projectSteps ->
  let r := fn cfg env h w in
  (forall pre cmd args msg post,
     out r = pre ++ Run cmd args (Some msg) :: post -> post = []) /\
  (val r = None <-> forall cmd args msg, ~ In (Run cmd args (Some msg)) (out r)).
Proof.
  intros Hin r.
  destruct (fails_on_projectSteps name fn cfg Hin env h w) as [H1 H2].
  fold r in H1, H2. split.
  - intros pre cmd args msg post Heq.
    now apply (failure_ends_split _ _ H1 pre (Run cmd args (Some msg)) post).
  - rewrite H2, none_failed_spec. split.
    + intros H cmd args msg Hin'. now specialize (H cmd args msg Hin').
    + intros H cmd args msg Hin'. destruct (H cmd args msg Hin').
Qed.

(** X6: a step of the load-balancer setup, given at least one service,
    fails exactly when one of its [create] commands fails, and stops
    there.  A [describe] that fails (the resource does not exist yet) and
    an [add-path-rule] that fails never make a step fail. *)
Theorem lb_step_fails_exactly_when_create_fails name fn cfg env h w :
  In (name, fn) lbSteps ->
  LoadBalancerConfig.Services cfg <> [] ->
  let r := fn cfg env h w in
  (val r = None <->
   forall cmd args msg,
     In (Run cmd args (Some msg)) (out r) -> describe_or_path_rule args = true) /\
  (forall pre cmd args msg post,
     out r = pre ++ Run cmd args (Some msg) :: post ->
     describe_or_path_rule args = false -> post = []).
Proof.
  intros Hin Hs r.
  destruct (fails_on_lbSteps name fn cfg Hin Hs env h w) as [H1 H2].
  fold r in H1, H2. split.
  - rewrite H2, none_failed_spec. split.
    + intros H cmd args msg Hin'. specialize (H cmd args msg Hin').
      unfold describe_or_path_rule_fatal in H. now destruct (describe_or_path_rule args).
    + intros H cmd args msg Hin'. unfold describe_or_path_rule_fatal.
      now rewrite (H cmd args msg Hin').
  - intros pre cmd args msg post Heq Ha.
    apply (failure_ends_split _ _ H1 pre (Run cmd args (Some msg)) post Heq).
    cbn. unfold describe_or_path_rule_fatal. now rewrite Ha.
Qed.

(** ** Looking past the quiet part of a run *)

Lemma or_return_failed (c k : M (option error)) env h w :
  val (c env h w) <> None -> or_return c k env h w = c env h w.
Proof.
  intros Hv. destruct (val (c env h w)) as [e|] eqn:He; [|now destruct Hv].
  rewrite (or_return_Some c k env h w e He), <- He. apply res_eta.
Qed.

(** A property [Q] of the outcome of a run that does not change when
    output that runs no command is put in front of it can be shown on
    what is left of the run after such output. *)
Section Peel.
Context {B : Type} (Q : Res B -> Prop) (env : Env).
Hypothesis Q_stable : forall t r, invocations t = [] -> Q r -> Q (prepend t r).

Lemma peel_post {A} (R : A -> Prop) (m : M A) (f : A -> M B) :
  (forall h w, invocations (out (m env h w)) = [] /\ R (val (m env h w))) ->
  (forall a, R a -> forall h w, Q (f a env h w)) ->
  forall h w, Q (bind m f env h w).
Proof.
  intros Hm Hf h w. rewrite bind_eq. destruct (Hm h w) as [Hq HR].
  apply (Q_stable (out (m env h w))
           (f (val (m env h w)) env (h ++ out (m env h w)) (world (m env h w))) Hq).
  now apply Hf.
Qed.

Lemma peel_quiet {A} (m : M A) (f : A -> M B) :
  (forall h w, invocations (out (m env h w)) = []) ->
  (forall a h w, Q (f a env h w)) ->
  forall h w, Q (bind m f env h w).
Proof.
  intros Hm Hf. apply (peel_post (fun _ => True)); [now split|]. intros a _. apply Hf.
Qed.

Lemma peel_value {A} (a : A) (m : M A) (f : A -> M B) :
  (forall h w, m env h w = mkRes a [] w) ->
  (forall h w, Q (f a env h w)) ->
  forall h w, Q (bind m f env h w).
Proof.
  intros Hm Hf h w. rewrite bind_silent by (now rewrite Hm). rewrite Hm. apply Hf.
Qed.

Lemma peel_or_return_failed (c k : M (option error)) (Q' : Res (option error) -> Prop) :
  (forall r, Q' r -> val r <> None) ->
  (forall h w, Q' (c env h w)) ->
  forall h w, Q' (or_return c k env h w).
Proof.
  intros HQ Hc h w. rewrite or_return_failed; [apply Hc|]. apply HQ, Hc.
Qed.

Lemma peel_or_return_w_failed msg (c k : M (option error))
    (Q' : Res (option error) -> Prop) :
  (forall h w, exists e,
      val (c env h w) = Some e /\
      Q' (mkRes (Some (Errorf_w msg e)) (out (c env h w)) (world (c env h w)))) ->
  forall h w, Q' (or_return_w msg c k env h w).
Proof.
  intros Hc h w. destruct (Hc h w) as (e & He & HQ).
  now rewrite (or_return_w_Some msg c k env h w e He).
Qed.

End Peel.

Lemma promptLB_with_yes label dflt env h w :
  lbNonInteractive env = true -> promptLB label dflt env h w = mkRes dflt [] w.
Proof.
  intros Hy. unfold promptLB. rewrite bind_silent by reflexivity.
  unfold flag, ask, ret, bind. cbn [val]. now rewrite Hy.
Qed.

Lemma promptProject_with_yes label dflt env h w :
  projectNonInteractive env = true -> promptProject label dflt env h w = mkRes dflt [] w.
Proof.
  intros Hy. unfold promptProject. rewrite bind_silent by reflexivity.
  unfold flag, ask, ret, bind. cbn [val]. now rewrite Hy.
Qed.

Lemma last_prepend {A} (t : list event) (r : Res A) (e : event) :
  last (out r) = Some e -> last (out (prepend t r)) = Some e.
Proof.
  unfold prepend. cbn [out]. intros H. rewrite last_app, H. reflexivity.
Qed.

(** Take the next action off a run: a silent one whose value is known, or
    one that runs no command. *)
Ltac peel Hyes :=
  first
    [ eapply peel_value;
      [ intros;
        first [ reflexivity
              | apply checkGcloud_found; assumption
              | apply promptLB_with_yes; exact Hyes
              | apply promptProject_with_yes; exact Hyes ]
      | ]
    | apply peel_quiet; [assumption | intros; reflexivity | intros _] ].


(** X7: with [--yes] the load-balancer command configures no service at
    all, so that, outside a dry run, whenever the URL map [gcloud-lb-url-map]
    does not exist yet (its [describe] fails), step 3 reads
    [cfg.Services[0]] of an empty slice: the run describes the URL map,
    runs no other command and ends in a run-time panic. *)
Theorem lb_yes_panics_without_url_map (promptConfirm : string -> M bool) env h w :
  lookPath env "gcloud" = true ->
  viper env "GCP_PROJECT_ID" <> EmptyString ->
  lbNonInteractive env = true ->
  lbDryRun env = false ->
  (forall h',
     runCmd env h' "gcloud"
       ["compute"; "url-maps"; "describe"; "gcloud-lb-url-map";
        "--project"; viper env "GCP_PROJECT_ID"] <> None) ->
  let r := runLoadBalancer promptConfirm env h w in
  invocations (out r) =
    [("gcloud", ["compute"; "url-maps"; "describe"; "gcloud-lb-url-map";
                 "--project"; viper env "GCP_PROJECT_ID"])] /\
  last (out r) = Some (Panic "runtime error: index out of range [0] with length 0").
Proof.
  intros Hg Hp Hy Hdry Hd. cbv zeta.
  apply String.eqb_neq in Hp.
  set (Q := fun r : Res (option error) =>
    val r <> None /\
    invocations (out r) =
      [("gcloud", ["compute"; "url-maps"; "describe"; "gcloud-lb-url-map";
                   "--project"; viper env "GCP_PROJECT_ID"])] /\
    last (out r) = Some (Panic "runtime error: index out of range [0] with length 0")).
  assert (Q_stable : forall t r, invocations t = [] -> Q r -> Q (prepend t r)).
  { intros t r Ht (H1 & H2 & H3). split; [exact H1|]. split.
    - unfold prepend. cbn [out]. now rewrite invocations_app, Ht.
    - now apply last_prepend. }
  assert (Q_val : forall r, Q r -> val r <> None) by now intros r [H _].
  enough (HQ : forall h w, Q (runLoadBalancer promptConfirm env h w))
    by exact (proj2 (HQ h w)).
  clear h w.
  unfold runLoadBalancer, or_return at 1, Println, Print, GetString.
  peel Hy. cbv iota.
  do 8 peel Hy.
  cbn [LoadBalancerConfig.ProjectID]. rewrite Hp.
  peel Hy. rewrite Hy. cbn [negb].
  eapply (peel_value Q env
            (lb_yes_config env, None)).
  { intros h w. unfold bind.
    do 3 (rewrite promptLB_with_yes by exact Hy; cbv beta iota).
    reflexivity. }
  cbn [fst snd lb_yes_config LoadBalancerConfig.Services service_summary].
  do 13 peel Hy.
  peel Hy. cbn [negb].
  apply peel_or_return_failed; [exact Q_val|].
  change (run_steps lbSteps (lb_yes_config env))
    with (for_range
            [ (0%nat, ("Creating Health Checks", createHealthChecks));
              (1%nat, ("Creating Backend Services", createBackendServices));
              (2%nat, ("Creating URL Map", createURLMap));
              (3%nat, ("Creating HTTP(S) Proxy", createHTTPSProxy));
              (4%nat, ("Creating Forwarding Rule", createForwardingRule)) ]
            (loop_body 5 (lb_yes_config env))).
  cbn [for_range]. unfold or_return at 1.
  apply (peel_post Q env Q_stable (fun err => err = None)); [now split|].
  intros _ ->. unfold or_return at 1.
  apply (peel_post Q env Q_stable (fun err => err = None)); [now split|].
  intros _ ->. apply peel_or_return_failed; [exact Q_val|].
  unfold loop_body, Println, Print. cbn [fst snd].
  do 2 peel Hy.
  apply peel_or_return_w_failed. intros h w.
  unfold createURLMap. cbv zeta.
  rewrite bind_silent by reflexivity.
  change (val (flag lbDryRun env h w)) with (lbDryRun env). rewrite Hdry.
  unfold Command_Run, emit, ret, bind. cbn [LoadBalancerConfig.Services lb_yes_config
    LoadBalancerConfig.LBName LoadBalancerConfig.ProjectID val out world].
  destruct (runCmd env h "gcloud" _) as [msg|] eqn:Hr; [|now destruct (Hd h)].
  eexists. split; [reflexivity|]. now repeat split.
Qed.

(** X8: [project create --yes] always asks for the project [my-project].
    Outside a dry run, when [gcloud projects create] fails (the id is
    taken, say), the command runs nothing else and returns that error
    wrapped twice: by the step and by the loop over the steps. *)
Theorem project_create_yes_stops_when_create_fails
    (promptConfirm : string -> M bool) env h w msg :
  lookPath env "gcloud" = true ->
  projectNonInteractive env = true ->
  projectDryRun env = false ->
  (forall h',
     runCmd env h' "gcloud" ["projects"; "create"; "my-project"; "--name=my-project"]
     = Some msg) ->
  let r := runProjectCreate promptConfirm env h w in
  val r = Some (Errorf_w "Creating GCP Project failed: "
                  (Errorf_w "failed to create project: " (RunError msg))) /\
  invocations (out r) =
    [("gcloud", ["projects"; "create"; "my-project"; "--name=my-project"])].
Proof.
  intros Hg Hy Hdry Hc. cbv zeta. revert h w.
  set (cmd := ("gcloud", ["projects"; "create"; "my-project"; "--name=my-project"])).
  set (Q := fun r : Res (option error) =>
    val r = Some (Errorf_w "Creating GCP Project failed: "
                    (Errorf_w "failed to create project: " (RunError msg))) /\
    invocations (out r) = [cmd]).
  assert (Q_stable : forall t r, invocations t = [] -> Q r -> Q (prepend t r)).
  { intros t r Ht (H1 & H2). split; [exact H1|].
    unfold prepend. cbn [out]. now rewrite invocations_app, Ht. }
  assert (Q_val : forall r, Q r -> val r <> None).
  { intros r [H _]. rewrite H. discriminate. }
  change (forall h w, Q (runProjectCreate promptConfirm env h w)).
  unfold runProjectCreate, or_return at 1, Println, Print.
  peel Hy. cbv iota.
  do 5 peel Hy.
  peel Hy. rewrite Hy. cbn [negb].
  eapply (peel_value Q env
            (set_project_answers ProjectConfig.zero "my-project" "my-project"
               "github-actions" "docker" "us-central1", None)).
  { intros h w. unfold bind.
    do 5 (rewrite promptProject_with_yes by exact Hy; cbv beta iota).
    reflexivity. }
  cbn [fst snd].
  do 10 peel Hy.
  peel Hy. cbn [negb].
  apply peel_or_return_failed; [exact Q_val|].
  unfold run_steps, projectSteps. cbn [imap for_range length].
  apply peel_or_return_failed; [exact Q_val|].
  unfold loop_body, Println, Print. cbn [fst snd].
  do 2 peel Hy.
  apply peel_or_return_w_failed. intros h w.
  unfold createGCPProject.
  rewrite bind_silent by reflexivity.
  change (val (flag projectDryRun env h w)) with (projectDryRun env). rewrite Hdry.
  unfold Print, or_return_w, Command_Run, emit, ret, bind.
  cbn [set_project_answers ProjectConfig.ProjectID ProjectConfig.ProjectName
       val out world].
  rewrite Hc. eexists. split; [reflexivity|]. now split.
Qed.

(** ** Declining the confirmation *)

Lemma val_bind_post {A B} (R : B -> Prop) (m : M A) (f : A -> M B) :
  (forall a env h w, R (val (f a env h w))) ->
  forall env h w, R (val (bind m f env h w)).
Proof. intros Hf env h w. rewrite bind_eq. apply Hf. Qed.

Lemma interactiveProjectConfig_nil cfg env h w :
  (val (interactiveProjectConfig cfg env h w)).2 = None.
Proof.
  revert env h w. unfold interactiveProjectConfig.
  repeat (apply (val_bind_post (fun r : ProjectConfig.t * option error => r.2 = None));
          intros ?).
  reflexivity.
Qed.

Lemma interactiveLBConfig_nil cfg env h w :
  (val (interactiveLBConfig cfg env h w)).2 = None.
Proof.
  revert env h w. unfold interactiveLBConfig.
  repeat (apply (val_bind_post (fun r : LoadBalancerConfig.t * option error => r.2 = None));
          intros ?).
  reflexivity.
Qed.

Lemma quiet_invocations {A} (m : M A) :
  emits (fun _ => True) (fun e => is_Run e = false) m ->
  forall env h w, invocations (out (m env h w)) = [].
Proof. intros Hm env h w. now apply invocations_no_Run, Hm. Qed.

Lemma interactiveProjectConfig_quiet cfg env h w :
  invocations (out (interactiveProjectConfig cfg env h w)) = [].
Proof.
  apply quiet_invocations. pose proof (quiet_promptProject (fun _ => True)).
  unfold interactiveProjectConfig. emits_go.
Qed.

Lemma interactiveLBConfig_quiet cfg env h w :
  invocations (out (interactiveLBConfig cfg env h w)) = [].
Proof.
  apply quiet_invocations.
  pose proof (quiet_promptLB (fun _ => True)).
  pose proof (quiet_read_services (fun _ => True)).
  unfold interactiveLBConfig. emits_go.
Qed.

Lemma invocations_service_summary services : forall i,
  invocations (service_summary i services) = [].
Proof. induction services as [|s services IH]; intros i; [reflexivity|apply IH]. Qed.

(** X9: in interactive mode, when the user declines the confirmation
    both [project create] and [loadbalancer setup] return nil without
    having run any external command: no step is started. *)
Theorem declined_confirmation_runs_nothing (promptConfirm : string -> M bool) env h w :
  lookPath env "gcloud" = true ->
  (forall question h' w',
     val (promptConfirm question env h' w') = false /\
     invocations (out (promptConfirm question env h' w')) = []) ->
  (projectNonInteractive env = false ->
   val (runProjectCreate promptConfirm env h w) = None /\
   invocations (out (runProjectCreate promptConfirm env h w)) = []) /\
  (lbNonInteractive env = false ->
   viper env "GCP_PROJECT_ID" <> EmptyString ->
   val (runLoadBalancer promptConfirm env h w) = None /\
   invocations (out (runLoadBalancer promptConfirm env h w)) = []).
Proof.
  intros Hg Hno.
  set (Q := fun r : Res (option error) => val r = None /\ invocations (out r) = []).
  assert (Q_stable : forall t r, invocations t = [] -> Q r -> Q (prepend t r)).
  { intros t r Ht (H1 & H2). split; [exact H1|].
    unfold prepend. cbn [out]. now rewrite invocations_app, Ht, H2. }
  assert (Hdecline : forall question (cancelled : string) (k : M bool) h' w',
    invocations
      (out ((ok <- promptConfirm question ;;
             if negb ok then emit (Stdout cancelled) ;; ret false else k) env h' w')) = []
    /\ val ((ok <- promptConfirm question ;;
             if negb ok then emit (Stdout cancelled) ;; ret false else k) env h' w')
       = false).
  { intros question cancelled k h' w'. rewrite bind_eq.
    destruct (Hno question h' w') as [Hv Hq]. rewrite Hv. cbn [negb val out].
    rewrite invocations_app, Hq. now split. }
  split.
  - intros Hi. revert h w.
    change (forall h w, Q (runProjectCreate promptConfirm env h w)).
    unfold runProjectCreate, or_return at 1, Println, Print.
    peel Hi. cbv iota.
    do 5 peel Hi.
    peel Hi. rewrite Hi. cbn [negb].
    apply (peel_post Q env Q_stable (fun r => r.2 = None)).
    { intros h w. split;
        [apply interactiveProjectConfig_quiet | apply interactiveProjectConfig_nil]. }
    intros r ->.
    do 10 peel Hi.
    apply (peel_post Q env Q_stable (fun proceed => proceed = false));
      [apply Hdecline|].
    intros _ ->. now split.
  - intros Hi Hp. apply String.eqb_neq in Hp. revert h w.
    change (forall h w, Q (runLoadBalancer promptConfirm env h w)).
    unfold runLoadBalancer, or_return at 1, Println, Print, GetString.
    peel Hi. cbv iota.
    do 8 peel Hi.
    cbn [LoadBalancerConfig.ProjectID]. rewrite Hp.
    peel Hi. rewrite Hi. cbn [negb].
    apply (peel_post Q env Q_stable (fun r => r.2 = None)).
    { intros h w. split;
        [apply interactiveLBConfig_quiet | apply interactiveLBConfig_nil]. }
    intros r ->.
    do 10 peel Hi.
    apply peel_quiet;
      [exact Q_stable | intros; apply invocations_service_summary | intros _].
    do 2 peel Hi.
    apply (peel_post Q env Q_stable (fun proceed => proceed = false));
      [apply Hdecline|].
    intros _ ->. now split.
Qed.

(** ** The load-balancer setup on resources that exist *)

Section Yields.
Context (env : Env).

Lemma yields_ret_None : yields env [] (ret None).
Proof. intros h w. now split. Qed.

Lemma yields_or_return cmds1 cmds2 (c k : M (option error)) :
  yields env cmds1 c -> yields env cmds2 k -> yields env (cmds1 ++ cmds2) (or_return c k).
Proof.
  intros Hc Hk h w. destruct (Hc h w) as [Hv Hi].
  rewrite (or_return_None c k env h w Hv). cbn [val out].
  destruct (Hk (h ++ out (c env h w)) (world (c env h w))) as [Hv' Hi'].
  now rewrite invocations_app, Hi, Hi'.
Qed.

Lemma yields_or_return_w msg cmds1 cmds2 (c k : M (option error)) :
  yields env cmds1 c -> yields env cmds2 k ->
  yields env (cmds1 ++ cmds2) (or_return_w msg c k).
Proof.
  intros Hc Hk h w. destruct (Hc h w) as [Hv Hi].
  rewrite (or_return_w_None msg c k env h w Hv). cbn [val out].
  destruct (Hk (h ++ out (c env h w)) (world (c env h w))) as [Hv' Hi'].
  now rewrite invocations_app, Hi, Hi'.
Qed.

Lemma yields_quiet {A} cmds (m : M A) (k : A -> M (option error)) :
  (forall h w, invocations (out (m env h w)) = []) ->
  (forall a, yields env cmds (k a)) -> yields env cmds (bind m k).
Proof.
  intros Hm Hk h w. rewrite bind_eq. cbn [val out].
  destruct (Hk (val (m env h w)) (h ++ out (m env h w)) (world (m env h w))) as [Hv Hi].
  now rewrite invocations_app, Hm, Hi.
Qed.

Lemma yields_for_range {A} (cmd : A -> string * list string) (xs : list A)
    (body : A -> M (option error)) :
  (forall x, yields env [cmd x] (body x)) -> yields env (cmd <$> xs) (for_range xs body).
Proof.
  intros Hb. induction xs as [|x xs IH]; cbn [for_range fmap list_fmap].
  - apply yields_ret_None.
  - apply (yields_or_return [cmd x]); [apply Hb | exact IH].
Qed.

Lemma yields_same cmds cmds' (m : M (option error)) :
  cmds = cmds' -> yields env cmds m -> yields env cmds' m.
Proof. now intros ->. Qed.

Lemma yields_loop_body {C} cmds total (cfg : C) i name (fn : C -> M (option error)) :
  yields env cmds (fn cfg) -> yields env cmds (loop_body total cfg (i, (name, fn))).
Proof.
  intros Hfn. unfold loop_body, Print, Println. cbn [fst snd].
  apply yields_quiet; [reflexivity|]. intros _.
  apply yields_quiet; [reflexivity|]. intros _.
  apply (yields_same (cmds ++ [])); [apply app_nil_r|].
  apply yields_or_return_w; [exact Hfn|].
  apply yields_quiet; [reflexivity|]. intros _. apply yields_ret_None.
Qed.

Hypothesis real : lbDryRun env = false.
Hypothesis exists_already : forall h kind rest,
  runCmd env h "gcloud" ("compute" :: kind :: "describe" :: rest) = None.

(** A resource that is described and found. *)
Lemma yields_found kind rest (m1 : M (option error))
    (k : option error -> M (option error)) :
  yields env [] (k None) ->
  yields env [("gcloud", "compute" :: kind :: "describe" :: rest)]
    (dry <- flag lbDryRun ;;
     if dry then m1
     else err <- Command_Run "gcloud" ("compute" :: kind :: "describe" :: rest) ;; k err).
Proof.
  intros Hk h w. rewrite bind_silent by reflexivity.
  change (val (flag lbDryRun env h w)) with (lbDryRun env). rewrite real.
  rewrite bind_eq. unfold Command_Run. cbn [val out world].
  rewrite exists_already. cbn [fmap option_fmap option_map].
  destruct (Hk (h ++ [Run "gcloud" ("compute" :: kind :: "describe" :: rest) None]) w)
    as [Hv Hi].
  split; [exact Hv|]. now rewrite invocations_app, Hi.
Qed.

Lemma yields_note (s : string) : yields env [] (Print s ;; ret None).
Proof. now intros h w. Qed.

End Yields.

(** X10: run on a load balancer that is set up already, the five steps
    change nothing.  Outside a dry run, when every [gcloud compute ...
    describe] succeeds, the steps return nil after running exactly the
    [describe] commands, in this order: one per health check, one per
    backend service, the URL map, the proxy, the forwarding rule; no
    [create] and no [add-path-rule] is run. *)
Theorem lb_setup_on_existing_resources_only_describes cfg env h w :
  lbDryRun env = false ->
  (forall h' kind rest,
     runCmd env h' "gcloud" ("compute" :: kind :: "describe" :: rest) = None) ->
  let r := run_steps lbSteps cfg env h w in
  val r = None /\ invocations (out r) = lb_describe_commands env cfg.
Proof.
  intros Hreal Hex. cbv zeta. revert h w.
  change (yields env (lb_describe_commands env cfg) (run_steps lbSteps cfg)).
  pose proof (yields_found env Hreal Hex) as Hfound.
  change (run_steps lbSteps cfg)
    with (for_range
            [ (0%nat, ("Creating Health Checks", createHealthChecks));
              (1%nat, ("Creating Backend Services", createBackendServices));
              (2%nat, ("Creating URL Map", createURLMap));
              (3%nat, ("Creating HTTP(S) Proxy", createHTTPSProxy));
              (4%nat, ("Creating Forwarding Rule", createForwardingRule)) ]
            (loop_body 5 cfg)).
  cbn [for_range]. unfold lb_describe_commands. cbv zeta.
  apply yields_or_return.
  { apply yields_loop_body. unfold createHealthChecks.
    eapply yields_same; [apply app_nil_r|].
    apply yields_or_return; [|apply yields_ret_None].
    apply (yields_for_range env (fun service =>
             ("gcloud", ["compute"; "health-checks"; "describe";
                         LoadBalancerService.HealthCheck service; "--global";
                         "--project"; LoadBalancerConfig.ProjectID cfg]))).
    intros service. apply Hfound, yields_note. }
  apply yields_or_return.
  { apply yields_loop_body. unfold createBackendServices.
    eapply yields_same; [apply app_nil_r|].
    apply yields_or_return; [|apply yields_ret_None].
    apply (yields_for_range env (fun service =>
             ("gcloud", ["compute"; "backend-services"; "describe";
                         LoadBalancerService.Name service +:+ "-backend"; "--global";
                         "--project"; LoadBalancerConfig.ProjectID cfg]))).
    intros service. cbv zeta. apply Hfound, yields_note. }
  apply (yields_or_return env
           [("gcloud", ["compute"; "url-maps"; "describe";
                        LoadBalancerConfig.LBName cfg +:+ "-url-map";
                        "--project"; LoadBalancerConfig.ProjectID cfg])]).
  { apply yields_loop_body. unfold createURLMap. cbv zeta.
    apply Hfound, yields_note. }
  apply (yields_or_return env
           [("gcloud", ["compute";
                        ToLower env (if LoadBalancerConfig.UseSSL cfg then "HTTPS" else "HTTP")
                        +:+ "-proxies";
                        "describe"; LoadBalancerConfig.LBName cfg +:+ "-proxy"; "--global";
                        "--project"; LoadBalancerConfig.ProjectID cfg])]).
  { apply yields_loop_body. unfold createHTTPSProxy. cbv zeta.
    intros h w. rewrite bind_silent by reflexivity.
    change (val (flag lbDryRun env h w)) with (lbDryRun env). rewrite Hreal.
    rewrite bind_silent by reflexivity. change (val (ask env h w)) with env.
    rewrite bind_eq. unfold Command_Run. cbn [val out world].
    rewrite Hex. now split. }
  apply (yields_or_return env
           [("gcloud", ["compute"; "forwarding-rules"; "describe";
                        LoadBalancerConfig.LBName cfg +:+ "-forwarding-rule"; "--global";
                        "--project"; LoadBalancerConfig.ProjectID cfg])] []);
    [|apply yields_ret_None].
  apply yields_loop_body. unfold createForwardingRule. cbv zeta.
  apply Hfound, yields_note.
Qed.

(** ** The checks of [runSetup] *)

(** X11: [ValidateConfig] prints nothing and touches nothing; it returns
    nil exactly when every variable of [RequiredVars] has a non-empty
    value, and otherwise an error whose text lists, one per line and in
    the order of [RequiredVars], exactly the variables that are empty. *)
Theorem ValidateConfig_lists_missing_variables env h w :
  let r := ValidateConfig env h w in
  out r = [] /\ world r = w /\
  (val r = None <-> forall v, In v RequiredVars -> viper env v <> EmptyString) /\
  (forall e, val r = Some e ->
     exists missing,
       Error e = "missing required variables:" +:+ nl +:+ "  - "
                 +:+ Join missing (nl +:+ "  - ") /\
       missing <> [] /\
       sublist missing RequiredVars /\
       forall v, In v missing <-> In v RequiredVars /\ viper env v = EmptyString).
Proof.
  cbv zeta. unfold ValidateConfig. rewrite bind_eq. cbn [val out world ask app].
  set (missing := filter (fun v => String.eqb (viper env v) EmptyString = true)
                    RequiredVars).
  assert (Hm : forall v, In v missing <-> In v RequiredVars /\ viper env v = EmptyString).
  { intros v. rewrite <- !list_elem_of_In. unfold missing.
    rewrite list_elem_of_filter, String.eqb_eq. tauto. }
  destruct missing as [|v0 missing'] eqn:Hmiss;
    cbn [length Nat.ltb Nat.leb ret val out world].
  - split; [reflexivity|]. split; [reflexivity|]. split; [|discriminate].
    split; [|reflexivity].
    intros _ v Hv He. now apply (proj2 (Hm v) (conj Hv He)).
  - split; [reflexivity|]. split; [reflexivity|]. split.
    + split; [discriminate|].
      intros H. destruct (proj1 (Hm v0) (or_introl eq_refl)) as [Hv He].
      now destruct (H v0 Hv).
    + intros e [= <-]. exists (v0 :: missing').
      split; [reflexivity|]. split; [discriminate|]. split; [|exact Hm].
      rewrite <- Hmiss. apply sublist_filter.
Qed.

(** X12: [runSetup] makes its three checks in the order configuration,
    [gcloud], [gh].  When one of them fails it returns the error of that
    check (not wrapped) without having printed a line or started a
    step; the only command it can have run by then is [gh auth status],
    and that only once the configuration is complete and both binaries
    were found. *)
Theorem runSetup_stops_at_first_failed_check env h w :
  (forall e, val (ValidateConfig env h w) = Some e ->
     runSetup env h w = mkRes (Some e) [] w) /\
  (val (ValidateConfig env h w) = None ->
   (lookPath env "gcloud" = false ->
      runSetup env h w =
      mkRes (Some (Errorf
               "gcloud CLI not found. Install it: https://cloud.google.com/sdk/docs/install"))
            [] w) /\
   (lookPath env "gcloud" = true -> lookPath env "gh" = false ->
      runSetup env h w =
      mkRes (Some (Errorf "GitHub CLI (gh) not found. Install it: https://cli.github.com/"))
            [] w) /\
   (lookPath env "gcloud" = true -> lookPath env "gh" = true ->
    forall msg, runCmd env h "gh" ["auth"; "status"] = Some msg ->
      runSetup env h w =
      mkRes (Some (Errorf "GitHub CLI not authenticated. Run: gh auth login"))
            [Run "gh" ["auth"; "status"] (Some msg)] w)).
Proof.
  destruct (ValidateConfig_silent env h w) as [Vo Vw]. split.
  - intros e Hv. unfold runSetup.
    rewrite (or_return_Some _ _ _ _ _ e Hv). now rewrite Vo, Vw.
  - intros Hv. unfold runSetup. rewrite or_return_silent by assumption.
    split; [|split].
    + intros Hg.
      assert (Hc : checkGcloud env h w
                   = mkRes (Some (Errorf "gcloud CLI not found. Install it: https://cloud.google.com/sdk/docs/install")) [] w).
      { unfold checkGcloud, LookPath, bind, ask, ret. cbn. now rewrite Hg. }
      erewrite or_return_Some by (rewrite Hc; reflexivity).
      now rewrite Hc.
    + intros Hg Hgh. rewrite or_return_silent by (now rewrite checkGcloud_found).
      rewrite or_return_prepend, checkGH_eq, Hgh. reflexivity.
    + intros Hg Hgh msg Hauth.
      rewrite or_return_silent by (now rewrite checkGcloud_found).
      rewrite or_return_prepend, checkGH_eq, Hgh, Hauth. reflexivity.
Qed.

(** ** The loops of the first two setup steps *)




(** ** The init command, case by case *)

Lemma appendToGitignore_other path env h w p :
  p <> path -> files (world (appendToGitignore path env h w)) !! p = files w !! p.
Proof.
  intros Hp. rewrite appendToGitignore_eq.
  repeat match goal with
  | |- context [match ?x with _ => _ end] =>
      lazymatch x with
      | context [match _ with _ => _ end] => fail
      | _ => destruct x
      end
  end; cbn [world set_file files]; try reflexivity; now rewrite lookup_insert_ne.
Qed.

Lemma appendToGitignore_stdin path env h w :
  stdin (world (appendToGitignore path env h w)) = stdin w.
Proof.
  rewrite appendToGitignore_eq.
  repeat match goal with
  | |- context [match ?x with _ => _ end] =>
      lazymatch x with
      | context [match _ with _ => _ end] => fail
      | _ => destruct x
      end
  end; reflexivity.
Qed.

Lemma gitignorePath_not_envPath cwd : gitignorePath_of cwd <> envPath_of cwd.
Proof.
  intros H. apply (f_equal String.length) in H.
  unfold gitignorePath_of, envPath_of in H.
  rewrite !length_filepath_Join in H. simpl in H. lia.
Qed.

Lemma gitignorePath_not_workflowPath cwd : gitignorePath_of cwd <> workflowPath_of cwd.
Proof.
  intros H. apply (f_equal String.length) in H.
  unfold gitignorePath_of, workflowPath_of in H.
  rewrite !length_filepath_Join in H. simpl in H.
  repeat match type of H with
  | context [if ?b then _ else _] => destruct b
  end; lia.
Qed.

Lemma first_bytes_0 (s : string) : first_bytes 0 s = EmptyString.
Proof. unfold first_bytes. now destruct s. Qed.

Lemma first_bytes_all (s : string) : first_bytes (String.length s) s = s.
Proof.
  unfold first_bytes. induction s as [|c s IH]; [reflexivity|].
  cbn [String.length String.substring]. now rewrite IH.
Qed.

(** What [runInit] returns and what it leaves on disk, in each of the
    cases its checks tell apart. *)
Lemma runInit_cases env h w cwd :
  getwd env = inl cwd ->
  let workflowPath := workflowPath_of cwd in
  let envPath := envPath_of cwd in
  let w1 := set_file w workflowPath (File (DeployWorkflow env) true true) in
  let w2 := set_file w1 envPath (File (EnvTemplate env) true true) in
  exists tr,
  match mkdirAll env (filepath_Join (filepath_Join cwd ".github") "workflows") with
  | Some msg =>
      runInit env h w =
      mkRes (Some (Errorf_w "failed to create .github/workflows directory: "
                     (RunError msg))) tr w
  | None =>
      match files w !! workflowPath with
      | Some _ =>
          runInit env h w =
          mkRes (Some (Errorf ("file already exists: " +:+ workflowPath))) tr w
      | None =>
          if creatable env workflowPath then
            match files w !! envPath with
            | Some _ =>
                runInit env h w =
                mkRes (Some (Errorf ("file already exists: " +:+ envPath))) tr w1
            | None =>
                if creatable env envPath then
                  exists h',
                    runInit env h w =
                    mkRes None tr
                      (world (appendToGitignore (gitignorePath_of cwd) env h' w2))
                else val (runInit env h w) <> None /\ out (runInit env h w) = tr
            end
          else val (runInit env h w) <> None /\ out (runInit env h w) = tr
      end
  end.
Proof.
  intros Hcwd. cbv zeta. unfold runInit. rewrite bind_silent by reflexivity.
  cbn [ask val]. rewrite Hcwd. cbv zeta.
  fold (workflowPath_of cwd) (envPath_of cwd) (gitignorePath_of cwd).
  rewrite or_return_w_prepend.
  change (val (MkdirAll ?d env h w)) with (RunError <$> mkdirAll env d).
  change (out (MkdirAll ?d env h w)) with (@nil event).
  change (world (MkdirAll ?d env h w)) with w.
  destruct (mkdirAll env _) as [msg|]; cbn [fmap option_fmap option_map];
    [eexists; reflexivity|].
  rewrite prepend_nil, or_return_prepend, writeFileIfNotExists_eq.
  destruct (files w !! workflowPath_of cwd) as [f|] eqn:Hwf;
    [eexists; reflexivity|].
  destruct (creatable env (workflowPath_of cwd));
    [|destruct (writeFault env _ _) as [[n msg]|]; eexists; now split].
  cbn [val out world]. unfold Println. rewrite emit_prepend.
  rewrite or_return_prepend, writeFileIfNotExists_eq.
  cbn [set_file files].
  rewrite (lookup_insert_ne (files w) _ _ _ (workflowPath_not_envPath cwd)).
  destruct (files w !! envPath_of cwd) as [g|] eqn:Hep;
    [eexists; reflexivity|].
  destruct (creatable env (envPath_of cwd));
    [|destruct (writeFault env _ _) as [[n msg]|]; eexists; now split].
  cbn [val out world]. rewrite emit_prepend.
  match goal with
  | |- context [bind (appendToGitignore _) ?k] => set (K := k)
  end.
  assert (HK : forall err hh ww, val (K err env hh ww) = None /\ world (K err env hh ww) = ww).
  { intros [e|] hh ww; now split. }
  rewrite bind_eq.
  match goal with
  | |- context [K ?err env ?hh ?ww] => destruct (HK err hh ww) as [-> ->]
  end.
  eexists. eexists. reflexivity.
Qed.

(** X14: in a directory [cwd], [runInit] succeeds exactly when the
    workflow directory can be made and neither the workflow file nor
    [.env.gcloud] exists and both can be created; whether [.gitignore]
    can be read or updated never matters.  After a successful run the
    two files hold the embedded templates, and standard input is
    untouched. *)
Theorem runInit_succeeds_exactly_when_both_files_are_new env h w cwd :
  getwd env = inl cwd ->
  let r := runInit env h w in
  (val r = None <->
   mkdirAll env (filepath_Join (filepath_Join cwd ".github") "workflows") = None /\
   files w !! workflowPath_of cwd = None /\
   creatable env (workflowPath_of cwd) = true /\
   files w !! envPath_of cwd = None /\
   creatable env (envPath_of cwd) = true) /\
  (val r = None ->
   files (world r) !! workflowPath_of cwd = Some (File (DeployWorkflow env) true true) /\
   files (world r) !! envPath_of cwd = Some (File (EnvTemplate env) true true) /\
   stdin (world r) = stdin w).
Proof.
  intros Hcwd r. subst r.
  destruct (runInit_cases env h w cwd Hcwd) as [tr H]. cbv zeta in H.
  destruct (mkdirAll env _) as [msg|].
  { rewrite H. cbn [val]. split; [split|]; [discriminate| |discriminate].
    now intros [? _]. }
  destruct (files w !! workflowPath_of cwd) as [f|].
  { rewrite H. cbn [val]. split; [split|]; [discriminate| |discriminate].
    now intros (_ & ? & _). }
  destruct (creatable env (workflowPath_of cwd)).
  2:{ destruct H as [H _]. split; [split|]; [contradiction| |contradiction].
      now intros (_ & _ & ? & _). }
  destruct (files w !! envPath_of cwd) as [g|].
  { rewrite H. cbn [val]. split; [split|]; [discriminate| |discriminate].
    now intros (_ & _ & _ & ? & _). }
  destruct (creatable env (envPath_of cwd)).
  2:{ destruct H as [H _]. split; [split|]; [contradiction| |contradiction].
      now intros (_ & _ & _ & _ & ?). }
  destruct H as [h' H]. rewrite H. cbn [val world].
  split; [now split|]. intros _.
  rewrite !appendToGitignore_other, appendToGitignore_stdin
    by (apply not_eq_sym;
        first [apply gitignorePath_not_workflowPath | apply gitignorePath_not_envPath]).
  cbn [set_file files stdin].
  rewrite lookup_insert_ne by (apply not_eq_sym, workflowPath_not_envPath).
  now rewrite !lookup_insert_eq.
Qed.

(** X15: [runInit] cannot be repeated.  Run again in the state a
    successful run left, it fails on the workflow file it created the
    first time and changes nothing. *)
Theorem runInit_second_run_fails env h h' w cwd :
  getwd env = inl cwd ->
  val (runInit env h w) = None ->
  let w1 := world (runInit env h w) in
  val (runInit env h' w1) =
    Some (Errorf ("file already exists: " +:+ workflowPath_of cwd)) /\
  world (runInit env h' w1) = w1.
Proof.
  intros Hcwd Hv w1.
  assert (Hm : mkdirAll env (filepath_Join (filepath_Join cwd ".github") "workflows")
               = None).
  { destruct (runInit_cases env h w cwd Hcwd) as [tr H]. cbv zeta in H.
    destruct (mkdirAll env _); [|reflexivity]. rewrite H in Hv. discriminate Hv. }
  assert (Hw : exists f, files w1 !! workflowPath_of cwd = Some f).
  { destruct (runInit_cases env h w cwd Hcwd) as [tr H]. cbv zeta in H.
    rewrite Hm in H. subst w1.
    destruct (files w !! workflowPath_of cwd) as [f|] eqn:Hf.
    - rewrite H in Hv. discriminate Hv.
    - destruct (creatable env (workflowPath_of cwd));
        [|now destruct H].
      destruct (files w !! envPath_of cwd);
        [rewrite H in Hv; discriminate Hv|].
      destruct (creatable env (envPath_of cwd));
        [|now destruct H].
      destruct H as [h0 H]. rewrite H. cbn [world].
      rewrite appendToGitignore_other
        by (apply not_eq_sym, gitignorePath_not_workflowPath).
      cbn [set_file files].
      rewrite lookup_insert_ne by (apply not_eq_sym, workflowPath_not_envPath).
      rewrite lookup_insert_eq. eauto. }
  destruct Hw as [f Hf].
  destruct (runInit_cases env h' w1 cwd Hcwd) as [tr H]. cbv zeta in H.
  rewrite Hm, Hf in H. rewrite H. now split.
Qed.

(** X16: [runInit] is not all-or-nothing.  When the workflow file is new
    but [.env.gcloud] exists already, the run fails on [.env.gcloud],
    leaves that file and [.gitignore] as they were, and leaves the
    workflow file it has just written behind. *)
Theorem runInit_leaves_workflow_behind env h w cwd f :
  getwd env = inl cwd ->
  mkdirAll env (filepath_Join (filepath_Join cwd ".github") "workflows") = None ->
  files w !! workflowPath_of cwd = None ->
  creatable env (workflowPath_of cwd) = true ->
  files w !! envPath_of cwd = Some f ->
  let r := runInit env h w in
  val r = Some (Errorf ("file already exists: " +:+ envPath_of cwd)) /\
  files (world r) !! workflowPath_of cwd = Some (File (DeployWorkflow env) true true) /\
  files (world r) !! envPath_of cwd = Some f /\
  files (world r) !! gitignorePath_of cwd = files w !! gitignorePath_of cwd.
Proof.
  intros Hcwd Hm Hwf Hc Hep r. subst r.
  destruct (runInit_cases env h w cwd Hcwd) as [tr H]. cbv zeta in H.
  rewrite Hm, Hwf, Hc, Hep in H. rewrite H. cbn [val world set_file files].
  split; [reflexivity|]. split; [apply lookup_insert_eq|]. split.
  - rewrite lookup_insert_ne by apply workflowPath_not_envPath. exact Hep.
  - apply lookup_insert_ne, not_eq_sym, gitignorePath_not_workflowPath.
Qed.

(** X17: [appendToGitignore] writes to the given path only, and on a
    file it can read it only ever appends: the old content stays in
    front and the access rights stay.  What comes behind the old content
    is a first part of the entry: all of it when the call returns nil
    for a file that did not list [.env.gcloud], nothing when the file
    listed it already or cannot be opened for writing, and possibly a
    part only when the write fails.  After a successful call on a file
    that was missing or could be read, a second call writes nothing. *)
Theorem appendToGitignore_only_appends path env h h' w :
  let r := appendToGitignore path env h w in
  (forall p, p <> path -> files (world r) !! p = files w !! p) /\
  (forall f, files w !! path = Some f -> readable f = true ->
     exists n,
       files (world r) !! path
       = Some (File (data f +:+ first_bytes n entry) (readable f) (writable f)) /\
       (contains (data f) ".env.gcloud" = true \/ writable f = false ->
        first_bytes n entry = EmptyString) /\
       (val r = None -> contains (data f) ".env.gcloud" = false ->
        first_bytes n entry = entry)) /\
  (val r = None ->
   (forall f, files w !! path = Some f -> readable f = true) ->
   appendToGitignore path env h' (world r) = mkRes None [] (world r)).
Proof.
  cbv zeta. split; [|split].
  - intros p Hp. now apply appendToGitignore_other.
  - intros [d rd wr] Hf Hr. cbn [readable] in Hr. subst rd.
    rewrite appendToGitignore_eq, Hf. cbn [readable writable data].
    destruct (contains d ".env.gcloud").
    + exists 0%nat. cbn [world]. rewrite first_bytes_0, append_nil_r.
      now repeat split.
    + destruct wr.
      * destruct (writeFault env path entry) as [[n msg]|].
        -- exists n. cbn [world set_file files val]. rewrite lookup_insert_eq.
           split; [reflexivity|]. split; [now intros [|]|discriminate].
        -- exists (String.length entry). cbn [world set_file files val].
           rewrite lookup_insert_eq, first_bytes_all.
           split; [reflexivity|]. split; [now intros [|]|reflexivity].
      * exists 0%nat. cbn [world val]. rewrite first_bytes_0, append_nil_r.
        split; [exact Hf|]. split; [reflexivity|discriminate].
  - apply appendToGitignore_idempotent.
Qed.

(** ** Standard input *)

Section KeepsStdin.
Context (E : Env -> Prop).

Lemma keeps_ret {A} (a : A) : keeps_stdin E (ret a).
Proof. now intros env h w _. Qed.

Lemma keeps_bind {A B} (m : M A) (f : A -> M B) :
  keeps_stdin E m -> (forall a, keeps_stdin E (f a)) -> keeps_stdin E (bind m f).
Proof.
  intros Hm Hf env h w HE. rewrite bind_eq. cbn [world].
  now rewrite Hf, Hm.
Qed.

Lemma keeps_same_world {A} (m : M A) :
  (forall env h w, world (m env h w) = w) -> keeps_stdin E m.
Proof. intros Hm env h w _. now rewrite Hm. Qed.

Lemma keeps_or_return (c k : M (option error)) :
  keeps_stdin E c -> keeps_stdin E k -> keeps_stdin E (or_return c k).
Proof.
  intros Hc Hk. apply keeps_bind; [exact Hc|].
  intros [e|]; [apply keeps_ret | exact Hk].
Qed.

Lemma keeps_or_return_w msg (c k : M (option error)) :
  keeps_stdin E c -> keeps_stdin E k -> keeps_stdin E (or_return_w msg c k).
Proof.
  intros Hc Hk. apply keeps_bind; [exact Hc|].
  intros [e|]; [apply keeps_ret | exact Hk].
Qed.

Lemma keeps_for_range {A} (xs : list A) (body : A -> M (option error)) :
  (forall x, keeps_stdin E (body x)) -> keeps_stdin E (for_range xs body).
Proof.
  intros Hb. induction xs as [|x xs IH]; simpl.
  - apply keeps_ret.
  - apply keeps_or_return; [apply Hb | exact IH].
Qed.

Lemma keeps_run_steps {C} (steps : list (string * (C -> M (option error)))) (cfg : C) :
  Forall (fun s => keeps_stdin E (s.2 cfg)) steps -> keeps_stdin E (run_steps steps cfg).
Proof.
  intros Hs. unfold run_steps.
  assert (H : forall xs : list (nat * (string * (C -> M (option error)))),
             Forall (fun s => keeps_stdin E (s.2.2 cfg)) xs ->
             keeps_stdin E (for_range xs (loop_body (length steps) cfg))).
  { induction 1 as [|[i [name fn]] xs Hx _ IH]; simpl.
    - apply keeps_ret.
    - apply keeps_or_return; [|exact IH]. unfold loop_body. cbn [fst snd] in *.
      apply keeps_bind; [now apply keeps_same_world|]. intros _.
      apply keeps_bind; [now apply keeps_same_world|]. intros _.
      apply keeps_or_return_w; [exact Hx|].
      apply keeps_bind; [now apply keeps_same_world | intros _; apply keeps_ret]. }
  apply H. apply Forall_forall. intros [i s] Hin.
  apply elem_of_lookup_imap_1 in Hin as (j & s' & [= -> ->] & Hj).
  exact (Forall_lookup_1 _ _ _ _ Hs Hj).
Qed.

Lemma keeps_flag_bind {A} (f : Env -> bool) (b : bool) (k : bool -> M A) :
  (forall env, E env -> f env = b) ->
  keeps_stdin E (k b) -> keeps_stdin E (bind (flag f) k).
Proof.
  intros Hf Hk env h w HE. rewrite bind_silent by reflexivity.
  change (val (flag f env h w)) with (f env). rewrite (Hf env HE). now apply Hk.
Qed.

End KeepsStdin.

(** Computations that use neither standard input nor the file system. *)
Ltac keeps_go :=
  cbv zeta;
  lazymatch goal with
  | |- keeps_stdin _ (bind _ _) => apply keeps_bind; [keeps_go | intro; keeps_go]
  | |- keeps_stdin _ (or_return_w _ _ _) => apply keeps_or_return_w; keeps_go
  | |- keeps_stdin _ (or_return _ _) => apply keeps_or_return; keeps_go
  | |- keeps_stdin _ (for_range _ _) => apply keeps_for_range; intro; keeps_go
  | |- keeps_stdin _ (match ?x with _ => _ end) => destruct x; keeps_go
  | |- keeps_stdin _ (ret _) => apply keeps_ret
  | |- keeps_stdin _ ask => now apply keeps_same_world
  | |- keeps_stdin _ (flag _) => now apply keeps_same_world
  | |- keeps_stdin _ (LookPath _) => now apply keeps_same_world
  | |- keeps_stdin _ (GetString _) => now apply keeps_same_world
  | |- keeps_stdin _ (Print _) => now apply keeps_same_world
  | |- keeps_stdin _ (Println _) => now apply keeps_same_world
  | |- keeps_stdin _ (emit _) => now apply keeps_same_world
  | |- keeps_stdin _ (emit_all _) => now apply keeps_same_world
  | |- keeps_stdin _ (Command_Run _ _) => now apply keeps_same_world
  | |- _ => try solve [auto]
  end.

Lemma keeps_setupSteps E :
  Forall (fun s => forall cfg, keeps_stdin E (s.2 cfg)) setupSteps.
Proof.
  unfold setupSteps. repeat constructor; cbn [snd]; intros cfg.
  - unfold enableAPIs, runCommandSilent. keeps_go.
  - unfold createServiceAccount, runCommandSilent. keeps_go.
  - unfold setupWorkloadIdentity, runCommandSilent. keeps_go.
  - unfold createArtifactRegistry, runCommandSilent. keeps_go.
  - unfold configureGitHub, range_map, gh_set. keeps_go.
Qed.

Lemma keeps_projectSteps E :
  Forall (fun s => forall cfg, keeps_stdin E (s.2 cfg)) projectSteps.
Proof.
  unfold projectSteps. repeat constructor; cbn [snd]; intros cfg.
  - unfold createGCPProject. keeps_go.
  - unfold enableProjectAPIs. keeps_go.
  - unfold createProjectServiceAccount. keeps_go.
  - unfold setupProjectWorkloadIdentity. keeps_go.
  - unfold createProjectArtifactRegistry. keeps_go.
Qed.

Lemma keeps_lbSteps E :
  Forall (fun s => forall cfg, keeps_stdin E (s.2 cfg)) lbSteps.
Proof.
  unfold lbSteps. repeat constructor; cbn [snd]; intros cfg.
  - unfold createHealthChecks. keeps_go.
  - unfold createBackendServices. keeps_go.
  - unfold createURLMap. keeps_go.
  - unfold createHTTPSProxy. keeps_go.
  - unfold createForwardingRule. keeps_go.
Qed.

(** X18: [setup] never reads standard input, and with [--yes] neither
    do [project create] and [loadbalancer setup]: whatever the commands
    do and whatever the confirmation prompt would do, the input that was
    waiting is still there when the command returns. *)
Theorem yes_runs_leave_stdin_alone (promptConfirm : string -> M bool) env h w :
  stdin (world (runSetup env h w)) = stdin w /\
  (projectNonInteractive env = true ->
   stdin (world (runProjectCreate promptConfirm env h w)) = stdin w) /\
  (lbNonInteractive env = true ->
   stdin (world (runLoadBalancer promptConfirm env h w)) = stdin w).
Proof.
  split; [|split].
  - assert (H : keeps_stdin (fun _ => True) runSetup); [|now apply H].
    unfold runSetup, ValidateConfig, checkGcloud, checkGH, loadConfig. keeps_go.
    apply keeps_run_steps.
    eapply Forall_impl; [apply keeps_setupSteps|]. auto.
  - intros Hy.
    assert (H : keeps_stdin (fun env => projectNonInteractive env = true)
                  (runProjectCreate promptConfirm)); [|now apply H].
    assert (Hp : forall label dflt,
      keeps_stdin (fun env => projectNonInteractive env = true)
        (promptProject label dflt)).
    { intros label dflt env' h' w' Hy'. now rewrite promptProject_with_yes. }
    unfold runProjectCreate, checkGcloud.
    apply keeps_or_return; [keeps_go|].
    do 5 (apply keeps_bind; [keeps_go | intros _]).
    apply (keeps_flag_bind _ _ true); [auto|]. cbn [negb]. keeps_go.
    apply keeps_run_steps.
    eapply Forall_impl; [apply keeps_projectSteps|]. auto.
  - intros Hy.
    assert (H : keeps_stdin (fun env => lbNonInteractive env = true)
                  (runLoadBalancer promptConfirm)); [|now apply H].
    assert (Hp : forall label dflt,
      keeps_stdin (fun env => lbNonInteractive env = true) (promptLB label dflt)).
    { intros label dflt env' h' w' Hy'. now rewrite promptLB_with_yes. }
    unfold runLoadBalancer, checkGcloud.
    apply keeps_or_return; [keeps_go|].
    do 5 (apply keeps_bind; [keeps_go | intros _]).
    do 3 (apply keeps_bind; [keeps_go | intros ?]).
    cbv zeta.
    match goal with |- keeps_stdin _ (if ?b then _ else _) => destruct b end;
      [apply keeps_ret|].
    apply (keeps_flag_bind _ _ true); [auto|]. cbn [negb]. keeps_go.
    apply keeps_run_steps.
    eapply Forall_impl; [apply keeps_lbSteps|]. auto.
Qed.

(** ** The services read by [interactiveLBConfig] *)

Lemma val_bind_with {A B} (S : A -> Prop) (R : B -> Prop) (m : M A) (f : A -> M B) :
  (forall env h w, S (val (m env h w))) ->
  (forall a, S a -> forall env h w, R (val (f a env h w))) ->
  forall env h w, R (val (bind m f env h w)).
Proof. intros Hm Hf env h w. rewrite bind_eq. now apply Hf. Qed.

Lemma promptLB_not_empty label dflt env h w :
  dflt <> EmptyString -> val (promptLB label dflt env h w) <> EmptyString.
Proof.
  intros Hd.
  rewrite promptLB_eq.
  destruct (lbNonInteractive env); [exact Hd|]. cbn [val].
  match goal with
  | |- context [String.eqb ?x EmptyString] =>
      now destruct (String.eqb_spec x EmptyString)
  end.
Qed.

(** The loop adds one service per round after the services there were,
    and every service it adds is well formed. *)
Lemma read_services_adds idxs : forall services reader env h w,
  exists new,
    val (read_services idxs services reader env h w) = services ++ new /\
    length new = length idxs /\
    Forall well_formed_service new.
Proof.
  induction idxs as [|i idxs IH]; intros services reader.
  - intros env h w. exists []. now rewrite app_nil_r.
  - cbn [read_services].
    set (R := fun v : list LoadBalancerService.t =>
           exists new, v = services ++ new /\
                       length new = length (i :: idxs) /\
                       Forall well_formed_service new).
    apply (val_bind_with (fun _ => True) R); [easy|]. intros _ _.
    apply (val_bind_with (fun name => name <> EmptyString)).
    { intros env h w. now apply promptLB_not_empty. }
    intros name Hname.
    apply (val_bind_with (fun protocol => protocol <> EmptyString)).
    { intros env h w. now apply promptLB_not_empty. }
    intros protocol Hprotocol.
    apply (val_bind_with (fun _ => True)); [easy|]. intros _ _.
    apply (val_bind_with (fun _ => True)); [easy|]. intros input _.
    apply (val_bind_with (fun _ => True)); [easy|]. intros input' _.
    apply (val_bind_with (fun _ => True)); [easy|]. intros port _.
    apply (val_bind_with (fun path => path <> EmptyString)).
    { intros env h w. now apply promptLB_not_empty. }
    intros path Hpath. cbv zeta.
    apply (val_bind_with (fun _ => True)); [easy|]. intros _ _ env h w.
    destruct (IH (services ++
                  [{| LoadBalancerService.Name := name;
                      LoadBalancerService.Protocol := protocol;
                      LoadBalancerService.Port := port;
                      LoadBalancerService.Path := path;
                      LoadBalancerService.HealthCheck := name +:+ "-hc" |}])
                input.2 env h w) as (new & Hval & Hlen & Hok).
    unfold R. eexists (_ :: new). rewrite Hval, <- app_assoc. split; [reflexivity|].
    split; [cbn; now rewrite Hlen|].
    constructor; [|exact Hok]. now repeat split.
Qed.

(** X19: whatever is typed, or not typed at end of input, the
    configuration [interactiveLBConfig] returns is usable: the load
    balancer and the network have a name, SSL is on only together with a
    certificate name, the project is the one passed in, the services
    there were are kept, and every service added has a non-empty name,
    protocol and path and a health check called [<name>-hc]. *)
Theorem interactiveLBConfig_result_is_well_formed cfg env h w :
  let cfg' := (val (interactiveLBConfig cfg env h w)).1 in
  LoadBalancerConfig.LBName cfg' <> EmptyString /\
  LoadBalancerConfig.Network cfg' <> EmptyString /\
  (LoadBalancerConfig.UseSSL cfg' = true ->
   LoadBalancerConfig.SSLCertificate cfg' <> EmptyString) /\
  LoadBalancerConfig.ProjectID cfg' = LoadBalancerConfig.ProjectID cfg /\
  exists new,
    LoadBalancerConfig.Services cfg' = LoadBalancerConfig.Services cfg ++ new /\
    Forall well_formed_service new.
Proof.
  cbv zeta. revert env h w.
  set (R := fun r : LoadBalancerConfig.t * option error =>
    LoadBalancerConfig.LBName r.1 <> EmptyString /\
    LoadBalancerConfig.Network r.1 <> EmptyString /\
    (LoadBalancerConfig.UseSSL r.1 = true ->
     LoadBalancerConfig.SSLCertificate r.1 <> EmptyString) /\
    LoadBalancerConfig.ProjectID r.1 = LoadBalancerConfig.ProjectID cfg /\
    exists new,
      LoadBalancerConfig.Services r.1 = LoadBalancerConfig.Services cfg ++ new /\
      Forall well_formed_service new).
  unfold interactiveLBConfig.
  apply (val_bind_with (fun name => name <> EmptyString) R).
  { intros env h w. now apply promptLB_not_empty. }
  intros lbName HlbName.
  apply (val_bind_with (fun name => name <> EmptyString)).
  { intros env h w. now apply promptLB_not_empty. }
  intros network Hnetwork.
  do 8 (apply (val_bind_with (fun _ => True)); [easy|]; intros ? _).
  apply (val_bind_with (fun _ => True)); [easy|]. intros input _.
  apply (val_bind_with (fun _ => True)); [easy|]. intros env0 _. cbv zeta.
  apply (val_bind_with (fun ssl : bool * string => ssl.1 = true -> ssl.2 <> EmptyString)).
  { intros env h w. destruct (String.eqb _ "y"); [|discriminate].
    rewrite bind_eq.
    destruct (String.eqb_spec (val (promptLB "SSL Certificate Name" EmptyString env h w))
                EmptyString) as [He|Hne].
    - rewrite bind_eq. cbn [val fst]. discriminate.
    - cbn [val snd]. intros _. exact Hne. }
  intros ssl Hssl.
  do 5 (apply (val_bind_with (fun _ => True)); [easy|]; intros ? _).
  apply (val_bind_with (fun _ => True)); [easy|]. intros numServices _.
  apply (val_bind_with (fun _ => True)); [easy|]. intros _ _.
  apply (val_bind_with (fun services =>
           exists new, services = LoadBalancerConfig.Services cfg ++ new /\
                       Forall well_formed_service new)).
  { intros env h w.
    match goal with
    | |- context [read_services ?idxs ?services ?reader] =>
        destruct (read_services_adds idxs services reader env h w)
          as (new & Hval & _ & Hok)
    end.
    now exists new. }
  intros services Hservices env h w. cbn [ret val]. unfold R. cbn.
  repeat split; assumption.
Qed.

(** ** [containsSubstring] on its own *)

(** X20: the scan of [containsSubstring] alone already decides whether
    [substr] occurs in [s], for all inputs, the empty strings included:
    the length test, the equality test and the emptiness test that
    [contains] makes before calling it never change the answer. *)
Theorem containsSubstring_agrees_with_contains (s substr : string) :
  containsSubstring s substr = contains s substr /\
  (containsSubstring s substr = true <-> occurs_in substr s).
Proof.
  assert (H : containsSubstring s substr = true <-> occurs_in substr s).
  { split.
    - unfold containsSubstring. intros H.
      apply containsSubstring_loop_true in H as (j & _ & E).
      rewrite <- E. apply substring_occurs.
    - intros (pre & post & E). unfold containsSubstring, len.
      assert (L : String.length s
                  = (String.length pre + String.length substr + String.length post)%nat).
      { rewrite E, !length_append. lia. }
      apply containsSubstring_loop_true.
      exists (String.length pre). split; [lia|].
      rewrite E. apply substring_at. }
  split; [|exact H].
  destruct (contains s substr) eqn:Hc.
  - apply H. now apply contains_occurs.
  - destruct (containsSubstring s substr) eqn:Hs; [|reflexivity].
    rewrite (occurs_contains s substr) in Hc; [discriminate Hc|]. now apply H.
Qed.

(** ** The load-balancer steps build on what exists *)

Lemma in_dependency_order_nil h : in_dependency_order h [].
Proof. intros pre name args res post H. now destruct pre. Qed.

Lemma in_dependency_order_cons h e d :
  in_dependency_order h (e :: d) <->
  match e with Run _ args _ => depends_met args h | _ => True end /\
  in_dependency_order (h ++ [e]) d.
Proof.
  split.
  - intros H. split.
    + destruct e as [s|s|name args res|c|s]; try exact I.
      specialize (H [] name args res d eq_refl). now rewrite app_nil_r in H.
    + intros pre name args res post ->.
      specialize (H (e :: pre) name args res post eq_refl).
      now rewrite <- app_assoc.
  - intros [He Hd] pre name args res post Heq.
    destruct pre as [|e' pre]; cbn in Heq; injection Heq as -> ->.
    + now rewrite app_nil_r.
    + specialize (Hd pre name args res post eq_refl).
      now rewrite <- app_assoc in Hd.
Qed.

Lemma in_dependency_order_app d1 : forall h d2,
  in_dependency_order h d1 -> in_dependency_order (h ++ d1) d2 ->
  in_dependency_order h (d1 ++ d2).
Proof.
  induction d1 as [|e d1 IH]; intros h d2 H1 H2.
  - now rewrite app_nil_r in H2.
  - cbn [app]. apply in_dependency_order_cons.
    apply in_dependency_order_cons in H1 as [He H1]. split; [exact He|].
    apply IH; [exact H1|]. now rewrite <- app_assoc.
Qed.

Lemma in_dependency_order_Stdout h s : in_dependency_order h [Stdout s].
Proof. apply in_dependency_order_cons. split; [exact I|apply in_dependency_order_nil]. Qed.

Lemma lasting_True : lasting (fun _ => True).
Proof. now intros h d. Qed.

Lemma lasting_and (P Q : list event -> Prop) :
  lasting P -> lasting Q -> lasting (fun tr => P tr /\ Q tr).
Proof. intros HP HQ h d [H1 H2]. split; [now apply HP | now apply HQ]. Qed.

Lemma lasting_forall {A} (P : A -> list event -> Prop) :
  (forall a, lasting (P a)) -> lasting (fun tr => forall a, P a tr).
Proof. intros HP h d H a. now apply HP. Qed.

Lemma lasting_impl (C : Prop) (P : list event -> Prop) :
  lasting P -> lasting (fun tr => C -> P tr).
Proof. intros HP h d H c. now apply HP, H. Qed.

Lemma lasting_In (e : event) : lasting (fun tr => In e tr).
Proof. intros h d H. apply in_or_app. now left. Qed.

Lemma lasting_ensured kind name : lasting (ensured kind name).
Proof.
  intros h d [rest [H|H]]; exists rest; [left|right]; apply in_or_app; now left.
Qed.

Lemma lasting_health_check_ensured name : lasting (health_check_ensured name).
Proof.
  intros h d [rest [H|H]]; exists rest; [left|right]; apply in_or_app; now left.
Qed.

Section Ordered.
Context (E : Env -> Prop).

Lemma ordered_ret (P Q : list event -> Prop) :
  (forall tr, P tr -> Q tr) -> ordered E P (ret None) Q.
Proof.
  intros HPQ env h w _ HP. cbn. split; [apply in_dependency_order_nil|].
  intros _. rewrite app_nil_r. now apply HPQ.
Qed.

Lemma ordered_weaken (P P' Q Q' : list event -> Prop) (m : M (option error)) :
  (forall tr, P' tr -> P tr) -> (forall tr, Q tr -> Q' tr) ->
  ordered E P m Q -> ordered E P' m Q'.
Proof.
  intros HP HQ Hm env h w HE HP'.
  destruct (Hm env h w HE (HP _ HP')) as [H1 H2]. split; [exact H1|].
  intros Hv. now apply HQ, H2.
Qed.

Lemma ordered_emit (P Q : list event -> Prop) (s : string) (k : M (option error)) :
  lasting P -> ordered E P k Q -> ordered E P (emit (Stdout s) ;; k) Q.
Proof.
  intros HP Hk env h w HE Hh. rewrite emit_prepend. cbn [prepend val out].
  destruct (Hk env (h ++ [Stdout s]) w HE (HP _ _ Hh)) as [H1 H2]. split.
  - apply (in_dependency_order_app [Stdout s]);
      [apply in_dependency_order_Stdout | exact H1].
  - intros Hv. rewrite app_assoc. now apply H2.
Qed.

Lemma ordered_or_return (P R Q : list event -> Prop) (c k : M (option error)) :
  ordered E P c R -> ordered E R k Q -> ordered E P (or_return c k) Q.
Proof.
  intros Hc Hk env h w HE Hh. rewrite or_return_prepend.
  destruct (Hc env h w HE Hh) as [H1 H2].
  destruct (val (c env h w)) as [e|]; cbn [val out prepend].
  - split; [exact H1|discriminate].
  - destruct (Hk env (h ++ out (c env h w)) (world (c env h w)) HE (H2 eq_refl))
      as [H3 H4].
    split; [now apply in_dependency_order_app|].
    intros Hv. rewrite app_assoc. now apply H4.
Qed.

Lemma ordered_or_return_w msg (P R Q : list event -> Prop) (c k : M (option error)) :
  ordered E P c R -> ordered E R k Q -> ordered E P (or_return_w msg c k) Q.
Proof.
  intros Hc Hk env h w HE Hh. rewrite or_return_w_prepend.
  destruct (Hc env h w HE Hh) as [H1 H2].
  destruct (val (c env h w)) as [e|]; cbn [val out prepend].
  - split; [exact H1|discriminate].
  - destruct (Hk env (h ++ out (c env h w)) (world (c env h w)) HE (H2 eq_refl))
      as [H3 H4].
    split; [now apply in_dependency_order_app|].
    intros Hv. rewrite app_assoc. now apply H4.
Qed.

Lemma ordered_flag (f : Env -> bool) (b : bool) (P Q : list event -> Prop)
    (k : bool -> M (option error)) :
  (forall env, E env -> f env = b) ->
  ordered E P (k b) Q -> ordered E P (bind (flag f) k) Q.
Proof.
  intros Hf Hk env h w HE Hh. rewrite bind_silent by reflexivity.
  change (val (flag f env h w)) with (f env). rewrite (Hf env HE). now apply Hk.
Qed.

(** A loop whose rounds each add a lasting fact. *)
Lemma ordered_for_range {A} (P : list event -> Prop) (J : A -> list event -> Prop)
    (xs : list A) (body : A -> M (option error)) :
  lasting P -> (forall x, lasting (J x)) ->
  (forall x, In x xs -> ordered E P (body x) (fun tr => P tr /\ J x tr)) ->
  ordered E P (for_range xs body) (fun tr => P tr /\ forall x, In x xs -> J x tr).
Proof.
  intros HP HJ. induction xs as [|x xs IH]; intros Hb; cbn [for_range].
  - apply ordered_ret. intros tr Htr. split; [exact Htr|]. intros x [].
  - apply (ordered_or_return _ (fun tr => P tr /\ J x tr)).
    + apply Hb. now left.
    + intros env h w HE [Hh Hx].
      destruct (IH (fun y Hy => Hb y (or_intror Hy)) env h w HE Hh) as [H1 H2].
      split; [exact H1|]. intros Hv. destruct (H2 Hv) as [H3 H4].
      split; [exact H3|]. intros y [<-|Hy]; [now apply HJ | now apply H4].
Qed.

(** A command that is run and whose failure is returned. *)
Lemma ordered_run msg (P R Q : list event -> Prop) (args : list string)
    (k : M (option error)) :
  (forall h, P h -> depends_met args h) ->
  (forall h, P h -> R (h ++ [Run "gcloud" args None])) ->
  ordered E R k Q ->
  ordered E P (or_return_w msg (Command_Run "gcloud" args) k) Q.
Proof.
  intros Hd HR Hk. apply (ordered_or_return_w msg P R); [|exact Hk].
  intros env h w HE Hh. unfold Command_Run. cbn [val out]. split.
  - apply in_dependency_order_cons. split; [now apply Hd|].
    apply in_dependency_order_nil.
  - destruct (runCmd env h "gcloud" args); [discriminate|]. intros _. now apply HR.
Qed.

(** A command that is run to see whether a resource exists. *)
Lemma ordered_probe (P R Q : list event -> Prop) (args : list string)
    (found : M (option error)) (missing : error -> M (option error)) :
  lasting P ->
  (forall h, P h -> depends_met args h) ->
  (forall h, P h -> R (h ++ [Run "gcloud" args None])) ->
  ordered E R found Q ->
  (forall e, ordered E P (missing e) Q) ->
  ordered E P (err <- Command_Run "gcloud" args ;;
               match err with Some e => missing e | None => found end) Q.
Proof.
  intros HP Hd HR Hfound Hmissing env h w HE Hh. rewrite bind_eq.
  unfold Command_Run. cbn [val out world].
  assert (Hrun : forall res, in_dependency_order h [Run "gcloud" args res]).
  { intros res. apply in_dependency_order_cons. split; [now apply Hd|].
    apply in_dependency_order_nil. }
  destruct (runCmd env h "gcloud" args) as [msg|]; cbn [fmap option_fmap option_map].
  - destruct (Hmissing (RunError msg) env (h ++ [Run "gcloud" args (Some msg)]) w HE
                (HP _ _ Hh)) as [H1 H2].
    split; [now apply (in_dependency_order_app [_])|].
    intros Hv. rewrite app_assoc. now apply H2.
  - destruct (Hfound env (h ++ [Run "gcloud" args None]) w HE (HR _ Hh)) as [H1 H2].
    split; [now apply (in_dependency_order_app [_])|].
    intros Hv. rewrite app_assoc. now apply H2.
Qed.

End Ordered.

Lemma ordered_ask (E : Env -> Prop) (P Q : list event -> Prop)
    (k : Env -> M (option error)) :
  (forall e0, E e0 -> ordered (fun env => env = e0) P (k e0) Q) ->
  ordered E P (bind ask k) Q.
Proof.
  intros Hk env h w HE Hh. rewrite bind_silent by reflexivity.
  change (val (ask env h w)) with env. now apply (Hk env HE).
Qed.

Lemma ordered_env (E E' : Env -> Prop) (P Q : list event -> Prop) (m : M (option error)) :
  (forall env, E' env -> E env) -> ordered E P m Q -> ordered E' P m Q.
Proof. intros HE Hm env h w HE'. apply Hm, HE, HE'. Qed.

Lemma ordered_panic (E : Env -> Prop) (P Q : list event -> Prop) msg (e : error) :
  ordered E P (emit (Panic msg) ;; ret (Some e)) Q.
Proof.
  intros env h w _ _. cbn. split; [|discriminate].
  apply in_dependency_order_cons. split; [exact I|apply in_dependency_order_nil].
Qed.

Lemma ordered_loop_body {C} (E : Env -> Prop) (P Q : list event -> Prop) total (cfg : C)
    i name (fn : C -> M (option error)) :
  lasting P -> lasting Q ->
  ordered E P (fn cfg) Q -> ordered E P (loop_body total cfg (i, (name, fn))) Q.
Proof.
  intros HP HQ Hfn. unfold loop_body, Print, Println. cbn [fst snd].
  apply ordered_emit; [exact HP|]. apply ordered_emit; [exact HP|].
  apply (ordered_or_return_w E _ P Q); [exact Hfn|].
  apply ordered_emit; [exact HQ|]. now apply ordered_ret.
Qed.

(** Bring the literal prefix of an option to the front, so that two
    options can be told apart or their values be equated. *)
Ltac spell H := repeat rewrite append_cons in H; rewrite ?append_nil_l in H.

(** The option [H] says is among the listed ones is the one that
    carries the same literal prefix. *)
Ltac pick_option H :=
  cbn [In] in H;
  repeat (destruct H as [H|H]);
  try contradiction;
  spell H;
  try discriminate H.

(** Split the question whether a command finds what it refers to into
    the five kinds of reference, and dismiss those the command does not
    make. *)
Ltac dependencies :=
  unfold depends_met;
  repeat split; intros;
  try match goal with
  | H : _ :: _ = _ :: _ |- _ => discriminate H
  | H : _ :: _ = _ :: _, K : _ \/ _ |- _ =>
      injection H as <- <- <-; destruct K as [K|K]; discriminate K
  end.

(** A command that refers to nothing. *)
Ltac no_dependencies := intros; solve [dependencies].

Ltac lasting_go :=
  repeat first
    [ apply lasting_True
    | apply lasting_and
    | apply lasting_forall; intro
    | apply lasting_impl
    | apply lasting_In
    | apply lasting_ensured
    | apply lasting_health_check_ensured ].

Lemma lasting_health_checks cfg : lasting (health_checks_ensured cfg).
Proof. unfold health_checks_ensured. lasting_go. Qed.

Lemma lasting_backends cfg : lasting (backends_ensured cfg).
Proof. unfold backends_ensured. lasting_go. Qed.

Lemma lasting_url_map cfg : lasting (url_map_ensured cfg).
Proof. unfold url_map_ensured. lasting_go. Qed.

Lemma lasting_proxy cfg : lasting (proxy_ensured cfg).
Proof. unfold proxy_ensured. lasting_go. Qed.

Lemma real_lb_run_dry env : real_lb_run env -> lbDryRun env = false.
Proof. now intros [H _]. Qed.

(** Step 1 sees to every health check. *)
Lemma ordered_createHealthChecks cfg :
  ordered real_lb_run (fun _ => True) (createHealthChecks cfg) (health_checks_ensured cfg).
Proof.
  unfold createHealthChecks.
  apply (ordered_or_return _ _ (fun tr => True /\ health_checks_ensured cfg tr));
    [|apply ordered_ret; now intros tr [_ H]].
  apply (ordered_for_range _ (fun _ => True)
           (fun service => health_check_ensured (LoadBalancerService.HealthCheck service)));
    [lasting_go | intro; lasting_go |].
  intros service Hin.
  apply (ordered_flag _ _ false); [exact real_lb_run_dry|].
  apply (ordered_probe _ _
           (fun tr => True /\
                      health_check_ensured (LoadBalancerService.HealthCheck service) tr));
    [lasting_go | no_dependencies | | | ].
  - intros h _. split; [exact I|]. eexists. left. apply in_or_app. right. now left.
  - unfold Print. apply ordered_emit; [lasting_go|]. now apply ordered_ret.
  - intros _. unfold Print. apply ordered_emit; [lasting_go|].
    apply (ordered_run _ _ _
             (fun tr => True /\
                        health_check_ensured (LoadBalancerService.HealthCheck service) tr));
      [no_dependencies | | ].
    + intros h _. split; [exact I|]. eexists. right. apply in_or_app. right. now left.
    + apply ordered_emit; [lasting_go|]. now apply ordered_ret.
Qed.

(** Step 2 creates a backend service only on a health check that step 1
    has seen to. *)
Lemma ordered_createBackendServices cfg :
  ordered real_lb_run (health_checks_ensured cfg) (createBackendServices cfg)
    (backends_ensured cfg).
Proof.
  unfold createBackendServices.
  apply (ordered_or_return _ _
           (fun tr => health_checks_ensured cfg tr /\ backends_ensured cfg tr));
    [|apply ordered_ret; now intros tr [_ H]].
  apply (ordered_for_range _ (health_checks_ensured cfg)
           (fun service =>
              ensured "backend-services" (LoadBalancerService.Name service +:+ "-backend")));
    [apply lasting_health_checks | intro; lasting_go |].
  intros service Hin. cbv zeta.
  apply (ordered_flag _ _ false); [exact real_lb_run_dry|].
  set (J := ensured "backend-services" (LoadBalancerService.Name service +:+ "-backend")).
  assert (HJ : lasting (fun tr => health_checks_ensured cfg tr /\ J tr))
    by (apply lasting_and; [apply lasting_health_checks | apply lasting_ensured]).
  apply (ordered_probe _ _ (fun tr => health_checks_ensured cfg tr /\ J tr));
    [apply lasting_health_checks | no_dependencies | | | ].
  - intros h Hh. split; [now apply lasting_health_checks|].
    eexists. left. apply in_or_app. right. now left.
  - unfold Print. apply ordered_emit; [exact HJ|]. now apply ordered_ret.
  - intros _. unfold Print. apply ordered_emit; [apply lasting_health_checks|].
    apply (ordered_run _ _ _ (fun tr => health_checks_ensured cfg tr /\ J tr)).
    + intros h Hh. dependencies.
      match goal with
      | H : _ :: _ = _ :: _, K : In _ _ |- _ =>
          injection H as <- <-; pick_option K; injection K as <-
      end.
      now apply Hh.
    + intros h Hh. split; [now apply lasting_health_checks|].
      eexists. right. apply in_or_app. right. now left.
    + apply ordered_emit; [exact HJ|]. now apply ordered_ret.
Qed.

(** Step 3 creates the URL map, and its path rules, only on backend
    services that step 2 has seen to. *)
Lemma ordered_createURLMap cfg :
  ordered real_lb_run (backends_ensured cfg) (createURLMap cfg) (url_map_ensured cfg).
Proof.
  unfold createURLMap. cbv zeta.
  apply (ordered_flag _ _ false); [exact real_lb_run_dry|].
  apply (ordered_probe _ _ (url_map_ensured cfg));
    [apply lasting_backends | no_dependencies | | | ].
  - intros h _. eexists. left. apply in_or_app. right. now left.
  - unfold Print. apply ordered_emit; [apply lasting_url_map|]. now apply ordered_ret.
  - intros _.
    destruct (LoadBalancerConfig.Services cfg) as [|service0 rest] eqn:Hs;
      [apply ordered_panic|].
    set (P := fun tr => backends_ensured cfg tr /\ url_map_ensured cfg tr).
    assert (HP : lasting P)
      by (apply lasting_and; [apply lasting_backends | apply lasting_url_map]).
    unfold Print. apply ordered_emit; [apply lasting_backends|].
    apply (ordered_run _ _ _ P).
    + intros h Hh. dependencies.
      match goal with
      | H : _ :: _ = _ :: _, K : In _ _ |- _ =>
          injection H as <- <-; pick_option K; injection K as <-
      end.
      apply Hh. rewrite Hs. now left.
    + intros h Hh. split; [now apply lasting_backends|].
      eexists. right. apply in_or_app. right. now left.
    + match goal with
      | |- ordered _ _ (or_return (for_range ?xs _) _) _ =>
          apply (ordered_or_return _ _ (fun tr => P tr /\ forall x, In x xs -> True))
      end.
      * apply (ordered_for_range _ P (fun _ _ => True));
          [exact HP | intro; lasting_go |].
        intros service Hin. cbv zeta. apply ordered_emit; [exact HP|].
        apply (ordered_probe _ _ (fun tr => P tr /\ True)); [exact HP | | | | ].
        -- intros h [Hb Hu]. dependencies.
           ++ match goal with
              | H : _ :: _ = _ :: _ |- _ => injection H as <- <-
              end.
              exact Hu.
           ++ match goal with
              | H : _ :: _ = _ :: _, K : In _ _ |- _ =>
                  injection H as <- <-; pick_option K; injection K as <-
              end.
              apply Hb. now rewrite Hs.
        -- intros h Hh. split; [now apply HP | exact I].
        -- now apply ordered_ret.
        -- intros e. apply ordered_emit; [exact HP|]. apply ordered_ret.
           now intros tr Htr.
      * apply ordered_emit; [lasting_go; exact HP|]. apply ordered_ret.
        now intros tr [[_ H] _].
Qed.

(** Step 4 creates the proxy only on a URL map that step 3 has seen to. *)
Lemma ordered_createHTTPSProxy cfg :
  ordered real_lb_run (url_map_ensured cfg) (createHTTPSProxy cfg) (proxy_ensured cfg).
Proof.
  unfold createHTTPSProxy, proxy_ensured. cbv zeta.
  apply (ordered_flag _ _ false); [exact real_lb_run_dry|].
  apply ordered_ask. intros env (_ & Hhttp & Hhttps).
  destruct (LoadBalancerConfig.UseSSL cfg); rewrite ?Hhttp, ?Hhttps.
  - apply (ordered_probe _ _
             (ensured "https-proxies" (LoadBalancerConfig.LBName cfg +:+ "-proxy")));
      [apply lasting_url_map | no_dependencies | | | ].
    + intros h _. eexists. left. apply in_or_app. right. now left.
    + unfold Print. apply ordered_emit; [apply lasting_ensured|]. now apply ordered_ret.
    + intros _. unfold Print. apply ordered_emit; [apply lasting_url_map|].
      change (String.eqb "HTTPS" "HTTP") with false. cbv iota.
      apply (ordered_or_return _ _
               (ensured "https-proxies" (LoadBalancerConfig.LBName cfg +:+ "-proxy"))).
      * apply (ordered_run _ _ _
                 (ensured "https-proxies" (LoadBalancerConfig.LBName cfg +:+ "-proxy"))).
        -- intros h Hh. dependencies.
           match goal with
           | H : _ :: _ = _ :: _, K : In _ _ |- _ =>
               injection H as <- <- <-; pick_option K; injection K as <-
           end.
           exact Hh.
        -- intros h _. eexists. right. apply in_or_app. right. now left.
        -- now apply ordered_ret.
      * apply ordered_emit; [apply lasting_ensured|]. now apply ordered_ret.
  - apply (ordered_probe _ _
             (ensured "http-proxies" (LoadBalancerConfig.LBName cfg +:+ "-proxy")));
      [apply lasting_url_map | no_dependencies | | | ].
    + intros h _. eexists. left. apply in_or_app. right. now left.
    + unfold Print. apply ordered_emit; [apply lasting_ensured|]. now apply ordered_ret.
    + intros _. unfold Print. apply ordered_emit; [apply lasting_url_map|].
      change (String.eqb "HTTP" "HTTP") with true. cbv iota.
      apply (ordered_or_return _ _
               (ensured "http-proxies" (LoadBalancerConfig.LBName cfg +:+ "-proxy"))).
      * apply (ordered_run _ _ _
                 (ensured "http-proxies" (LoadBalancerConfig.LBName cfg +:+ "-proxy"))).
        -- intros h Hh. dependencies.
           match goal with
           | H : _ :: _ = _ :: _, K : In _ _ |- _ =>
               injection H as <- <- <-; pick_option K; injection K as <-
           end.
           exact Hh.
        -- intros h _. eexists. right. apply in_or_app. right. now left.
        -- now apply ordered_ret.
      * apply ordered_emit; [apply lasting_ensured|]. now apply ordered_ret.
Qed.

(** Step 5 creates the forwarding rule only on a proxy that step 4 has
    seen to. *)
Lemma ordered_createForwardingRule cfg :
  ordered real_lb_run (proxy_ensured cfg) (createForwardingRule cfg) (fun _ => True).
Proof.
  unfold createForwardingRule, proxy_ensured. cbv zeta.
  apply (ordered_flag _ _ false); [exact real_lb_run_dry|].
  apply (ordered_probe _ _ (fun _ => True));
    [apply lasting_ensured | no_dependencies | easy | | ].
  - unfold Print. apply ordered_emit; [lasting_go|]. now apply ordered_ret.
  - intros _. unfold Print. apply ordered_emit; [apply lasting_ensured|].
    apply ordered_ask. intros env (_ & Hhttp & Hhttps).
    destruct (LoadBalancerConfig.UseSSL cfg); rewrite ?Hhttp, ?Hhttps.
    + apply (ordered_run _ _ _ (fun _ => True)); [|easy|].
      * intros h Hh. dependencies;
          match goal with
          | H : _ :: _ = _ :: _, K : In _ _ |- _ =>
              injection H as <- <-; pick_option K; injection K as <-
          end.
        exact Hh.
      * apply ordered_emit; [lasting_go|]. now apply ordered_ret.
    + apply (ordered_run _ _ _ (fun _ => True)); [|easy|].
      * intros h Hh. dependencies;
          match goal with
          | H : _ :: _ = _ :: _, K : In _ _ |- _ =>
              injection H as <- <-; pick_option K; injection K as <-
          end.
        exact Hh.
      * apply ordered_emit; [lasting_go|]. now apply ordered_ret.
Qed.

(** X21: outside a dry run, the five load-balancer steps build on what
    exists.  Whatever [gcloud] answers, a backend service is created
    only on a health check, a URL map only on a default backend service,
    a path rule only on a URL map and a backend service, a proxy only on
    a URL map, and a forwarding rule only on a proxy, that the run has
    described with success or created with success before that command.
    ([strings.ToLower] is taken to map HTTP to http and HTTPS to https.) *)
Theorem lb_steps_run_in_dependency_order cfg env h w :
  lbDryRun env = false ->
  ToLower env "HTTP" = "http" ->
  ToLower env "HTTPS" = "https" ->
  in_dependency_order h (out (run_steps lbSteps cfg env h w)).
Proof.
  intros Hdry Hhttp Hhttps.
  enough (H : ordered real_lb_run (fun _ => True) (run_steps lbSteps cfg) (fun _ => True))
    by now apply H.
  change (run_steps lbSteps cfg)
    with (for_range
            [ (0%nat, ("Creating Health Checks", createHealthChecks));
              (1%nat, ("Creating Backend Services", createBackendServices));
              (2%nat, ("Creating URL Map", createURLMap));
              (3%nat, ("Creating HTTP(S) Proxy", createHTTPSProxy));
              (4%nat, ("Creating Forwarding Rule", createForwardingRule)) ]
            (loop_body 5 cfg)).
  cbn [for_range].
  apply (ordered_or_return _ _ (health_checks_ensured cfg)).
  { apply ordered_loop_body;
      [lasting_go | apply lasting_health_checks | apply ordered_createHealthChecks]. }
  apply (ordered_or_return _ _ (backends_ensured cfg)).
  { apply ordered_loop_body;
      [apply lasting_health_checks | apply lasting_backends
      | apply ordered_createBackendServices]. }
  apply (ordered_or_return _ _ (url_map_ensured cfg)).
  { apply ordered_loop_body;
      [apply lasting_backends | apply lasting_url_map | apply ordered_createURLMap]. }
  apply (ordered_or_return _ _ (proxy_ensured cfg)).
  { apply ordered_loop_body;
      [apply lasting_url_map | apply lasting_proxy | apply ordered_createHTTPSProxy]. }
  apply (ordered_or_return _ _ (fun _ => True)).
  { apply ordered_loop_body;
      [apply lasting_proxy | lasting_go | apply ordered_createForwardingRule]. }
  now apply ordered_ret.
Qed.

(** ** The configuration the setup steps are given *)

Lemma ValidateConfig_complete env h w :
  val (ValidateConfig env h w) = None ->
  forall v, In v RequiredVars -> viper env v <> EmptyString.
Proof.
  unfold ValidateConfig. rewrite bind_eq. cbn [val out world ask app].
  intros Hv v Hin He.
  assert (Hm : In v (filter (fun v => String.eqb (viper env v) EmptyString = true)
                       RequiredVars)).
  { apply list_elem_of_In, list_elem_of_filter. split.
    - now apply String.eqb_eq.
    - now apply list_elem_of_In. }
  destruct (filter _ RequiredVars) as [|v0 missing]; [destruct Hm|].
  discriminate Hv.
Qed.

(** X22: [loadConfig] reads no variable that [ValidateConfig] does not
    require.  Once [ValidateConfig] has returned nil, as it has whenever
    [runSetup] reaches its steps, none of the nine fields that
    [loadConfig] fills from the configuration is empty: the steps never
    run with an empty project, repository, account, registry or
    service name. *)
Theorem validated_config_has_no_empty_field env h w h' w' :
  val (ValidateConfig env h w) = None ->
  let cfg := val (loadConfig env h' w') in
  ProjectID cfg <> EmptyString /\
  ProjectNumber cfg <> EmptyString /\
  GitHubOrg cfg <> EmptyString /\
  GitHubRepo cfg <> EmptyString /\
  ServiceAccountName cfg <> EmptyString /\
  ArtifactRegistryName cfg <> EmptyString /\
  ArtifactRegistryLocation cfg <> EmptyString /\
  CloudRunService cfg <> EmptyString /\
  CloudRunRegion cfg <> EmptyString.
Proof.
  intros Hv cfg. pose proof (ValidateConfig_complete env h w Hv) as H.
  subst cfg. unfold loadConfig, GetString, bind, ask, ret.
  cbn [val ProjectID ProjectNumber GitHubOrg GitHubRepo ServiceAccountName
       ArtifactRegistryName ArtifactRegistryLocation CloudRunService CloudRunRegion].
  repeat split; apply H; unfold RequiredVars; cbn [In]; tauto.
Qed.

(** ** The further properties at work on sample runs *)

Lemma sample_promptConfirm_quiet question env h w :
  invocations (out (sample_promptConfirm question env h w)) = [].
Proof.
  unfold sample_promptConfirm, Print, ReadString, trimSpace, bind, ask, ret, emit.
  now destruct (stdin w).
Qed.

Lemma always_decline_declines question env h w :
  val (always_decline question env h w) = false /\
  invocations (out (always_decline question env h w)) = [].
Proof.
  unfold always_decline, Print, ReadString, bind, ret, emit.
  now destruct (stdin w).
Qed.

(** An interactive dry run of project create, confirmed, with a
    [gcloud] that would fail. *)
Lemma project_create_dry_run_executes_nothing_witness :
  let env := sample_env true false all_fail order_a in
  let input := typing ["shop"; "shop-4711"; EmptyString; EmptyString; EmptyString; "y"] in
  (forall question env h w,
     invocations (out (sample_promptConfirm question env h w)) = []) /\
  projectDryRun env = true /\
  invocations (out (runProjectCreate sample_promptConfirm env [] input)) = [].
Proof.
  intros env input. split; [exact sample_promptConfirm_quiet|].
  split; [reflexivity|].
  exact (project_create_dry_run_executes_nothing sample_promptConfirm env [] input
           sample_promptConfirm_quiet eq_refl).
Defined.

(** An interactive dry run of the load-balancer setup with one service. *)
Lemma lb_dry_run_executes_nothing_witness :
  let env := sample_env true false all_fail order_a in
  let input := typing [ "lb"; "default"; EmptyString; "8080"; "n"; "1";
                        "api"; "HTTP"; "8080"; "/api/*"; "y" ] in
  (forall question env h w,
     invocations (out (sample_promptConfirm question env h w)) = []) /\
  lbDryRun env = true /\
  invocations (out (runLoadBalancer sample_promptConfirm env [] input)) = [].
Proof.
  intros env input. split; [exact sample_promptConfirm_quiet|].
  split; [reflexivity|].
  exact (lb_dry_run_executes_nothing sample_promptConfirm env [] input
           sample_promptConfirm_quiet eq_refl).
Defined.

(** The last setup step on the sample configuration. *)
Lemma setup_commands_name_project_and_repo_witness :
  let env := sample_env false true all_succeed order_a in
  let cfg := val (loadConfig env [] empty_world) in
  In ("Configuring GitHub Repository", configureGitHub) setupSteps /\
  Forall (on_project_or_repo (ProjectID cfg) (GitHubOrg cfg +:+ "/" +:+ GitHubRepo cfg))
    (out (configureGitHub cfg env [] empty_world)).
Proof.
  intros env cfg.
  assert (Hin : In ("Configuring GitHub Repository", configureGitHub) setupSteps)
    by (simpl; tauto).
  split; [exact Hin|].
  exact (setup_commands_name_project_and_repo _ _ cfg env [] empty_world Hin).
Defined.

(** The service account exists already: the step of project create
    fails, where the step of setup goes on. *)
Lemma project_step_fails_at_first_failed_command_witness :
  let env := sample_env false true creates_fail order_a in
  In ("Creating Service Account", createProjectServiceAccount) projectSteps /\
  val (createProjectServiceAccount sample_project env [] empty_world) <> None.
Proof.
  intros env.
  assert (Hin : In ("Creating Service Account", createProjectServiceAccount) projectSteps)
    by (simpl; tauto).
  split; [exact Hin|]. intros Hv.
  destruct (project_step_fails_at_first_failed_command _ _ sample_project env []
              empty_world Hin) as [_ H].
  apply (proj1 H Hv "gcloud"
           ["iam"; "service-accounts"; "create"; "ci"; "--project=shop-4711"]
           "exit status 1").
  vm_compute. tauto.
Defined.

(** [loadbalancer setup --yes] on a project without a URL map. *)
Lemma lb_yes_panics_without_url_map_witness :
  let env := sample_env false true nothing_exists order_a in
  lookPath env "gcloud" = true /\
  viper env "GCP_PROJECT_ID" <> EmptyString /\
  lbNonInteractive env = true /\
  lbDryRun env = false /\
  last (out (runLoadBalancer sample_promptConfirm env [] empty_world))
  = Some (Panic "runtime error: index out of range [0] with length 0").
Proof.
  intros env.
  assert (Hp : viper env "GCP_PROJECT_ID" <> EmptyString) by (vm_compute; discriminate).
  split; [reflexivity|]. split; [exact Hp|]. split; [reflexivity|].
  split; [reflexivity|].
  refine (proj2 (lb_yes_panics_without_url_map sample_promptConfirm env []
                   empty_world eq_refl Hp eq_refl eq_refl _)).
  intros h'. vm_compute. discriminate.
Defined.

(** [project create --yes] when the id [my-project] is taken. *)
Lemma project_create_yes_stops_when_create_fails_witness :
  let env := sample_env false true all_fail order_a in
  lookPath env "gcloud" = true /\
  projectNonInteractive env = true /\
  projectDryRun env = false /\
  Error <$> val (runProjectCreate sample_promptConfirm env [] empty_world)
  = Some "Creating GCP Project failed: failed to create project: exit status 1".
Proof.
  intros env. do 3 (split; [reflexivity|]).
  rewrite (proj1 (project_create_yes_stops_when_create_fails sample_promptConfirm env []
                    empty_world "exit status 1" eq_refl eq_refl eq_refl
                    (fun _ => eq_refl))).
  reflexivity.
Defined.

(** The user answers no. *)
Lemma declined_confirmation_runs_nothing_witness :
  let env := sample_env false false all_succeed order_a in
  let input := typing ["shop"; "shop-4711"; EmptyString; EmptyString; EmptyString; "n"] in
  lookPath env "gcloud" = true /\
  projectNonInteractive env = false /\
  val (runProjectCreate always_decline env [] input) = None /\
  invocations (out (runProjectCreate always_decline env [] input)) = [].
Proof.
  intros env input. do 2 (split; [reflexivity|]).
  exact (proj1 (declined_confirmation_runs_nothing always_decline env [] input eq_refl
                  (fun question h' w' => always_decline_declines question env h' w'))
           eq_refl).
Defined.

(** No health check exists yet: the [describe] fails, the [create]
    succeeds, and so does the step. *)
Lemma lb_step_fails_exactly_when_create_fails_witness :
  let env := sample_env false true nothing_exists order_a in
  In ("Creating Health Checks", createHealthChecks) lbSteps /\
  LoadBalancerConfig.Services sample_lb <> [] /\
  In (Run "gcloud" ["compute"; "health-checks"; "describe"; "api-hc"; "--global";
                    "--project"; "proj"] (Some "exit status 1"))
     (out (createHealthChecks sample_lb env [] empty_world)) /\
  val (createHealthChecks sample_lb env [] empty_world) = None.
Proof.
  intros env.
  assert (Hin : In ("Creating Health Checks", createHealthChecks) lbSteps)
    by (simpl; tauto).
  assert (Hs : LoadBalancerConfig.Services sample_lb <> []) by discriminate.
  split; [exact Hin|]. split; [exact Hs|]. split; [vm_compute; tauto|].
  apply (proj1 (lb_step_fails_exactly_when_create_fails _ _ sample_lb env []
                  empty_world Hin Hs)).
  intros cmd args msg H. vm_compute in H.
  repeat (destruct H as [H|H]); try discriminate H; try contradiction.
  now injection H as <- <- <-.
Defined.

(** Everything exists already. *)
Lemma lb_setup_on_existing_resources_only_describes_witness :
  let env := sample_env false true all_succeed order_a in
  lbDryRun env = false /\
  val (run_steps lbSteps sample_lb env [] empty_world) = None /\
  length (invocations (out (run_steps lbSteps sample_lb env [] empty_world))) = 5%nat.
Proof.
  intros env. split; [reflexivity|].
  destruct (lb_setup_on_existing_resources_only_describes sample_lb env [] empty_world
              eq_refl (fun _ _ _ => eq_refl)) as [Hv Hi].
  split; [exact Hv|]. rewrite Hi. reflexivity.
Defined.


(** [init] in an empty directory. *)
Lemma runInit_succeeds_exactly_when_both_files_are_new_witness :
  let env := sample_env false true all_succeed order_a in
  getwd env = inl "/work" /\
  val (runInit env [] empty_world) = None /\
  files (world (runInit env [] empty_world)) !! "/work/.env.gcloud"
  = Some (File "GCP_PROJECT_ID=" true true).
Proof.
  intros env.
  destruct (runInit_succeeds_exactly_when_both_files_are_new env [] empty_world "/work"
              eq_refl) as [Hiff Hfiles].
  assert (Hv : val (runInit env [] empty_world) = None).
  { apply Hiff. repeat split; reflexivity. }
  split; [reflexivity|]. split; [exact Hv|].
  exact (proj1 (proj2 (Hfiles Hv))).
Defined.

(** ... and a second time in the directory the first run left. *)
Lemma runInit_second_run_fails_witness :
  let env := sample_env false true all_succeed order_a in
  getwd env = inl "/work" /\
  val (runInit env [] empty_world) = None /\
  Error <$> val (runInit env [] (world (runInit env [] empty_world)))
  = Some "file already exists: /work/.github/workflows/gcloud-deploy.yml".
Proof.
  intros env.
  assert (Hv : val (runInit env [] empty_world) = None) by (vm_compute; reflexivity).
  split; [reflexivity|]. split; [exact Hv|].
  rewrite (proj1 (runInit_second_run_fails env [] [] empty_world "/work" eq_refl Hv)).
  vm_compute. reflexivity.
Defined.

(** [init] in a directory that has an environment file. *)
Lemma runInit_leaves_workflow_behind_witness :
  let env := sample_env false true all_succeed order_a in
  files with_env_file !! envPath_of "/work" = Some (File "GCP_PROJECT_ID=mine" true true) /\
  val (runInit env [] with_env_file) <> None /\
  files (world (runInit env [] with_env_file)) !! workflowPath_of "/work"
  = Some (File "name: deploy" true true).
Proof.
  intros env.
  assert (Hf : files with_env_file !! envPath_of "/work"
               = Some (File "GCP_PROJECT_ID=mine" true true))
    by (vm_compute; reflexivity).
  destruct (runInit_leaves_workflow_behind env [] with_env_file "/work" _
              eq_refl eq_refl eq_refl eq_refl Hf) as (Hv & Hw & _).
  split; [exact Hf|]. split; [rewrite Hv; discriminate | exact Hw].
Defined.

(** Nothing exists yet: the backend service is created on the health
    check that was created before it. *)
Lemma lb_steps_run_in_dependency_order_witness :
  let env := lower_env nothing_exists in
  let tr := out (run_steps lbSteps sample_lb env [] empty_world) in
  let create :=
    Run "gcloud"
      [ "compute"; "backend-services"; "create"; "api-backend"; "--global";
        "--protocol=HTTP"; "--port-name=http"; "--health-checks=api-hc";
        "--load-balancing-scheme=EXTERNAL"; "--enable-cdn"; "--project=proj" ] None in
  lbDryRun env = false /\
  ToLower env "HTTP" = "http" /\
  ToLower env "HTTPS" = "https" /\
  tr !! 11%nat = Some create /\
  health_check_ensured "api-hc" (take 11 tr).
Proof.
  intros env tr create.
  assert (He : tr !! 11%nat = Some create) by (vm_compute; reflexivity).
  do 3 (split; [reflexivity|]). split; [exact He|].
  pose proof (lb_steps_run_in_dependency_order sample_lb env [] empty_world
                eq_refl eq_refl eq_refl) as H.
  specialize (H (take 11 tr) "gcloud" _ None (drop 12 tr)
                (eq_sym (take_drop_middle _ _ _ He))).
  destruct H as [H _]. cbn [app] in H.
  apply (H "api-backend" _ "api-hc" eq_refl). vm_compute. tauto.
Defined.

(** The sample configuration is complete. *)
Lemma validated_config_has_no_empty_field_witness :
  let env := sample_env false true all_succeed order_a in
  val (ValidateConfig env [] empty_world) = None /\
  ProjectID (val (loadConfig env [] empty_world)) <> EmptyString.
Proof.
  intros env.
  assert (Hv : val (ValidateConfig env [] empty_world) = None) by (vm_compute; reflexivity).
  split; [exact Hv|].
  exact (proj1 (validated_config_has_no_empty_field env [] empty_world [] empty_world Hv)).
Defined.
